(** * LineSeperator: the file-extraction pipeline of [LINES/main.py]

    A shallow embedding of [FileExtractor] (the statistics dictionary, the
    worker loop [process_file], [is_duplicate], [calculate_hash], [run] and
    the validation done by [get_user_input]) together with the properties
    of the pipeline: counters, line filtering, encoding fallback, duplicate
    detection and error handling.

    Python values are modelled as follows:
    - [int] is [Z]; [bytes] is [list byte]; [str] is a list of code points;
    - exceptions are an inductive type and fallible code returns [Result];
    - the file system is an association list from folders to listings;
    - the services of the interpreter that the program only calls (text
      codecs, [str.lower], the clock) are the fields of a class [Runtime]. *)

From Stdlib Require Import Strings.String Strings.Ascii Strings.Byte.
From Stdlib Require Import List ZArith NArith Lia Bool Arith Uint63.
Import ListNotations.

Set Implicit Arguments.

(** Besides the pipeline the development covers what surrounds it: the
    settings dictionary with its menu and its file (module [Menu]), batch
    mode, and the way from the prompt to a run.  The properties of these
    parts follow those of the pipeline, from "Further properties of the
    program" on. *)

(** ** Python strings and bytes *)

Module Py.

(** A [str] is a sequence of Unicode code points. *)
Definition str := list N.

Definition bytes := list byte.

Definition bytes_of_string (s : string) : bytes := list_byte_of_string s.

(** ASCII literal: every byte of the literal is its own code point. *)
Definition a2s (s : string) : str := map Byte.to_N (list_byte_of_string s).

(** [a == b] *)
Fixpoint str_eqb (a b : str) : bool :=
  match a, b with
  | [], [] => true
  | x :: a', y :: b' => N.eqb x y && str_eqb a' b'
  | _, _ => false
  end.

(** [s.startswith(p)] *)
Fixpoint startswith (p s : str) : bool :=
  match p, s with
  | [], _ => true
  | _ :: _, [] => false
  | a :: p', b :: s' => N.eqb a b && startswith p' s'
  end.

(** [t in s] for strings: [t] occurs as a contiguous block of [s]. *)
Fixpoint contains (t s : str) : bool :=
  startswith t s ||
  match s with
  | [] => false
  | _ :: s' => contains t s'
  end.

(** [s.rfind(c)], as the index of the last occurrence, when there is one. *)
Fixpoint rfind (c : N) (s : str) : option nat :=
  match s with
  | [] => None
  | x :: s' =>
      match rfind c s' with
      | Some i => Some (S i)
      | None => if N.eqb x c then Some 0%nat else None
      end
  end.

(** [s[:n]] and [s[n:]] for a non-negative [n]. *)
Definition take (n : nat) (s : str) : str := firstn n s.
Definition drop (n : nat) (s : str) : str := skipn n s.

(** [s[::-1]] *)
Definition reverse (s : str) : str := rev_append s [].

(** [s.strip()]: leading and trailing ASCII white space removed. *)
Definition is_space (c : N) : bool :=
  (N.eqb c 32 || (N.leb 9 c && N.leb c 13))%bool.

Fixpoint lstrip (s : str) : str :=
  match s with
  | c :: s' => if is_space c then lstrip s' else s
  | [] => []
  end.

Definition strip (s : str) : str :=
  reverse (lstrip (reverse (lstrip s))).

(** [s.split(sep)] for a one-character separator. *)
Fixpoint split (sep : N) (s : str) : list str :=
  match s with
  | [] => [[]]
  | c :: s' =>
      if N.eqb c sep then [] :: split sep s'
      else match split sep s' with
           | w :: ws => (c :: w) :: ws
           | [] => [[c]]
           end
  end.

(** [str(n)] for an [int]. *)
Fixpoint digits (fuel : nat) (n : N) (acc : str) : str :=
  match fuel with
  | O => acc
  | S fuel' =>
      let acc' := (48 + n mod 10)%N :: acc in
      if (n <? 10)%N then acc' else digits fuel' (n / 10)%N acc'
  end.

Definition str_of_int (z : Z) : str :=
  let n := Z.abs_N z in
  let d := digits (S (N.to_nat (N.log2 n))) n [] in
  if (z <? 0)%Z then 45%N :: d else d.

(** [int(s)] on an already stripped string: an optional sign and decimal
    digits; anything else raises [ValueError] (here: [None]). *)
Fixpoint parse_digits (s : str) (acc : Z) : option Z :=
  match s with
  | [] => Some acc
  | c :: s' =>
      if (N.leb 48 c && N.leb c 57)%bool
      then parse_digits s' (10 * acc + Z.of_N (c - 48))%Z
      else None
  end.

Definition parse_int (s : str) : option Z :=
  match s with
  | [] => None
  | 45%N :: c :: d => option_map Z.opp (parse_digits (c :: d) 0%Z)
  | 43%N :: c :: d => parse_digits (c :: d) 0%Z
  | _ => parse_digits s 0%Z
  end.

(** The exceptions the pipeline can meet.  All of them are subclasses of
    [Exception]; [UnicodeDecodeError] is a subclass of [UnicodeError]. *)
Inductive Exn :=
| FileNotFoundError | FileExistsError | IsADirectoryError | NotADirectoryError
| PermissionError
| UnicodeDecodeError | UnicodeEncodeError | UnicodeError
| ValueError | EOFError.

Definition is_UnicodeDecodeError (e : Exn) : bool :=
  match e with UnicodeDecodeError => true | _ => false end.

(** A computation that returns or raises. *)
Inductive Result (A : Type) :=
| Ok (a : A)
| Raise (e : Exn).
Arguments Ok {A} a.
Arguments Raise {A} e.

Definition bind {A B} (r : Result A) (f : A -> Result B) : Result B :=
  match r with
  | Ok a => f a
  | Raise e => Raise e
  end.

(** What iterating over a text file yields: lines, then the end of the
    file or an exception raised by the codec. *)
Inductive LineStream :=
| EndOfFile
| Fail (e : Exn)
| Line (l : str) (rest : LineStream).

Definition emit (ls : list str) (k : LineStream) : LineStream :=
  fold_right Line k ls.

End Py.

(** ** MD5 (RFC 1321), the digest behind [hashlib.md5]

    The 32-bit words are machine integers, masked after every addition
    and rotation. *)

Module MD5.

Local Open Scope uint63_scope.

Definition word := int.

Definition mask32 : word := 0xFFFFFFFF.
Definition add32 (a b : word) : word := (a + b) land mask32.
Definition not32 (a : word) : word := a lxor mask32.
Definition rotl32 (x c : word) : word :=
  ((x << c) lor (x >> (32 - c))) land mask32.

Definition K : list word :=
  [ 0xd76aa478; 0xe8c7b756; 0x242070db; 0xc1bdceee;
    0xf57c0faf; 0x4787c62a; 0xa8304613; 0xfd469501;
    0x698098d8; 0x8b44f7af; 0xffff5bb1; 0x895cd7be;
    0x6b901122; 0xfd987193; 0xa679438e; 0x49b40821;
    0xf61e2562; 0xc040b340; 0x265e5a51; 0xe9b6c7aa;
    0xd62f105d; 0x02441453; 0xd8a1e681; 0xe7d3fbc8;
    0x21e1cde6; 0xc33707d6; 0xf4d50d87; 0x455a14ed;
    0xa9e3e905; 0xfcefa3f8; 0x676f02d9; 0x8d2a4c8a;
    0xfffa3942; 0x8771f681; 0x6d9d6122; 0xfde5380c;
    0xa4beea44; 0x4bdecfa9; 0xf6bb4b60; 0xbebfbc70;
    0x289b7ec6; 0xeaa127fa; 0xd4ef3085; 0x04881d05;
    0xd9d4d039; 0xe6db99e5; 0x1fa27cf8; 0xc4ac5665;
    0xf4292244; 0x432aff97; 0xab9423a7; 0xfc93a039;
    0x655b59c3; 0x8f0ccc92; 0xffeff47d; 0x85845dd1;
    0x6fa87e4f; 0xfe2ce6e0; 0xa3014314; 0x4e0811a1;
    0xf7537e82; 0xbd3af235; 0x2ad7d2bb; 0xeb86d391 ].

Definition shifts : list word :=
  [ 7; 12; 17; 22; 7; 12; 17; 22; 7; 12; 17; 22; 7; 12; 17; 22;
    5;  9; 14; 20; 5;  9; 14; 20; 5;  9; 14; 20; 5;  9; 14; 20;
    4; 11; 16; 23; 4; 11; 16; 23; 4; 11; 16; 23; 4; 11; 16; 23;
    6; 10; 15; 21; 6; 10; 15; 21; 6; 10; 15; 21; 6; 10; 15; 21 ].

Record state := { sa : word; sb : word; sc : word; sd : word }.

Definition init : state :=
  {| sa := 0x67452301; sb := 0xefcdab89; sc := 0x98badcfe; sd := 0x10325476 |}.

(** The 64 operations: round, index of the message word, constant and
    rotation amount. *)
Definition operations : list (nat * nat * word * word) :=
  Eval vm_compute in
    map (fun i =>
           (Nat.div i 16,
            match Nat.div i 16 with
            | 0%nat => i
            | 1%nat => Nat.modulo (5 * i + 1) 16
            | 2%nat => Nat.modulo (3 * i + 5) 16
            | _ => Nat.modulo (7 * i) 16
            end,
            nth i K 0, nth i shifts 0))
        (seq 0 64).

(** One operation on the block [m] (sixteen 32-bit words). *)
Definition op (m : list word) (s : state) (o : nat * nat * word * word)
  : state :=
  let '(round, g, k, r) := o in
  let a := sa s in let b := sb s in let c := sc s in let d := sd s in
  let f :=
    match round with
    | 0%nat => (b land c) lor (not32 b land d)
    | 1%nat => (d land b) lor (not32 d land c)
    | 2%nat => (b lxor c) lxor d
    | _ => c lxor (b lor not32 d)
    end in
  let t := add32 (add32 (add32 f a) k) (nth g m 0) in
  {| sa := d; sb := add32 b (rotl32 t r); sc := b; sd := c |}.

Definition block (s : state) (m : list word) : state :=
  let s' := fold_left (op m) operations s in
  {| sa := add32 (sa s) (sa s'); sb := add32 (sb s) (sb s');
     sc := add32 (sc s) (sc s'); sd := add32 (sd s) (sd s') |}.

(** Little-endian words of a byte sequence whose length is a multiple of 4. *)
Fixpoint words (bs : list word) : list word :=
  match bs with
  | b0 :: b1 :: b2 :: b3 :: rest =>
      (b0 + (b1 << 8) + (b2 << 16) + (b3 << 24)) :: words rest
  | _ => []
  end.

Fixpoint le_bytes (k : nat) (n : word) : list word :=
  match k with
  | O => []
  | S k' => (n land 0xFF) :: le_bytes k' (n >> 8)
  end.

(** The message, a one bit, zeros up to 56 modulo 64, and the length in
    bits on 64 bits (the top bit of the length is left out: a message is
    shorter than 2^60 bytes). *)
Definition pad (msg : list word) : list word :=
  let len := length msg in
  let zeros := Nat.modulo (119 - Nat.modulo len 64) 64 in
  msg ++ [0x80] ++ repeat 0 zeros ++ le_bytes 8 (8 * Uint63.of_Z (Z.of_nat len)).

Fixpoint blocks (fuel : nat) (ws : list word) (s : state) : state :=
  match fuel with
  | O => s
  | S fuel' =>
      match ws with
      | [] => s
      | _ => blocks fuel' (skipn 16 ws) (block s (firstn 16 ws))
      end
  end.

Definition word_of_byte (b : byte) : word := Uint63.of_Z (Z.of_N (Byte.to_N b)).

Definition digest (msg : Py.bytes) : list word :=
  let ws := words (pad (map word_of_byte msg)) in
  let s := blocks (length ws) ws init in
  le_bytes 4 (sa s) ++ le_bytes 4 (sb s) ++ le_bytes 4 (sc s)
    ++ le_bytes 4 (sd s).

Definition bit (x k : word) : N := if (x >> k) land 1 =? 1 then 1%N else 0%N.

(** A word below 256 as a number. *)
Definition small (x : word) : N :=
  fold_right (fun k n => (bit x k + 2 * n)%N) 0%N [0; 1; 2; 3; 4; 5; 6; 7].

Definition hexdigit (n : word) : N :=
  small (if n <? 10 then 48 + n else 87 + n).

(** [hashlib.md5(msg).hexdigest()] *)
Definition hexdigest (msg : Py.bytes) : Py.str :=
  flat_map (fun b => [hexdigit (b >> 4); hexdigit (b land 0xF)]) (digest msg).

End MD5.

(** ** Text codecs and the text layer of [open]

    A model of what [open(path, 'r', encoding=e)] yields when iterated:
    the file is read in chunks of 8192 bytes, each chunk goes through the
    incremental decoder of the codec and through universal-newline
    translation, and a line is handed out as soon as its end was decoded.
    A decoding error therefore surfaces after the lines of the earlier
    chunks. *)

Module Codec.

Import Py.
Local Open Scope N_scope.

Inductive Encoding := utf_8 | latin_1 | cp1252 | utf_16.

Inductive Order := Unknown | LittleEndian | BigEndian.

(** One call of an incremental decoder: the text decoded, the bytes kept
    for the next call and the byte order (UTF-16 only), or an exception. *)
Inductive Decoded :=
| Text (t : str) (pending : list N) (o : Order)
| Bad (e : Exn).

Definition in_range (lo hi b : N) : bool := (lo <=? b) && (b <=? hi).
Definition is_cont (b : N) : bool := in_range 0x80 0xBF b.
Definition low6 (b : N) : N := N.land b 0x3F.

Inductive Step :=
| Got (cp : N) (rest : list N)
| Short
| Invalid.

(** The well-formed UTF-8 byte sequences (Unicode, table 3-7). *)
Definition utf8_step (b0 : N) (r : list N) : Step :=
  if b0 <? 0x80 then Got b0 r
  else if in_range 0xC2 0xDF b0 then
    match r with
    | [] => Short
    | b1 :: r1 =>
        if is_cont b1 then Got (N.shiftl (N.land b0 0x1F) 6 + low6 b1) r1
        else Invalid
    end
  else if in_range 0xE0 0xEF b0 then
    let lo := if b0 =? 0xE0 then 0xA0 else 0x80 in
    let hi := if b0 =? 0xED then 0x9F else 0xBF in
    match r with
    | [] => Short
    | b1 :: r1 =>
        if in_range lo hi b1 then
          match r1 with
          | [] => Short
          | b2 :: r2 =>
              if is_cont b2
              then Got (N.shiftl (N.land b0 0x0F) 12
                        + N.shiftl (low6 b1) 6 + low6 b2) r2
              else Invalid
          end
        else Invalid
    end
  else if in_range 0xF0 0xF4 b0 then
    let lo := if b0 =? 0xF0 then 0x90 else 0x80 in
    let hi := if b0 =? 0xF4 then 0x8F else 0xBF in
    match r with
    | [] => Short
    | b1 :: r1 =>
        if in_range lo hi b1 then
          match r1 with
          | [] => Short
          | b2 :: r2 =>
              if is_cont b2 then
                match r2 with
                | [] => Short
                | b3 :: r3 =>
                    if is_cont b3
                    then Got (N.shiftl (N.land b0 0x07) 18
                              + N.shiftl (low6 b1) 12
                              + N.shiftl (low6 b2) 6 + low6 b3) r3
                    else Invalid
                end
              else Invalid
          end
        else Invalid
    end
  else Invalid.

Fixpoint utf8_run (fuel : nat) (bs : list N) (acc : str) (final : bool)
  : Decoded :=
  match fuel, bs with
  | _, [] => Text (reverse acc) [] Unknown
  | O, _ => Text (reverse acc) bs Unknown
  | S fuel', b0 :: r =>
      match utf8_step b0 r with
      | Got cp rest => utf8_run fuel' rest (cp :: acc) final
      | Short => if final then Bad UnicodeDecodeError
                 else Text (reverse acc) bs Unknown
      | Invalid => Bad UnicodeDecodeError
      end
  end.

(** Windows-1252: five bytes have no character. *)
Definition cp1252_high : list (option N) :=
  [ Some 0x20AC; None;        Some 0x201A; Some 0x0192;
    Some 0x201E; Some 0x2026; Some 0x2020; Some 0x2021;
    Some 0x02C6; Some 0x2030; Some 0x0160; Some 0x2039;
    Some 0x0152; None;        Some 0x017D; None;
    None;        Some 0x2018; Some 0x2019; Some 0x201C;
    Some 0x201D; Some 0x2022; Some 0x2013; Some 0x2014;
    Some 0x02DC; Some 0x2122; Some 0x0161; Some 0x203A;
    Some 0x0153; None;        Some 0x017E; Some 0x0178 ].

Definition cp1252_char (b : N) : option N :=
  if in_range 0x80 0x9F b then nth (N.to_nat (b - 0x80)) cp1252_high None
  else Some b.

Fixpoint cp1252_run (bs : list N) (acc : str) : Decoded :=
  match bs with
  | [] => Text (reverse acc) [] Unknown
  | b :: r =>
      match cp1252_char b with
      | Some c => cp1252_run r (c :: acc)
      | None => Bad UnicodeDecodeError
      end
  end.

(** UTF-16 code units in the given byte order. *)
Definition unit16 (o : Order) (b0 b1 : N) : N :=
  match o with
  | BigEndian => N.shiftl b0 8 + b1
  | _ => N.shiftl b1 8 + b0
  end.

Fixpoint utf16_run (fuel : nat) (o : Order) (bs : list N) (acc : str)
  (final : bool) : Decoded :=
  let stop :=
    if final then Bad UnicodeDecodeError else Text (reverse acc) bs o in
  match fuel, bs with
  | _, [] => Text (reverse acc) [] o
  | O, _ => Text (reverse acc) bs o
  | _, [_] => stop
  | S fuel', b0 :: b1 :: r =>
      let u := unit16 o b0 b1 in
      if in_range 0xD800 0xDBFF u then
        match r with
        | b2 :: b3 :: r' =>
            let v := unit16 o b2 b3 in
            if in_range 0xDC00 0xDFFF v
            then utf16_run fuel' o r'
                   (0x10000 + N.shiftl (u - 0xD800) 10 + (v - 0xDC00) :: acc)
                   final
            else Bad UnicodeDecodeError
        | _ => stop
        end
      else if in_range 0xDC00 0xDFFF u then Bad UnicodeDecodeError
      else utf16_run fuel' o r (u :: acc) final
  end.

(** The first call looks for the byte-order mark; the incremental decoder
    of [utf-16] refuses a stream without one with a plain [UnicodeError]. *)
Definition utf16_decode (o : Order) (bs : list N) (final : bool) : Decoded :=
  match o with
  | Unknown =>
      match bs with
      | 0xFF :: 0xFE :: r => utf16_run (length r) LittleEndian r [] final
      | 0xFE :: 0xFF :: r => utf16_run (length r) BigEndian r [] final
      | _ :: _ :: _ =>
          match utf16_run (length bs) LittleEndian bs [] final with
          | Bad e => Bad e
          | Text _ _ _ => Bad UnicodeError
          end
      | [_] => if final then Bad UnicodeDecodeError else Text [] bs Unknown
      | [] => Text [] [] Unknown
      end
  | _ => utf16_run (length bs) o bs [] final
  end.

Definition decode (enc : Encoding) (o : Order) (bs : list N) (final : bool)
  : Decoded :=
  match enc with
  | utf_8 => utf8_run (length bs) bs [] final
  | latin_1 => Text bs [] Unknown
  | cp1252 => cp1252_run bs []
  | utf_16 => utf16_decode o bs final
  end.

(** [bytes.decode('utf-8')] of a literal of this file. *)
Definition u8 (s : string) : str :=
  match decode utf_8 Unknown (map Byte.to_N (list_byte_of_string s)) true with
  | Text t _ _ => t
  | Bad _ => []
  end.

(** Universal newlines: [\r\n] and [\r] become [\n]. *)
Fixpoint translate (t : str) : str :=
  match t with
  | 13 :: ((10 :: r) as t') => translate t'
  | 13 :: r => 10 :: translate r
  | c :: r => c :: translate r
  | [] => []
  end.

(** The complete lines of a text and what follows the last line end. *)
Fixpoint split_lines (t : str) (cur : str) : list str * str :=
  match t with
  | [] => ([], reverse cur)
  | c :: r =>
      if c =? 10 then
        let '(ls, rest) := split_lines r [] in (reverse (c :: cur) :: ls, rest)
      else split_lines r (c :: cur)
  end.

Record Reader := {
  pending : list N;   (* bytes the decoder could not finish *)
  order : Order;
  pendingcr : bool;   (* a carriage return held back at the end of a chunk *)
  partial : str       (* decoded text after the last complete line *)
}.

Definition fresh : Reader :=
  {| pending := []; order := Unknown; pendingcr := false; partial := [] |}.

(** [IncrementalNewlineDecoder.decode]: a trailing carriage return waits
    for the next chunk. *)
Definition newlines (cr : bool) (t : str) (final : bool) : str * bool :=
  let t1 := if cr && (negb (match t with [] => true | _ => false end) || final)
            then 13 :: t else t in
  let cr1 := cr && negb (negb (match t with [] => true | _ => false end)
                         || final) in
  match reverse t1 with
  | 13 :: r => if final then (translate t1, false)
               else (translate (reverse r), true)
  | _ => (translate t1, cr1)
  end.

Fixpoint read_chunks (enc : Encoding) (chunks : list (list N)) (rd : Reader)
  : LineStream :=
  match chunks with
  | [] =>
      match decode enc (order rd) (pending rd) true with
      | Bad e => Fail e
      | Text t _ _ =>
          let '(t', _) := newlines (pendingcr rd) t true in
          let '(ls, rest) := split_lines (partial rd ++ t') [] in
          emit ls (match rest with [] => EndOfFile | _ => Line rest EndOfFile end)
      end
  | c :: cs =>
      match decode enc (order rd) (pending rd ++ c) false with
      | Bad e => Fail e
      | Text t p o =>
          let '(t', cr) := newlines (pendingcr rd) t false in
          let '(ls, rest) := split_lines (partial rd ++ t') [] in
          emit ls (read_chunks enc cs
                     {| pending := p; order := o; pendingcr := cr;
                        partial := rest |})
      end
  end.

Fixpoint chunked (fuel : nat) (size : nat) (bs : list N) : list (list N) :=
  match fuel, bs with
  | _, [] => []
  | O, _ => [bs]
  | S fuel', _ => firstn size bs :: chunked fuel' size (skipn size bs)
  end.

Definition chunk_size : nat := 64 * 128.

(** Iterating over [open(path, 'r', encoding=enc)] for a file holding
    [data]. *)
Definition text_lines (enc : Encoding) (data : bytes) : LineStream :=
  let bs := map Byte.to_N data in
  read_chunks enc (chunked (length bs) chunk_size bs) fresh.

(** [str.encode('utf-8')]: surrogates cannot be encoded. *)
Definition utf8_bytes (c : N) : option (list N) :=
  if c <? 0x80 then Some [c]
  else if c <? 0x800 then Some [0xC0 + N.shiftr c 6; 0x80 + low6 c]
  else if in_range 0xD800 0xDFFF c then None
  else if c <? 0x10000 then
    Some [0xE0 + N.shiftr c 12; 0x80 + low6 (N.shiftr c 6); 0x80 + low6 c]
  else if c <? 0x110000 then
    Some [0xF0 + N.shiftr c 18; 0x80 + low6 (N.shiftr c 12);
          0x80 + low6 (N.shiftr c 6); 0x80 + low6 c]
  else None.

Definition byte_of_N (n : N) : byte :=
  match Byte.of_N n with Some b => b | None => x00 end.

Fixpoint utf8_encode (t : str) : Result bytes :=
  match t with
  | [] => Ok []
  | c :: r =>
      match utf8_bytes c with
      | None => Raise UnicodeEncodeError
      | Some bs => bind (utf8_encode r) (fun tl => Ok (map byte_of_N bs ++ tl))
      end
  end.

(** [str.lower] on the code points below 256 (ASCII and Latin-1 capitals);
    other code points are left as they are. *)
Definition lower_char (c : N) : N :=
  if in_range 0x41 0x5A c then c + 32
  else if in_range 0xC0 0xDE c && negb (c =? 0xD7) then c + 32
  else c.

Definition lower (t : str) : str := map lower_char t.

End Codec.

(** ** The interpreter services the program calls *)

Import Py.
Export Codec(Encoding, utf_8, latin_1, cp1252, utf_16).

Class Runtime := {
  (** [s.lower()] *)
  str_lower : str -> str;
  (** the lines yielded by [for line in open(path, 'r', encoding=enc)] for
      a file with the given content *)
  open_text : Encoding -> bytes -> LineStream;
  (** the bytes stored by writing a text to
      [open(path, 'w', encoding='utf-8')] *)
  encode_utf8 : str -> Result bytes;
  (** [time.strftime('%Y-%m-%d %H:%M:%S')] *)
  strftime : str
}.

(** The reference runtime: CPython on a POSIX system (line ends are written
    as they are), with the clock stopped. *)
#[export] Instance cpython : Runtime := {
  str_lower := Codec.lower;
  open_text := Codec.text_lines;
  encode_utf8 := Codec.utf8_encode;
  strftime := a2s "2024-01-01 00:00:00"
}.

(** ** Paths and the file system *)

Module Fs.

(** [Path(folder) / name] *)
Record Path := { folder : str; name : str }.

Definition path_eqb (p q : Path) : bool :=
  str_eqb (folder p) (folder q) && str_eqb (name p) (name q).

(** [Path('')] is the current folder.  Otherwise a folder is named by the
    string itself: this is [Path] on plain paths (names separated by
    single [/]). *)
Definition norm (d : str) : str :=
  match d with
  | [] => a2s "."
  | _ => d
  end.

(** [Path(d) / n] *)
Definition join (d n : str) : Path := {| folder := norm d; name := n |}.

(** [Path(s)] seen as an entry of its parent folder. *)
Definition path_of (s : str) : Path :=
  match rfind 47 s with
  | Some i => {| folder := take i s; name := drop (S i) s |}
  | None => {| folder := a2s "."; name := s |}
  end.

(** [path.suffix]: the last dot of the name and what follows, when the dot
    is neither the first nor the last character. *)
Definition suffix (p : Path) : str :=
  match rfind 46 (name p) with
  | Some i =>
      if (0 <? i)%nat && (i <? length (name p) - 1)%nat
      then drop i (name p) else []
  | None => []
  end.

Inductive Entry :=
| Regular (readable writable : bool) (data : bytes)
| Subfolder.

Definition Listing := list (str * Entry).

(** Folders with their listings; the order of a listing is the order in
    which [iterdir] yields it. *)
Definition FS := list (str * Listing).

Section Assoc.

Variable A : Type.

Fixpoint lookup (k : str) (l : list (str * A)) : option A :=
  match l with
  | [] => None
  | (k', v) :: l' => if str_eqb k k' then Some v else lookup k l'
  end.

(** Replace the value of [k], or add [k] at the end. *)
Fixpoint update (k : str) (v : A) (l : list (str * A)) : list (str * A) :=
  match l with
  | [] => [(k, v)]
  | (k', v') :: l' =>
      if str_eqb k k' then (k, v) :: l' else (k', v') :: update k v l'
  end.

End Assoc.

Definition entry (fs : FS) (p : Path) : option Entry :=
  match lookup (folder p) fs with
  | Some l => lookup (name p) l
  | None => None
  end.

Definition is_dir (fs : FS) (d : str) : bool :=
  match lookup d fs with Some _ => true | None => false end.

(** [Path(d).exists()] *)
Definition path_exists (fs : FS) (d : str) : bool :=
  is_dir fs (norm d)
  || match entry fs (path_of (norm d)) with Some _ => true | None => false end.

(** [p.is_file()] *)
Definition is_file (fs : FS) (p : Path) : bool :=
  match entry fs p with
  | Some (Regular _ _ _) => true
  | _ => false
  end.

(** [list(Path(d).iterdir())] *)
Definition iterdir (fs : FS) (d : str) : Result (list Path) :=
  match lookup (norm d) fs with
  | Some l => Ok (map (fun e => join d (fst e)) l)
  | None =>
      match entry fs (path_of (norm d)) with
      | Some _ => Raise NotADirectoryError
      | None => Raise FileNotFoundError
      end
  end.

(** [Path(d).mkdir(parents=True, exist_ok=True)]: the folder is there
    afterwards.  The entries that the new folder and its parents get in
    the folders above them are not recorded, and folders have no
    permissions of their own. *)
Definition mkdir (fs : FS) (d : str) : Result FS :=
  if is_dir fs (norm d) then Ok fs
  else match entry fs (path_of (norm d)) with
       | Some _ => Raise FileExistsError
       | None => Ok (fs ++ [(norm d, [])])
       end.

(** [open(p, 'rb')] (and the opening part of [open(p, 'r')]): the bytes
    that reading will deliver. *)
Definition open_read (fs : FS) (p : Path) : Result bytes :=
  match entry fs p with
  | None => Raise FileNotFoundError
  | Some Subfolder => Raise IsADirectoryError
  | Some (Regular r _ data) => if r then Ok data else Raise PermissionError
  end.

Definition store (fs : FS) (p : Path) (e : Entry) : FS :=
  match lookup (folder p) fs with
  | Some l => update (folder p) (update (name p) e l) fs
  | None => fs
  end.

(** [open(p, 'w')]: the file is created, or emptied when it exists. *)
Definition open_write (fs : FS) (p : Path) : Result FS :=
  match lookup (folder p) fs with
  | None => Raise FileNotFoundError
  | Some l =>
      match lookup (name p) l with
      | Some Subfolder => Raise IsADirectoryError
      | Some (Regular r w _) =>
          if w then Ok (store fs p (Regular r w [])) else Raise PermissionError
      | None => Ok (store fs p (Regular true true []))
      end
  end.

(** The content of an open file is replaced when it is closed. *)
Definition set_data (fs : FS) (p : Path) (data : bytes) : FS :=
  match entry fs p with
  | Some (Regular r w _) => store fs p (Regular r w data)
  | _ => fs
  end.

End Fs.
Export Fs.

(** ** The extractor *)

Local Open Scope Z_scope.

(** [self.session_stats] (and its alias [self.stats]); the key
    ['start_time'], a clock reading, is left out. *)
Record Stats := {
  total_files : Z;
  processed : Z;
  skipped : Z;
  errors : Z;
  total_lines : Z;
  filtered_lines : Z;
  duplicates_found : Z;
  archives_processed : Z
}.

(** The dictionary built by [__init__]. *)
Definition init_stats : Stats :=
  {| total_files := 0; processed := 0; skipped := 0; errors := 0;
     total_lines := 0; filtered_lines := 0; duplicates_found := 0;
     archives_processed := 0 |}.

(** The attributes set by [get_user_input]. *)
Record Config := {
  input_folder : str;
  output_folder : str;
  lines_to_extract : Z;
  watermark : bool;
  filter_terms : list str;
  threads : Z;
  file_types : list str;
  check_duplicates : bool
}.

(** What a job can see and change: the counters and the file system. *)
Record World := { stats : Stats; fs : FS }.

Definition with_stats (f : Stats -> Stats) (w : World) : World :=
  {| stats := f (stats w); fs := fs w |}.

Definition with_fs (fs' : FS) (w : World) : World :=
  {| stats := stats w; fs := fs' |}.

(** [with self.lock: self.stats['skipped'] += 1] *)
Definition count_skipped (s : Stats) : Stats :=
  {| total_files := total_files s; processed := processed s;
     skipped := skipped s + 1; errors := errors s;
     total_lines := total_lines s; filtered_lines := filtered_lines s;
     duplicates_found := duplicates_found s;
     archives_processed := archives_processed s |}.

(** [self.stats['duplicates_found'] += 1; self.stats['skipped'] += 1] *)
Definition count_duplicate (s : Stats) : Stats :=
  {| total_files := total_files s; processed := processed s;
     skipped := skipped s + 1; errors := errors s;
     total_lines := total_lines s; filtered_lines := filtered_lines s;
     duplicates_found := duplicates_found s + 1;
     archives_processed := archives_processed s |}.

(** [self.stats['errors'] += 1] *)
Definition count_error (s : Stats) : Stats :=
  {| total_files := total_files s; processed := processed s;
     skipped := skipped s; errors := errors s + 1;
     total_lines := total_lines s; filtered_lines := filtered_lines s;
     duplicates_found := duplicates_found s;
     archives_processed := archives_processed s |}.

(** [processed += 1; total_lines += lines_written; filtered_lines += filtered] *)
Definition count_processed (lines_written filtered : Z) (s : Stats) : Stats :=
  {| total_files := total_files s; processed := processed s + 1;
     skipped := skipped s; errors := errors s;
     total_lines := total_lines s + lines_written;
     filtered_lines := filtered_lines s + filtered;
     duplicates_found := duplicates_found s;
     archives_processed := archives_processed s |}.

(** [self.stats['total_files'] = n] *)
Definition set_total_files (n : Z) (s : Stats) : Stats :=
  {| total_files := n; processed := processed s;
     skipped := skipped s; errors := errors s;
     total_lines := total_lines s; filtered_lines := filtered_lines s;
     duplicates_found := duplicates_found s;
     archives_processed := archives_processed s |}.

(** *** [calculate_hash] *)

(** [for chunk in iter(lambda: f.read(4096), b""): hash_md5.update(chunk)]:
    [f] is what is left to read, [h] what the hash object was fed so far. *)
Fixpoint feed_chunks (size fuel : nat) (f : bytes) (h : bytes) : bytes :=
  match fuel with
  | O => h
  | S fuel' =>
      match firstn size f with
      | [] => h
      | chunk => feed_chunks size fuel' (skipn size f) (h ++ chunk)
      end
  end.

Definition calculate_hash (fs : FS) (filepath : Path) : Result str :=
  bind (open_read fs filepath) (fun f =>
  Ok (MD5.hexdigest (feed_chunks 4096 (S (length f)) f []))).

Section Extractor.

Context {rt : Runtime}.
Variable cfg : Config.

(** *** [is_duplicate] *)

(** The body of the loop over the output folder: a file that cannot be
    hashed is passed over ([except: continue]). *)
Definition same_content (fs : FS) (filepath : Path) (file_hash : str)
  (existing_file : Path) : bool :=
  is_file fs existing_file && negb (path_eqb existing_file filepath) &&
  match calculate_hash fs existing_file with
  | Ok existing_hash => str_eqb existing_hash file_hash
  | Raise _ => false
  end.

Definition is_duplicate (fs : FS) (filepath : Path) (file_hash : str)
  : Result bool :=
  if negb (path_exists fs (output_folder cfg)) then Ok false
  else bind (iterdir fs (output_folder cfg)) (fun listing =>
       Ok (existsb (same_content fs filepath file_hash) listing)).

(** *** The job of [process_file] *)

(** [input_path.suffix.lower() in [ext.lower() for ext in self.file_types]] *)
Definition has_file_type (p : Path) : bool :=
  existsb (str_eqb (str_lower (suffix p))) (map str_lower (file_types cfg)).

(** [self.filter_terms and any(term.lower() in line.lower() for term in
    self.filter_terms)] *)
Definition is_filtered (line : str) : bool :=
  match filter_terms cfg with
  | [] => false
  | terms => existsb (fun term => contains (str_lower term) (str_lower line)) terms
  end.

(** The local variables [content], [lines_written] and [filtered]. *)
Record Acc := { content : list str; lines_written : Z; filtered : Z }.

Definition no_lines : Acc := {| content := []; lines_written := 0; filtered := 0 |}.

(** [for line in f: ...]: the loop over the lines of one opened file.  It
    ends at the end of the file, at [break], or with the exception that
    reading raised. *)
Fixpoint read_lines (f : LineStream) (a : Acc) : Acc * option Exn :=
  match f with
  | EndOfFile => (a, None)
  | Fail e => (a, Some e)
  | Line line rest =>
      if lines_written a >=? lines_to_extract cfg then (a, None)
      else if is_filtered line then
        read_lines rest {| content := content a;
                           lines_written := lines_written a;
                           filtered := filtered a + 1 |}
      else
        read_lines rest {| content := content a ++ [line];
                           lines_written := lines_written a + 1;
                           filtered := filtered a |}
  end.

Definition encodings : list Encoding := [utf_8; latin_1; cp1252; utf_16].

(** [for encoding in [...]: try: ... break; except UnicodeDecodeError:
    continue].  The local variables are those of the enclosing job: an
    attempt goes on from what the attempts before it left. *)
Fixpoint try_encodings (fs : FS) (input_path : Path) (encs : list Encoding)
  (a : Acc) : Result Acc :=
  match encs with
  | [] => Ok a
  | encoding :: rest =>
      bind (open_read fs input_path) (fun data =>
      match read_lines (open_text encoding data) a with
      | (a', None) => Ok a'
      | (a', Some e) =>
          if is_UnicodeDecodeError e
          then try_encodings fs input_path rest a'
          else Raise e
      end)
  end.

Definition watermark_block (input_path : Path) (a : Acc) (file_hash : str)
  : str :=
  Codec.u8 "

╔══════════════════════════╗
" ++ Codec.u8 "║ 🏷️ SOURCE: " ++ name input_path ++ a2s "
" ++ Codec.u8 "║ 🕒 " ++ strftime ++ a2s "
" ++ Codec.u8 "║ 📝 LINES: " ++ str_of_int (lines_written a) ++ a2s "
" ++ Codec.u8 "║ 🔒 HASH: " ++ take 8 file_hash ++ a2s "...
" ++ Codec.u8 "╚══════════════════════════╝
".

(** [with open(output_path, 'w', encoding='utf-8') as f:
    f.writelines(content)] *)
Definition write_lines (fs : FS) (output_path : Path) (lines : list str)
  : FS * Result unit :=
  match open_write fs output_path with
  | Raise e => (fs, Raise e)
  | Ok fs1 =>
      match encode_utf8 (concat lines) with
      | Raise e => (fs1, Raise e)
      | Ok data => (set_data fs1 output_path data, Ok tt)
      end
  end.

(** [Path(self.output_folder) / f"extracted_{input_path.name}"] *)
Definition output_path_of (input_path : Path) : Path :=
  join (output_folder cfg) (a2s "extracted_" ++ name input_path).

(** The steps of the [try] block.  Each one either hands over to the next
    step or ends the iteration, with a counter updated. *)
Inductive Next (A : Type) :=
| Go (a : A)                 (* on to the next statement *)
| Continue (w : World)       (* [continue], or the end of the block *)
| Caught (w : World).        (* an exception reached [except Exception] *)
Arguments Go {A} a.
Arguments Continue {A} w.
Arguments Caught {A} w.

(** [if input_path.suffix.lower() not in [...]: skipped += 1; continue] *)
Definition check_type (w : World) (input_path : Path) : Next unit :=
  if negb (has_file_type input_path)
  then Continue (with_stats count_skipped w)
  else Go tt.

(** [file_hash = self.calculate_hash(input_path)] *)
Definition hash_step (w : World) (input_path : Path) : Next str :=
  match calculate_hash (fs w) input_path with
  | Raise _ => Caught w
  | Ok file_hash => Go file_hash
  end.

(** [if self.check_duplicates and self.is_duplicate(input_path, file_hash):
    duplicates_found += 1; skipped += 1; continue] *)
Definition duplicate_step (w : World) (input_path : Path) (file_hash : str)
  : Next unit :=
  match (if check_duplicates cfg
         then is_duplicate (fs w) input_path file_hash
         else Ok false) with
  | Raise _ => Caught w
  | Ok true => Continue (with_stats count_duplicate w)
  | Ok false => Go tt
  end.

(** The loop over the encodings, from empty local variables. *)
Definition read_step (w : World) (input_path : Path) : Next Acc :=
  match try_encodings (fs w) input_path encodings no_lines with
  | Raise _ => Caught w
  | Ok a => Go a
  end.

(** The watermark, the output file and the counters of a processed file. *)
Definition write_step (w : World) (input_path : Path) (file_hash : str)
  (a : Acc) : Next unit :=
  let lines :=
    if watermark cfg
    then content a ++ [watermark_block input_path a file_hash]
    else content a in
  match write_lines (fs w) (output_path_of input_path) lines with
  | (fs', Raise _) => Caught (with_fs fs' w)
  | (fs', Ok _) =>
      Continue (with_stats (count_processed (lines_written a) (filtered a))
                           (with_fs fs' w))
  end.

(** [except Exception: self.stats['errors'] += 1; continue] *)
Definition caught (w : World) : World := with_stats count_error w.

(** One iteration of the worker loop on the job [input_path]. *)
Definition process_one (w : World) (input_path : Path) : World :=
  match check_type w input_path with
  | Continue w' => w'
  | Caught w' => caught w'
  | Go _ =>
  match hash_step w input_path with
  | Continue w' => w'
  | Caught w' => caught w'
  | Go file_hash =>
  match duplicate_step w input_path file_hash with
  | Continue w' => w'
  | Caught w' => caught w'
  | Go _ =>
  match read_step w input_path with
  | Continue w' => w'
  | Caught w' => caught w'
  | Go a =>
  match write_step w input_path file_hash a with
  | Continue w' => w'
  | Caught w' => caught w'
  | Go _ => w
  end end end end end.

(** [process_file(file_queue)] run by a single worker: the queue is
    drained in order. *)
Definition process_file (file_queue : list Path) (w : World) : World :=
  fold_left process_one file_queue w.

(** *** The worker pool of [run]

    Every thread runs [process_file] on the shared queue.  A thread is at
    one of the statements below; a step of the pool lets one thread
    execute the statement it is at.  The counters are updated under
    [self.lock], so an update is one step. *)
Inductive Pc :=
| AtLoop                                            (* [while not file_queue.empty()] *)
| AtHash (input_path : Path)
| AtDuplicate (input_path : Path) (file_hash : str)
| AtRead (input_path : Path) (file_hash : str)
| AtWrite (input_path : Path) (file_hash : str) (a : Acc)
| Exited.

Definition after {A} (n : Next A) (k : A -> Pc) (w : World) : World * Pc :=
  match n with
  | Go a => (w, k a)
  | Continue w' => (w', AtLoop)
  | Caught w' => (caught w', AtLoop)
  end.

Definition step_worker (w : World) (q : list Path) (pc : Pc)
  : World * Pc * list Path :=
  match pc with
  | AtLoop =>
      match q with
      | [] => (w, Exited, [])
      | input_path :: q' =>
          (after (check_type w input_path) (fun _ => AtHash input_path) w, q')
      end
  | AtHash p =>
      (after (hash_step w p) (fun h => AtDuplicate p h) w, q)
  | AtDuplicate p h =>
      (after (duplicate_step w p h) (fun _ => AtRead p h) w, q)
  | AtRead p h =>
      (after (read_step w p) (fun a => AtWrite p h a) w, q)
  | AtWrite p h a =>
      (after (write_step w p h a) (fun _ => AtLoop) w, q)
  | Exited => (w, Exited, q)
  end.

Record Pool := { world : World; file_queue : list Path; workers : list Pc }.

Fixpoint replace (i : nat) (pc : Pc) (ws : list Pc) : list Pc :=
  match ws, i with
  | [], _ => []
  | _ :: ws', O => pc :: ws'
  | x :: ws', S i' => x :: replace i' pc ws'
  end.

(** Thread [i] executes one statement. *)
Definition step (pool : Pool) (i : nat) : Pool :=
  match nth_error (workers pool) i with
  | None => pool
  | Some pc =>
      let '(w, pc', q) := step_worker (world pool) (file_queue pool) pc in
      {| world := w; file_queue := q; workers := replace i pc' (workers pool) |}
  end.

(** A schedule names the thread that runs next. *)
Definition exec (sched : list nat) (pool : Pool) : Pool :=
  fold_left step sched pool.

(** Every thread in turn. *)
Definition round (pool : Pool) : Pool :=
  exec (seq 0 (length (workers pool))) pool.

Fixpoint rounds (n : nat) (pool : Pool) : Pool :=
  match n with
  | O => pool
  | S n' => rounds n' (round pool)
  end.

(** The statements a thread at [pc] still executes before it is back at
    the head of its loop, plus one. *)
Definition rest_of (pc : Pc) : Z :=
  match pc with
  | Exited => 0
  | AtLoop => 1
  | AtWrite _ _ _ => 2
  | AtRead _ _ => 3
  | AtDuplicate _ _ => 4
  | AtHash _ => 5
  end.

Definition total (f : Pc -> Z) (ws : list Pc) : Z :=
  fold_right (fun pc acc => f pc + acc) 0 ws.

Definition todo (pool : Pool) : Z :=
  5 * Z.of_nat (length (file_queue pool)) + total rest_of (workers pool).

(** [while any(t.is_alive() for t in threads)]: the main thread waits
    until every worker has left its loop. *)
Definition join_all (pool : Pool) : Pool :=
  rounds (Z.to_nat (todo pool)) pool.

(** [progress.n], as the main thread computes it while it waits. *)
Definition progress_n (s : Stats) : Z := processed s + errors s + skipped s.

(** The regular files of the accepted types:
    [[f for f in listing if f.is_file() and f.suffix.lower() in [...]]] *)
Definition matching (fs1 : FS) (listing : list Path) : list Path :=
  filter (fun f => is_file fs1 f && has_file_type f) listing.

(** The pool [run] starts: the files found, and [self.threads] threads at
    the head of their loop. *)
Definition start_pool (w : World) (files : list Path) : Pool :=
  {| world := w; file_queue := files;
     workers := repeat AtLoop (Z.to_nat (threads cfg)) |}.

(** [run()].  The threads interleave as [sched] says; when the schedule is
    used up, the threads that are still alive run in turn until they
    exit. *)
Definition run (sched : list nat) (w : World) : World * Result unit :=
  match mkdir (fs w) (output_folder cfg) with
  | Raise e => (w, Raise e)
  | Ok fs1 =>
      let w1 := with_fs fs1 w in
      match iterdir fs1 (input_folder cfg) with
      | Raise e => (w1, Raise e)
      | Ok listing =>
          let files := matching fs1 listing in
          let w2 :=
            with_stats (set_total_files (Z.of_nat (length files))) w1 in
          match files with
          | [] => (w2, Ok tt)
          | _ => (world (join_all (exec sched (start_pool w2 files))), Ok tt)
          end
      end
  end.

End Extractor.

(** A session: [FileExtractor()] and then menu entry 1 some number of
    times, each time with the configuration entered and the interleaving
    that occurs.  An exception of [run] ends the program. *)
Fixpoint session {rt : Runtime} (runs : list (Config * list nat)) (w : World)
  : World :=
  match runs with
  | [] => w
  | (cfg, sched) :: rest =>
      match run cfg sched w with
      | (w', Ok _) => session rest w'
      | (w', Raise _) => w'
      end
  end.

(** The state after [__init__], on a given file system. *)
Definition new_extractor (fs0 : FS) : World := {| stats := init_stats; fs := fs0 |}.

(** *** [get_user_input] *)

(** The entries of [self.settings] that [get_user_input] reads. *)
Record Settings := {
  last_input_folder : str;
  last_output_folder : str;
  default_lines : Z;
  default_threads : Z;
  default_watermark : bool;
  default_file_types : list str
}.

Definition is_empty (s : str) : bool :=
  match s with [] => true | _ => false end.

(** [x or y] on strings *)
Definition or_else (x y : str) : str := if is_empty x then y else x.

(** [[t.strip() for t in s.split(',') if t.strip()]] *)
Definition comma_separated (s : str) : list str :=
  filter (fun t => negb (is_empty t)) (map strip (split 44 s)).

Section Prompt.

Context {rt : Runtime}.
Variable fs0 : FS.

(** The answers typed are a list; [input()] takes the first one and raises
    [EOFError] when there is none. *)

(** [while True:] ask for the input folder until it exists. *)
Fixpoint ask_input_folder (default_input : str) (answers : list str)
  : Result (str * list str) :=
  match answers with
  | [] => Raise EOFError
  | answer :: rest =>
      let folder := or_else (strip answer) default_input in
      if path_exists fs0 folder then Ok (folder, rest)
      else ask_input_folder [] rest
  end.

(** [while True:] ask for the number of lines until [int()] accepts it. *)
Fixpoint ask_lines (default : Z) (answers : list str)
  : Result (Z * list str) :=
  match answers with
  | [] => Raise EOFError
  | answer :: rest =>
      let lines_input := strip answer in
      if is_empty lines_input then Ok (default, rest)
      else match parse_int lines_input with
           | Some n => Ok (n, rest)
           | None => ask_lines default rest
           end
  end.

Definition input (answers : list str) : Result (str * list str) :=
  match answers with
  | [] => Raise EOFError
  | answer :: rest => Ok (answer, rest)
  end.

Definition get_user_input (settings : Settings) (answers : list str)
  : Result (Config * Settings) :=
  bind (ask_input_folder (last_input_folder settings) answers) (fun '(inp, r1) =>
  bind (input r1) (fun '(a2, r2) =>
  let out := or_else (strip a2) (last_output_folder settings) in
  bind (ask_lines (default_lines settings) r2) (fun '(lines, r3) =>
  bind (input r3) (fun '(a4, r4) =>
  let watermark_input := str_lower (strip a4) in
  let wm := if is_empty watermark_input then default_watermark settings
            else str_eqb watermark_input (a2s "y") in
  bind (input r4) (fun '(a5, r5) =>
  let terms := comma_separated a5 in
  bind (input r5) (fun '(a6, r6) =>
  let threads_input := strip a6 in
  bind (if is_empty threads_input then Ok (default_threads settings)
        else match parse_int threads_input with
             | Some n => Ok n
             | None => Raise ValueError
             end) (fun n =>
  let thr := Z.min 16 (Z.max 1 n) in
  bind (input r6) (fun '(a7, r7) =>
  let file_types := strip a7 in
  let types := if is_empty file_types then default_file_types settings
               else comma_separated file_types in
  bind (input r7) (fun '(a8, _) =>
  let dup := str_eqb (str_lower (strip a8)) (a2s "y") in
  Ok ({| input_folder := inp; output_folder := out;
         lines_to_extract := lines; watermark := wm; filter_terms := terms;
         threads := thr; file_types := types; check_duplicates := dup |},
      {| last_input_folder := inp; last_output_folder := out;
         default_lines := default_lines settings;
         default_threads := default_threads settings;
         default_watermark := default_watermark settings;
         default_file_types := default_file_types settings |})))))))))).

End Prompt.

(** ** The settings and their menu *)

Module Menu.

(** The values the program stores in [self.settings], which are also the
    values [save_settings] writes to the configuration file. *)
Inductive Value :=
| VStr (s : str)
| VInt (n : Z)
| VBool (b : bool)
| VList (l : list str).

(** A [dict] with string keys: assignment to a key that is there keeps its
    place, a new key goes to the end. *)
Definition Dict := list (str * Value).

(** The exceptions of this part of the program: those of the pipeline and
    the two that come from indexing a dictionary. *)
Inductive Error :=
| Builtin (e : Exn)
| KeyError (key : Value)
| TypeError.

Inductive Outcome (A : Type) :=
| Returned (a : A)
| Raised (e : Error).
Arguments Returned {A} a.
Arguments Raised {A} e.

Definition and_then {A B} (o : Outcome A) (f : A -> Outcome B) : Outcome B :=
  match o with
  | Returned a => f a
  | Raised e => Raised e
  end.

(** [d[key]] *)
Definition getitem (d : Dict) (key : str) : Outcome Value :=
  match lookup key d with
  | Some v => Returned v
  | None => Raised (KeyError (VStr key))
  end.

(** [bool(v)], as [not v] takes it. *)
Definition truth (v : Value) : bool :=
  match v with
  | VStr s => negb (is_empty s)
  | VInt n => negb (n =? 0)
  | VBool b => b
  | VList l => match l with [] => false | _ => true end
  end.

(** [', '.join(v)] accepts a list of strings and a string. *)
Definition joined (v : Value) : Outcome unit :=
  match v with
  | VStr _ | VList _ => Returned tt
  | VInt _ | VBool _ => Raised TypeError
  end.

(** [list(self.themes.keys())] *)
Definition theme_names : list str :=
  [a2s "pro_dark"; a2s "pro_light"; a2s "matrix"].

(** [self.themes[key]]; a theme is known by its name.  A list cannot be a
    key at all. *)
Definition themes_getitem (key : Value) : Outcome str :=
  match key with
  | VStr s =>
      if existsb (str_eqb s) theme_names then Returned s
      else Raised (KeyError key)
  | VList _ => Raised TypeError
  | _ => Raised (KeyError key)
  end.

(** The file [file_extractor_config.json]: not there, or holding a JSON
    object.  (A file that holds something else makes the handler of
    [load_settings] call [cprint] before [__init__] has set
    [current_theme]: no object is made, and there is no menu to speak
    of.) *)
Inductive ConfigFile :=
| Absent
| Holds (d : Dict).

(** The part of the object the menus work on, and the configuration
    file. *)
Record Shell := {
  settings : Dict;
  current_theme : str;
  config_file : ConfigFile;
  config_writable : bool
}.

Definition with_settings (d : Dict) (sh : Shell) : Shell :=
  {| settings := d; current_theme := current_theme sh;
     config_file := config_file sh; config_writable := config_writable sh |}.

Definition with_theme (t : str) (sh : Shell) : Shell :=
  {| settings := settings sh; current_theme := t;
     config_file := config_file sh; config_writable := config_writable sh |}.

(** [self.settings[key] = v] *)
Definition setitem (key : str) (v : Value) (sh : Shell) : Shell :=
  with_settings (update key v (settings sh)) sh.

(** The dictionary of [__init__]; [cpu_count] is what [os.cpu_count()]
    returns. *)
Definition initial_settings (cpu_count : option Z) : Dict :=
  [ (a2s "last_input_folder", VStr []);
    (a2s "last_output_folder", VStr (a2s "extracted"));
    (a2s "default_lines", VInt 100);
    (a2s "default_threads",
     VInt (Z.min (match cpu_count with
                  | Some n => if n =? 0 then 4 else n
                  | None => 4
                  end) 16));
    (a2s "default_watermark", VBool true);
    (a2s "default_file_types",
     VList [a2s ".txt"; a2s ".log"; a2s ".csv"; a2s ".md"]);
    (a2s "theme", VStr (a2s "pro_dark"));
    (a2s "enable_logging", VBool true);
    (a2s "max_file_size", VInt 100);
    (a2s "backup_enabled", VBool true);
    (a2s "backup_count", VInt 3);
    (a2s "advanced_mode", VBool false) ].

(** [load_settings]: the keys the object has are looked for in the
    file. *)
Definition load_settings (sh : Shell) : Shell :=
  match config_file sh with
  | Holds loaded_settings =>
      fold_left
        (fun sh' key =>
           match lookup key loaded_settings with
           | Some v => setitem key v sh'
           | None => sh'
           end)
        (map fst (settings sh)) sh
  | Absent => sh
  end.

(** [save_settings]: a file that cannot be written is left as it is (the
    exception is caught). *)
Definition save_settings (sh : Shell) : Shell :=
  if config_writable sh
  then {| settings := settings sh; current_theme := current_theme sh;
          config_file := Holds (settings sh);
          config_writable := config_writable sh |}
  else sh.

(** The settings part of [__init__]: the defaults, the file, the theme. *)
Definition new_shell (cpu_count : option Z) (file : ConfigFile)
  (writable : bool) : Outcome Shell :=
  let sh := load_settings {| settings := initial_settings cpu_count;
                             current_theme := [];
                             config_file := file;
                             config_writable := writable |} in
  match and_then (getitem (settings sh) (a2s "theme")) themes_getitem with
  | Returned t => Returned (with_theme t sh)
  | Raised e => Raised e
  end.

(** [change_theme]; [answer] is what [input] returned.  A [ValueError] of
    [int] is caught. *)
Definition change_theme (answer : str) (sh : Shell) : Shell * Outcome unit :=
  match parse_int (strip answer) with
  | None => (sh, Returned tt)
  | Some choice =>
      if (1 <=? choice) && (choice <=? Z.of_nat (length theme_names))
      then
        let sh1 :=
          setitem (a2s "theme")
                  (VStr (nth (Z.to_nat (choice - 1)) theme_names [])) sh in
        match and_then (getitem (settings sh1) (a2s "theme")) themes_getitem with
        | Returned t => (with_theme t sh1, Returned tt)
        | Raised e => (sh1, Raised e)
        end
      else (sh, Returned tt)
  end.

(** [change_setting(setting, prompt, int, process_func)] *)
Definition change_setting (setting : str) (process_func : Z -> Z)
  (answer : str) (sh : Shell) : Shell :=
  match parse_int (strip answer) with
  | Some new_value => setitem setting (VInt (process_func new_value)) sh
  | None => sh
  end.

(** The dictionary [reset_settings] builds. *)
Definition default_settings : Dict :=
  [ (a2s "last_input_folder", VStr []);
    (a2s "last_output_folder", VStr (a2s "extracted"));
    (a2s "default_lines", VInt 100);
    (a2s "default_threads", VInt 4);
    (a2s "default_watermark", VBool true);
    (a2s "default_file_types", VList [a2s ".txt"; a2s ".log"; a2s ".csv"]);
    (a2s "theme", VStr (a2s "default")) ].

Definition reset_settings (sh : Shell) : Shell * Outcome unit :=
  let sh1 := with_settings default_settings sh in
  match and_then (getitem (settings sh1) (a2s "theme")) themes_getitem with
  | Returned t => (with_theme t sh1, Returned tt)
  | Raised e => (sh1, Raised e)
  end.

(** The lines of the menu that show the settings. *)
Definition show_settings (d : Dict) : Outcome unit :=
  and_then (getitem d (a2s "theme")) (fun _ =>
  and_then (getitem d (a2s "default_lines")) (fun _ =>
  and_then (getitem d (a2s "default_threads")) (fun _ =>
  and_then (and_then (getitem d (a2s "default_file_types")) joined) (fun _ =>
  and_then (getitem d (a2s "default_watermark")) (fun _ =>
  Returned tt))))).

(** Choice 4 *)
Definition change_file_types (answer : str) (sh : Shell) : Shell :=
  let new_types := strip answer in
  if is_empty new_types then sh
  else setitem (a2s "default_file_types")
               (VList (comma_separated new_types)) sh.

(** Choice 5 *)
Definition toggle_watermark (sh : Shell) : Shell * Outcome unit :=
  match getitem (settings sh) (a2s "default_watermark") with
  | Returned v =>
      (setitem (a2s "default_watermark") (VBool (negb (truth v))) sh,
       Returned tt)
  | Raised e => (sh, Raised e)
  end.

(** The choices 1, 2, 3, 4 and 6 ask one question each: what they do with
    the answer, in the order of the [if] chain. *)
Definition answered {rt : Runtime} (choice answer : str) (sh : Shell)
  : Shell * Outcome unit :=
  if str_eqb choice (a2s "1") then change_theme answer sh
  else if str_eqb choice (a2s "2") then
    (change_setting (a2s "default_lines") (fun x => x) answer sh, Returned tt)
  else if str_eqb choice (a2s "3") then
    (change_setting (a2s "default_threads")
                    (fun x => Z.min 16 (Z.max 1 x)) answer sh, Returned tt)
  else if str_eqb choice (a2s "4") then
    (change_file_types answer sh, Returned tt)
  else
    if str_eqb (str_lower answer) (a2s "y") then reset_settings sh
    else (sh, Returned tt).

(** The choices with a question of their own. *)
Definition asks (choice : str) : bool :=
  existsb (str_eqb choice) [a2s "1"; a2s "2"; a2s "3"; a2s "4"; a2s "6"].

(** [settings_menu]: the answers typed are consumed one by one; [input]
    raises [EOFError] when there is none left. *)
Fixpoint settings_menu {rt : Runtime} (answers : list str) (sh : Shell)
  : Shell * Outcome unit :=
  match show_settings (settings sh) with
  | Raised e => (sh, Raised e)
  | Returned _ =>
      match answers with
      | [] => (sh, Raised (Builtin EOFError))
      | first :: rest =>
          let choice := strip first in
          if asks choice then
            match rest with
            | [] => (sh, Raised (Builtin EOFError))
            | answer :: rest' =>
                match answered choice answer sh with
                | (sh', Returned _) => settings_menu rest' sh'
                | (sh', Raised e) => (sh', Raised e)
                end
            end
          else if str_eqb choice (a2s "5") then
            match toggle_watermark sh with
            | (sh', Returned _) => settings_menu rest sh'
            | (sh', Raised e) => (sh', Raised e)
            end
          else if str_eqb choice (a2s "7") then (save_settings sh, Returned tt)
          else settings_menu rest sh
      end
  end.

End Menu.

(** ** Batch mode *)

(** [str(p)] for a path made of a folder and a name. *)
Definition str_of_path (p : Path) : str :=
  if str_eqb (folder p) (a2s ".") then name p
  else folder p ++ 47%N :: name p.

(** [self.input_folder = inp; self.output_folder = out] on an object that
    has the attributes of [get_user_input]. *)
Definition with_folders (inp out : str) (cfg : Config) : Config :=
  {| input_folder := inp; output_folder := out;
     lines_to_extract := lines_to_extract cfg; watermark := watermark cfg;
     filter_terms := filter_terms cfg; threads := threads cfg;
     file_types := file_types cfg; check_duplicates := check_duplicates cfg |}.

(** What [except Exception] of the loop over the folders catches. *)
Inductive Trouble :=
| Exception (e : Exn)
| AttributeError (attribute : str).

(** [run()] on an object on which [get_user_input] never ran: the
    attribute [file_types] is not there.  The list of the files is built
    with [f.is_file() and f.suffix.lower() in [... self.file_types]]: the
    first regular file makes it raise. *)
Definition run_without_attributes (inp out : str) (w : World)
  : World * option Trouble :=
  match mkdir (fs w) out with
  | Raise e => (w, Some (Exception e))
  | Ok fs1 =>
      let w1 := with_fs fs1 w in
      match iterdir fs1 inp with
      | Raise e => (w1, Some (Exception e))
      | Ok listing =>
          if existsb (is_file fs1) listing
          then (w1, Some (AttributeError (a2s "file_types")))
          else (with_stats (set_total_files 0) w1, None)
      end
  end.

(** [self.run()] inside [try]; [attrs] are the attributes set by the last
    [get_user_input], if there was one. *)
Definition run_in {rt : Runtime} (attrs : option Config) (inp out : str)
  (sched : list nat) (w : World) : World * option Trouble :=
  match attrs with
  | Some cfg =>
      match run (with_folders inp out cfg) sched w with
      | (w', Ok _) => (w', None)
      | (w', Raise e) => (w', Some (Exception e))
      end
  | None => run_without_attributes inp out w
  end.

(** [for folder in folders: ...]; the threads of the run on the first
    folder interleave as the first schedule says, and so on. *)
Fixpoint batch_loop {rt : Runtime} (attrs : option Config) (output_root : str)
  (scheds : list (list nat)) (folders : list Path) (w : World)
  (processed_folders : nat) : World * nat :=
  match folders with
  | [] => (w, processed_folders)
  | folder :: rest =>
      match run_in attrs (str_of_path folder)
                   (str_of_path (join output_root (name folder)))
                   (hd [] scheds) w with
      | (w', None) =>
          batch_loop attrs output_root (tl scheds) rest w'
                     (S processed_folders)
      | (w', Some _) =>
          batch_loop attrs output_root (tl scheds) rest w' processed_folders
      end
  end.

(** [batch_mode]: the result is [None] when it returns before the loop,
    and the number of folders processed otherwise.  An entry of the
    listing is a directory when the file system has a listing for its
    path. *)
Definition batch_mode {rt : Runtime} (attrs : option Config)
  (scheds : list (list nat)) (answers : list str) (w : World)
  : World * Result (option nat) :=
  match answers with
  | [] => (w, Raise EOFError)
  | a1 :: r1 =>
      let root_folder := strip a1 in
      if negb (path_exists (fs w) root_folder) then (w, Ok None)
      else
        match r1 with
        | [] => (w, Raise EOFError)
        | a2 :: r2 =>
            let output_root := or_else (strip a2) (a2s "batch_output") in
            match iterdir (fs w) root_folder with
            | Raise e => (w, Raise e)
            | Ok listing =>
                let folders :=
                  filter (fun f => is_dir (fs w) (str_of_path f)) listing in
                match folders with
                | [] => (w, Ok None)
                | _ =>
                    match r2 with
                    | [] => (w, Raise EOFError)
                    | a3 :: r3 =>
                        if negb (str_eqb (str_lower a3) (a2s "y"))
                        then (w, Ok None)
                        else
                          let '(w', n) :=
                            batch_loop attrs output_root scheds folders w 0 in
                          match r3 with
                          | [] => (w', Raise EOFError)
                          | _ :: _ => (w', Ok (Some n))
                          end
                    end
                end
            end
        end
  end.

(** * The vocabulary of the properties *)

(** What one statement does to the counters. *)
Inductive Effect :=
| Quiet
| Skip
| Dup
| Err
| Done (lines_written filtered : Z).

Definition apply_effect (e : Effect) (s : Stats) : Stats :=
  match e with
  | Quiet => s
  | Skip => count_skipped s
  | Dup => count_duplicate s
  | Err => count_error s
  | Done l f => count_processed l f s
  end.

(** The local counters of a job never go below zero. *)
Definition acc_ok (a : Acc) : Prop := 0 <= lines_written a /\ 0 <= filtered a.

(** The transitions of a thread: statement, queue before, effect on the
    counters, next statement, queue after. *)
Inductive Trans {rt : Runtime} (cfg : Config)
  : Pc -> list Path -> Effect -> Pc -> list Path -> Prop :=
| t_exit : Trans cfg AtLoop [] Quiet Exited []
| t_skip p q : has_file_type cfg p = false ->
    Trans cfg AtLoop (p :: q) Skip AtLoop q
| t_claim p q : has_file_type cfg p = true ->
    Trans cfg AtLoop (p :: q) Quiet (AtHash p) q
| t_hash p h q : Trans cfg (AtHash p) q Quiet (AtDuplicate p h) q
| t_hash_err p q : Trans cfg (AtHash p) q Err AtLoop q
| t_dup p h q : Trans cfg (AtDuplicate p h) q Dup AtLoop q
| t_fresh p h q : Trans cfg (AtDuplicate p h) q Quiet (AtRead p h) q
| t_dup_err p h q : Trans cfg (AtDuplicate p h) q Err AtLoop q
| t_read p h a q : acc_ok a ->
    Trans cfg (AtRead p h) q Quiet (AtWrite p h a) q
| t_read_err p h q : Trans cfg (AtRead p h) q Err AtLoop q
| t_write p h a q :
    Trans cfg (AtWrite p h a) q (Done (lines_written a) (filtered a)) AtLoop q
| t_write_err p h a q : Trans cfg (AtWrite p h a) q Err AtLoop q
| t_exited q : Trans cfg Exited q Quiet Exited q.

(** Files in the hands of a thread. *)
Definition inflight (pc : Pc) : Z :=
  match pc with
  | AtLoop | Exited => 0
  | _ => 1
  end.

(** Files counted, files in the hands of a thread and files waiting. *)
Definition account (pool : Pool) : Z :=
  progress_n (stats (world pool))
  + total inflight (workers pool)
  + Z.of_nat (length (file_queue pool)).

(** No counter decreases and [total_files] stays. *)
Definition grows (s s' : Stats) : Prop :=
  total_files s' = total_files s /\
  processed s <= processed s' /\
  skipped s <= skipped s' /\
  errors s <= errors s' /\
  total_lines s <= total_lines s' /\
  filtered_lines s <= filtered_lines s' /\
  duplicates_found s <= duplicates_found s' /\
  archives_processed s = archives_processed s'.

(** The counters other than [total_files], which [run] assigns. *)
Definition grows_but_total (s s' : Stats) : Prop :=
  processed s <= processed s' /\
  skipped s <= skipped s' /\
  errors s <= errors s' /\
  total_lines s <= total_lines s' /\
  filtered_lines s <= filtered_lines s' /\
  duplicates_found s <= duplicates_found s' /\
  archives_processed s = archives_processed s'.

(** The local counters a thread holds are not negative. *)
Definition pc_ok (pc : Pc) : Prop :=
  match pc with
  | AtWrite _ _ a => acc_ok a
  | _ => True
  end.

Definition all_exited (pool : Pool) : Prop :=
  Forall (fun pc => pc = Exited) (workers pool).

(** A thread exits on an empty queue, and the queue stays empty. *)
Definition exits_on_empty (pool : Pool) : Prop :=
  Exists (fun pc => pc = Exited) (workers pool) -> file_queue pool = [].

(** The queue holds files of the accepted types only. *)
Definition typed_queue {rt : Runtime} (cfg : Config) (pool : Pool) : Prop :=
  Forall (fun p => has_file_type cfg p = true) (file_queue pool).

(** [run] raises before anything is queued, returns at once when no file
    matches, or lets the pool work through the queue. *)
Inductive RunCase {rt : Runtime} (cfg : Config) (sched : list nat) (w : World)
  : World * Result unit -> Prop :=
| run_no_output e :
    mkdir (fs w) (output_folder cfg) = Raise e ->
    RunCase cfg sched w (w, Raise e)
| run_no_input fs1 e :
    mkdir (fs w) (output_folder cfg) = Ok fs1 ->
    iterdir fs1 (input_folder cfg) = Raise e ->
    RunCase cfg sched w (with_fs fs1 w, Raise e)
| run_nothing fs1 listing :
    mkdir (fs w) (output_folder cfg) = Ok fs1 ->
    iterdir fs1 (input_folder cfg) = Ok listing ->
    matching cfg fs1 listing = [] ->
    RunCase cfg sched w (with_stats (set_total_files 0) (with_fs fs1 w), Ok tt)
| run_pool fs1 listing :
    mkdir (fs w) (output_folder cfg) = Ok fs1 ->
    iterdir fs1 (input_folder cfg) = Ok listing ->
    matching cfg fs1 listing <> [] ->
    RunCase cfg sched w
      (world (join_all cfg (exec cfg sched
         (start_pool cfg
            (with_stats
               (set_total_files (Z.of_nat (length (matching cfg fs1 listing))))
               (with_fs fs1 w))
            (matching cfg fs1 listing)))), Ok tt).

(** The ways in which the [try] block of a job raises: while hashing,
    while looking for a duplicate, while reading, while writing.  The
    world it leaves differs from the one it found by the output file, in
    the last case only. *)
Inductive Raises {rt : Runtime} (cfg : Config) (w : World) (p : Path)
  : Exn -> World -> Prop :=
| raises_hashing e :
    calculate_hash (fs w) p = Raise e -> Raises cfg w p e w
| raises_checking h e :
    calculate_hash (fs w) p = Ok h ->
    check_duplicates cfg = true ->
    is_duplicate cfg (fs w) p h = Raise e -> Raises cfg w p e w
| raises_reading h e :
    calculate_hash (fs w) p = Ok h ->
    (check_duplicates cfg = false \/ is_duplicate cfg (fs w) p h = Ok false) ->
    try_encodings cfg (fs w) p encodings no_lines = Raise e ->
    Raises cfg w p e w
| raises_writing h a fs' e :
    calculate_hash (fs w) p = Ok h ->
    (check_duplicates cfg = false \/ is_duplicate cfg (fs w) p h = Ok false) ->
    try_encodings cfg (fs w) p encodings no_lines = Ok a ->
    write_lines (fs w) (output_path_of cfg p)
      (if watermark cfg then content a ++ [watermark_block p a h]
       else content a) = (fs', Raise e) ->
    Raises cfg w p e (with_fs fs' w).



(** Reading the stream never raises. *)
Fixpoint never_fails (f : LineStream) : Prop :=
  match f with
  | EndOfFile => True
  | Fail _ => False
  | Line _ rest => never_fails rest
  end.


(** A runtime whose text layer refuses every file in every encoding. *)
Definition refusing : Runtime :=
  {| str_lower := Codec.lower;
     open_text := fun _ _ => Fail UnicodeDecodeError;
     encode_utf8 := Codec.utf8_encode;
     strftime := a2s "2024-01-01 00:00:00" |}.

(** ** Fixtures for the concrete runs *)

(** A readable and writable file with the given lines, each ended by a
    line feed. *)
Definition file_of_lines (ls : list string) : Entry :=
  Regular true true (flat_map (fun l => bytes_of_string l ++ [x0a]) ls).

(** Extract three lines of every [.txt] file of [in] to [out], on one
    thread, without watermark, filter or duplicate check. *)
Definition three_lines : Config :=
  {| input_folder := a2s "in"; output_folder := a2s "out";
     lines_to_extract := 3; watermark := false; filter_terms := [];
     threads := 1; file_types := [a2s ".txt"]; check_duplicates := false |}.

(** The folder [in] with a six-line [a.txt] and a [b.jpg]. *)
Definition txt_and_jpg : FS :=
  [ (a2s "in",
     [ (a2s "a.txt", file_of_lines ["1"; "2"; "3"; "4"; "5"; "6"]%string);
       (a2s "b.jpg", Regular true true (bytes_of_string "JFIF")) ]) ].



(** An output folder that holds the extract of a file with the single
    line [x]. *)
Definition one_extract : FS :=
  [ (a2s "in", [ (a2s "b.txt", file_of_lines ["x"]%string) ]);
    (a2s "out", [ (a2s "extracted_a.txt", file_of_lines ["x"]%string);
                  (a2s "notes", Subfolder) ]) ].

(** The folder [in] with an [a.txt] that may not be read. *)
Definition unreadable : FS :=
  [ (a2s "in", [ (a2s "a.txt", Regular false true (bytes_of_string "x")) ]);
    (a2s "out", []) ].

(** The folder [in] with an [a.txt] that may not be read and a [b.txt]
    that may. *)
Definition one_unreadable : FS :=
  [ (a2s "in", [ (a2s "a.txt", Regular false true (bytes_of_string "x"));
                 (a2s "b.txt", file_of_lines ["y"]%string) ]) ].

(** What the menu holds as defaults when nothing was saved. *)
Definition defaults : Settings :=
  {| last_input_folder := []; last_output_folder := a2s "extracted";
     default_lines := 100; default_threads := 4; default_watermark := true;
     default_file_types := [a2s ".txt"; a2s ".log"; a2s ".csv"; a2s ".md"] |}.

(** A folder that is not there, then [in]; the default output folder; zero
    lines; no watermark; no filter; 99 threads; the default types; no
    duplicate check. *)
Definition zero_lines_answers : list str :=
  map a2s ["nowhere"; "in"; ""; "0"; "n"; ""; "99"; ""; "n"]%string.

(** A file that starts as UTF-8, [a] and a line feed and then 9000 times
    [b], and ends with the byte FF, which UTF-8 does not have. *)
Definition almost_utf8 : bytes :=
  bytes_of_string "a" ++ [x0a] ++ repeat "b"%byte (90 * 100) ++ [xff].

Definition one_almost_utf8 : FS :=
  [ (a2s "in", [ (a2s "a.txt", Regular true true almost_utf8) ]) ].

(** Five lines of every [.txt] file, no watermark. *)
Definition five_lines : Config :=
  {| input_folder := a2s "in"; output_folder := a2s "out";
     lines_to_extract := 5; watermark := false; filter_terms := [];
     threads := 1; file_types := [a2s ".txt"]; check_duplicates := false |}.

(** Two hundred files [f0.txt] ... [f199.txt], all of them holding the one
    line [same]. *)
Definition numbered (i : nat) : str * Entry :=
  (a2s "f" ++ str_of_int (Z.of_nat i) ++ a2s ".txt",
   file_of_lines ["same"]%string).

Definition two_hundred : FS := [ (a2s "in", map numbered (seq 0 200)) ].

(** Five lines of every [.txt] file, with the duplicate check, on [n]
    threads. *)
Definition checking (n : Z) : Config :=
  {| input_folder := a2s "in"; output_folder := a2s "out";
     lines_to_extract := 5; watermark := false; filter_terms := [];
     threads := n; file_types := [a2s ".txt"]; check_duplicates := true |}.


(** ** More vocabulary: the steps with their conditions *)

(** The lines a job writes: the retained ones and, with the watermark on,
    the block. *)
Definition lines_to_write {rt : Runtime} (cfg : Config) (p : Path)
  (h : str) (a : Acc) : list str :=
  if watermark cfg then content a ++ [watermark_block p a h] else content a.

(** A step of a thread, with what made it go the way it went: world and
    queue before, statement, world after, next statement, queue after. *)
Inductive Fires {rt : Runtime} (cfg : Config) (w : World)
  : list Path -> Pc -> World -> Pc -> list Path -> Prop :=
| f_exit : Fires cfg w [] AtLoop w Exited []
| f_skip p q :
    has_file_type cfg p = false ->
    Fires cfg w (p :: q) AtLoop (with_stats count_skipped w) AtLoop q
| f_claim p q :
    has_file_type cfg p = true ->
    Fires cfg w (p :: q) AtLoop w (AtHash p) q
| f_hash p h q :
    calculate_hash (fs w) p = Ok h ->
    Fires cfg w q (AtHash p) w (AtDuplicate p h) q
| f_hash_err p e q :
    calculate_hash (fs w) p = Raise e ->
    Fires cfg w q (AtHash p) (with_stats count_error w) AtLoop q
| f_dup p h q :
    check_duplicates cfg = true ->
    is_duplicate cfg (fs w) p h = Ok true ->
    Fires cfg w q (AtDuplicate p h) (with_stats count_duplicate w) AtLoop q
| f_fresh p h q :
    check_duplicates cfg = false \/ is_duplicate cfg (fs w) p h = Ok false ->
    Fires cfg w q (AtDuplicate p h) w (AtRead p h) q
| f_dup_err p h e q :
    check_duplicates cfg = true ->
    is_duplicate cfg (fs w) p h = Raise e ->
    Fires cfg w q (AtDuplicate p h) (with_stats count_error w) AtLoop q
| f_read p h a q :
    try_encodings cfg (fs w) p encodings no_lines = Ok a ->
    Fires cfg w q (AtRead p h) w (AtWrite p h a) q
| f_read_err p h e q :
    try_encodings cfg (fs w) p encodings no_lines = Raise e ->
    Fires cfg w q (AtRead p h) (with_stats count_error w) AtLoop q
| f_write p h a fs' q :
    write_lines (fs w) (output_path_of cfg p) (lines_to_write cfg p h a)
    = (fs', Ok tt) ->
    Fires cfg w q (AtWrite p h a)
      (with_stats (count_processed (lines_written a) (filtered a))
                  (with_fs fs' w)) AtLoop q
| f_write_err p h a fs' e q :
    write_lines (fs w) (output_path_of cfg p) (lines_to_write cfg p h a)
    = (fs', Raise e) ->
    Fires cfg w q (AtWrite p h a)
      (with_stats count_error (with_fs fs' w)) AtLoop q
| f_exited q : Fires cfg w q Exited w Exited q.

(** The local variables of a job: [content] has [lines_written] lines, not
    more than the cap; [filtered] is not negative, and zero when there is
    no filter term. *)
Definition acc_bounded (cfg : Config) (a : Acc) : Prop :=
  lines_written a = Z.of_nat (length (content a)) /\
  lines_written a <= Z.max 0 (lines_to_extract cfg) /\
  0 <= filtered a /\
  (filter_terms cfg = [] -> filtered a = 0).

Definition pc_bounded (cfg : Config) (pc : Pc) : Prop :=
  match pc with
  | AtWrite _ _ a => acc_bounded cfg a
  | _ => True
  end.

(** From [s] to [s']: [total_lines] has grown by at most the cap for each
    file processed; [filtered_lines] stands still when there is no filter
    term, and [duplicates_found] when the duplicate check is off. *)
Definition within_cap (cfg : Config) (s s' : Stats) : Prop :=
  processed s <= processed s' /\
  total_lines s <= total_lines s' /\
  total_lines s' - total_lines s
  <= Z.max 0 (lines_to_extract cfg) * (processed s' - processed s) /\
  (filter_terms cfg = [] -> filtered_lines s' = filtered_lines s) /\
  (check_duplicates cfg = false -> duplicates_found s' = duplicates_found s).

(** The file a thread has taken from the queue and not yet finished. *)
Definition holds (pc : Pc) : option Path :=
  match pc with
  | AtHash p | AtDuplicate p _ | AtRead p _ | AtWrite p _ _ => Some p
  | AtLoop | Exited => None
  end.

(** No file of [files] has [x] as its output path. *)
Definition not_an_output {rt : Runtime} (cfg : Config) (files : list Path)
  (x : Path) : Prop :=
  forall p, In p files -> x <> output_path_of cfg p.

(** The files [run] puts on the queue; none when it raises before. *)
Definition queued {rt : Runtime} (cfg : Config) (w : World) : list Path :=
  match mkdir (fs w) (output_folder cfg) with
  | Ok fs1 =>
      match iterdir fs1 (input_folder cfg) with
      | Ok listing => matching cfg fs1 listing
      | Raise _ => []
      end
  | Raise _ => []
  end.

(** The folder [nowhere] is asked for, and [in] exists. *)
Definition from_nowhere : Config :=
  {| input_folder := a2s "nowhere"; output_folder := a2s "out";
     lines_to_extract := 3; watermark := false; filter_terms := [];
     threads := 1; file_types := [a2s ".txt"]; check_duplicates := false |}.

(** Two lines of every [.txt] file. *)
Definition two_lines : Config :=
  {| input_folder := a2s "in"; output_folder := a2s "out";
     lines_to_extract := 2; watermark := false; filter_terms := [];
     threads := 1; file_types := [a2s ".txt"]; check_duplicates := false |}.

(** ** More vocabulary: a job on its own *)

(** Whether [open(p, 'w')] gets past what is at [p]. *)
Definition may_write (e : option Entry) : bool :=
  match e with
  | None => true
  | Some (Regular _ w _) => w
  | Some Subfolder => false
  end.

(** What the job on [input_path] does to the counters when it runs on the
    file system [fs0]: the outcome of [process_one], without the world. *)
Definition job_effect {rt : Runtime} (cfg : Config) (fs0 : FS)
  (input_path : Path) : Effect :=
  if negb (has_file_type cfg input_path) then Skip
  else
    match calculate_hash fs0 input_path with
    | Raise _ => Err
    | Ok file_hash =>
        match (if check_duplicates cfg
               then is_duplicate cfg fs0 input_path file_hash
               else Ok false) with
        | Raise _ => Err
        | Ok true => Dup
        | Ok false =>
            match try_encodings cfg fs0 input_path encodings no_lines with
            | Raise _ => Err
            | Ok a =>
                match write_lines fs0 (output_path_of cfg input_path)
                        (lines_to_write cfg input_path file_hash a) with
                | (_, Ok _) => Done (lines_written a) (filtered a)
                | (_, Raise _) => Err
                end
            end
        end
    end.

(** The counters after the jobs on [files], each one taken on [fs0]. *)
Definition tally {rt : Runtime} (cfg : Config) (fs0 : FS) (files : list Path)
  (s : Stats) : Stats :=
  fold_left (fun s p => apply_effect (job_effect cfg fs0 p) s) files s.

(** The same configuration with another number of threads. *)
Definition with_threads (n : Z) (cfg : Config) : Config :=
  {| input_folder := input_folder cfg; output_folder := output_folder cfg;
     lines_to_extract := lines_to_extract cfg; watermark := watermark cfg;
     filter_terms := filter_terms cfg; threads := n;
     file_types := file_types cfg; check_duplicates := check_duplicates cfg |}.

(** The counters by name. *)
Inductive Counter :=
| TotalFiles | Processed | Skipped | Errors | TotalLines | FilteredLines
| DuplicatesFound | ArchivesProcessed.

Definition read (k : Counter) (s : Stats) : Z :=
  match k with
  | TotalFiles => total_files s
  | Processed => processed s
  | Skipped => skipped s
  | Errors => errors s
  | TotalLines => total_lines s
  | FilteredLines => filtered_lines s
  | DuplicatesFound => duplicates_found s
  | ArchivesProcessed => archives_processed s
  end.

(** What an effect adds to a counter. *)
Definition gain (k : Counter) (e : Effect) : Z :=
  match k, e with
  | Processed, Done _ _ => 1
  | Skipped, Skip | Skipped, Dup => 1
  | Errors, Err => 1
  | TotalLines, Done l _ => l
  | FilteredLines, Done _ f => f
  | DuplicatesFound, Dup => 1
  | _, _ => 0
  end.

Definition weigh (k : Counter) (es : list Effect) : Z :=
  fold_right (fun e acc => gain k e + acc) 0 es.

(** [fs2] differs from [fs1] by what jobs may have written to the output
    folder: the folders are the same, the entries outside the output
    folder are the same, and what could be opened for writing still can. *)
Definition stable (cfg : Config) (fs1 fs2 : FS) : Prop :=
  (forall d, is_dir fs2 d = is_dir fs1 d) /\
  (forall x, folder x <> norm (output_folder cfg) ->
             entry fs2 x = entry fs1 x) /\
  (forall x, may_write (entry fs2 x) = may_write (entry fs1 x)).

(** A file of the input folder, of an accepted type. *)
Definition listed {rt : Runtime} (cfg : Config) (p : Path) : Prop :=
  folder p = norm (input_folder cfg) /\ has_file_type cfg p = true.

(** What a thread holds is what its job yields on [fs1]. *)
Definition in_step {rt : Runtime} (cfg : Config) (fs1 : FS) (pc : Pc) : Prop :=
  match pc with
  | AtLoop | Exited => True
  | AtHash p => listed cfg p
  | AtDuplicate p h | AtRead p h =>
      listed cfg p /\ calculate_hash fs1 p = Ok h
  | AtWrite p h a =>
      listed cfg p /\ calculate_hash fs1 p = Ok h /\
      try_encodings cfg fs1 p encodings no_lines = Ok a
  end.

(** The effect still to come from the job a thread is at. *)
Definition pending {rt : Runtime} (cfg : Config) (fs1 : FS) (pc : Pc)
  : Effect :=
  match holds pc with
  | Some p => job_effect cfg fs1 p
  | None => Quiet
  end.

(** ** More vocabulary: one thread on its own *)

(** The rest of an iteration, from each statement on. *)
Definition from_write {rt : Runtime} (cfg : Config) (w : World) (p : Path)
  (h : str) (a : Acc) : World :=
  match write_step cfg w p h a with
  | Continue _ w' => w'
  | Caught _ w' => caught w'
  | Go _ => w
  end.

Definition from_read {rt : Runtime} (cfg : Config) (w : World) (p : Path)
  (h : str) : World :=
  match read_step cfg w p with
  | Continue _ w' => w'
  | Caught _ w' => caught w'
  | Go a => from_write cfg w p h a
  end.

Definition from_duplicate {rt : Runtime} (cfg : Config) (w : World) (p : Path)
  (h : str) : World :=
  match duplicate_step cfg w p h with
  | Continue _ w' => w'
  | Caught _ w' => caught w'
  | Go _ => from_read cfg w p h
  end.

Definition from_hash {rt : Runtime} (cfg : Config) (w : World) (p : Path)
  : World :=
  match hash_step w p with
  | Continue _ w' => w'
  | Caught _ w' => caught w'
  | Go h => from_duplicate cfg w p h
  end.

(** The world a single thread leaves when it goes on from [pc] with the
    queue [q] and nobody else is there. *)
Definition alone {rt : Runtime} (cfg : Config) (w : World) (pc : Pc)
  (q : list Path) : World :=
  match pc with
  | Exited => w
  | AtLoop => process_file cfg q w
  | AtHash p => process_file cfg q (from_hash cfg w p)
  | AtDuplicate p h => process_file cfg q (from_duplicate cfg w p h)
  | AtRead p h => process_file cfg q (from_read cfg w p h)
  | AtWrite p h a => process_file cfg q (from_write cfg w p h a)
  end.

(** A line source that fails, if it does, with [UnicodeDecodeError]. *)
Fixpoint decode_errors_only (f : LineStream) : Prop :=
  match f with
  | EndOfFile => True
  | Fail e => is_UnicodeDecodeError e = true
  | Line _ rest => decode_errors_only rest
  end.

(** A term as [get_user_input] stores it: not empty, without white space
    at its ends and without a comma. *)
Definition clean (t : str) : Prop :=
  t <> [] /\ strip t = t /\ ~ In 44%N t.

(** The folder [in]; the default output folder; the default lines; no
    watermark; two filter terms among stray commas and blanks; two
    threads; the types [.txt] and [.log]; no duplicate check. *)
Definition untidy_answers : list str :=
  map a2s ["in"; ""; ""; "n"; " error , ,warn,"; "2"; ".txt, .log"; "n"]%string.

(** ** More vocabulary: the settings *)

(** The settings the menus rely on: a theme that exists and is the current
    one, a number of lines, a number of threads between 1 and 16, a list
    of file types, a watermark flag. *)
Definition well_formed (sh : Menu.Shell) : Prop :=
  let d := Menu.settings sh in
  (exists t, lookup (a2s "theme") d = Some (Menu.VStr t) /\
             existsb (str_eqb t) Menu.theme_names = true /\
             Menu.current_theme sh = t) /\
  (exists n, lookup (a2s "default_lines") d = Some (Menu.VInt n)) /\
  (exists n, lookup (a2s "default_threads") d = Some (Menu.VInt n) /\
             1 <= n <= 16) /\
  (exists l, lookup (a2s "default_file_types") d = Some (Menu.VList l)) /\
  (exists b, lookup (a2s "default_watermark") d = Some (Menu.VBool b)).

(** [list(d.keys())] *)
Definition keys (d : Menu.Dict) : list str := map fst d.

(** A shell as [__init__] leaves it on a machine with eight cores and no
    configuration file. *)
Definition fresh_shell : Menu.Shell :=
  {| Menu.settings := Menu.initial_settings (Some 8);
     Menu.current_theme := a2s "pro_dark";
     Menu.config_file := Menu.Absent;
     Menu.config_writable := true |}.

(** Sixteen threads at most, the second theme, and back to the main
    menu. *)
Definition tuning_answers : list str :=
  map a2s ["3"; "99"; "1"; "2"; "7"]%string.

(** Some changes, then a reset that is confirmed. *)
Definition resetting_answers : list str :=
  map a2s ["3"; "8"; "5"; "6"; "y"; "7"]%string.

(** ** More vocabulary: batch mode *)

(** The counters other than [total_files] are the same. *)
Definition same_but_total (s s' : Stats) : Prop :=
  forall k, k <> TotalFiles -> read k s' = read k s.

(** The folder [batch] with the subfolders [one] and [two], each with a
    text file. *)
Definition two_subfolders : FS :=
  [ (a2s "batch", [ (a2s "one", Subfolder); (a2s "two", Subfolder) ]);
    (a2s "batch/one", [ (a2s "a.txt", file_of_lines ["1"; "2"]%string) ]);
    (a2s "batch/two", [ (a2s "b.txt", file_of_lines ["3"]%string) ]) ].

(** The root folder [batch], the default output root, and yes. *)
Definition batch_answers : list str := map a2s ["batch"; ""; "y"; ""]%string.

(** ** More vocabulary: the output of a job *)

(** The entry [open(p, 'w')] and the write leave where [e] was: a regular
    file that can be written, readable as [e] was. *)
Definition written (e : option Entry) (data : bytes) : option Entry :=
  Some (Regular (match e with Some (Regular r _ _) => r | _ => true end)
                true data).

(** What is at the output path after [write_lines], from what was there:
    [there] says whether the folder exists.  When the text cannot be
    encoded the file has been opened, and is left empty. *)
Definition after_write {rt : Runtime} (there : bool) (e : option Entry)
  (lines : list str) : option Entry :=
  if there && may_write e
  then written e (match encode_utf8 (concat lines) with
                  | Ok data => data
                  | Raise _ => []
                  end)
  else e.

(** The output file of the job on [p], when the job runs on [fs1]. *)
Definition job_output {rt : Runtime} (cfg : Config) (fs1 : FS) (p : Path)
  : option Entry :=
  entry (fs (process_one cfg {| stats := init_stats; fs := fs1 |} p))
        (output_path_of cfg p).

(** The output file of [p] is what the job on [p] leaves. *)
Definition settled {rt : Runtime} (cfg : Config) (fs1 fs2 : FS) (p : Path)
  : Prop :=
  entry fs2 (output_path_of cfg p) = job_output cfg fs1 p.

(** Every output file is as it was on [fs1] or as its job leaves it. *)
Definition outputs_known {rt : Runtime} (cfg : Config) (fs1 fs2 : FS) : Prop :=
  forall p, listed cfg p ->
    entry fs2 (output_path_of cfg p) = entry fs1 (output_path_of cfg p) \/
    settled cfg fs1 fs2 p.

(** The entry at [x] after the jobs on [files], each taken on [fs1]. *)
Definition entry_after {rt : Runtime} (cfg : Config) (fs1 : FS)
  (files : list Path) (x : Path) : option Entry :=
  match find (fun p => path_eqb (output_path_of cfg p) x) files with
  | Some p => job_output cfg fs1 p
  | None => entry fs1 x
  end.

(** Every file is settled, waits in the queue or is in the hands of a
    thread. *)
Definition all_accounted {rt : Runtime} (cfg : Config) (fs1 : FS)
  (files : list Path) (pool : Pool) : Prop :=
  forall p, In p files ->
    settled cfg fs1 (fs (world pool)) p \/
    In p (file_queue pool) \/
    exists pc, In pc (workers pool) /\ holds pc = Some p.

(** The folder [in], the default output folder, [ten] for the lines and
    then [10], no watermark, no filter, and [four] for the threads. *)
Definition in_words_answers : list str :=
  map a2s ["in"; ""; "ten"; "10"; "n"; ""; "four"; ""; "n"]%string.

(** ** More vocabulary: paths and answers as they are typed *)

(** A name of a file or of a folder: not empty, without [/], and neither
    [.] nor [..]. *)
Definition is_name (c : str) : bool :=
  negb (is_empty c) && negb (existsb (N.eqb 47) c)
  && negb (str_eqb c (a2s ".")) && negb (str_eqb c (a2s "..")).

(** A relative path that [Path] keeps as it is written: names separated
    by single [/], so that [str(Path(d))] is [d].  On a file system
    without links two such paths are the same folder only when they are
    the same string. *)
Definition plain (d : str) : bool := forallb is_name (split 47 d).

(** A path made of a plain folder and a name. *)
Definition tidy (x : Path) : bool := plain (folder x) && is_name (name x).

(** The regular file at [x], if there is one. *)
Definition file_at (fs0 : FS) (x : Path) : option Entry :=
  match entry fs0 x with
  | Some (Regular r w data) => Some (Regular r w data)
  | _ => None
  end.

(** Printable ASCII: what [strip] takes from such an answer is blanks. *)
Definition typed (s : str) : bool :=
  forallb (fun c => N.leb 32 c && N.leb c 126) s.

Definition is_letter (c : N) : bool :=
  (N.leb 65 c && N.leb c 90) || (N.leb 97 c && N.leb c 122).

(** An answer with a letter of the alphabet in it: [int()] refuses it,
    whatever else it holds. *)
Definition has_letter (s : str) : bool := existsb is_letter s.

(** Decimal digits only, and no more of them than [int()] takes (4300):
    an answer that is empty, and stands for the default, or that [int()]
    accepts. *)
Definition digits_only (s : str) : bool :=
  forallb (fun c => N.leb 48 c && N.leb c 57) s && (length s <=? 4300)%nat.

(** * Properties *)

(** ** Strings, paths and the digest *)

Lemma str_eqb_eq a : forall b, str_eqb a b = true <-> a = b.
Proof.
  induction a as [| x a IH]; intros [| y b]; simpl;
    try (split; [discriminate | congruence]); [tauto |].
  rewrite andb_true_iff, N.eqb_eq, IH.
  split; [intros [-> ->]; reflexivity | now inversion 1].
Qed.

Lemma str_eqb_refl a : str_eqb a a = true.
Proof. now apply str_eqb_eq. Qed.

Lemma path_eqb_eq p q : path_eqb p q = true <-> p = q.
Proof.
  unfold path_eqb. rewrite andb_true_iff, !str_eqb_eq.
  destruct p, q; simpl; split; [intros [-> ->]; reflexivity | now inversion 1].
Qed.

(** The watermark of a three-line extract of [a.txt]: two line feeds, the
    upper left corner of the box and its 26 bars; 138 characters in
    all. *)
Example watermark_of_a_txt :
  let block :=
    watermark_block (join (a2s "in") (a2s "a.txt"))
      {| content := []; lines_written := 3; filtered := 0 |}
      (a2s "900150983cd24fb0d6963f7d28e17f72") in
  firstn 5 block = [10; 10; 9556; 9552; 9552]%N
  /\ length block = 138%nat
  /\ contains (a2s "SOURCE: a.txt") block = true
  /\ contains (a2s "HASH: 90015098...") block = true.
Proof. vm_compute. repeat split. Qed.

(** The test suite of RFC 1321. *)
Example md5_empty :
  MD5.hexdigest [] = a2s "d41d8cd98f00b204e9800998ecf8427e".
Proof. vm_compute. reflexivity. Qed.

Example md5_abc :
  MD5.hexdigest (bytes_of_string "abc")
  = a2s "900150983cd24fb0d6963f7d28e17f72".
Proof. vm_compute. reflexivity. Qed.

Example md5_long :
  MD5.hexdigest (bytes_of_string
    "12345678901234567890123456789012345678901234567890123456789012345678901234567890")
  = a2s "57edf4a22be3c955ac49da2e2107b67a".
Proof. vm_compute. reflexivity. Qed.



(** ** Steps of a worker *)

Section Steps.

Context {rt : Runtime}.
Variable cfg : Config.

Lemma read_lines_ok f : forall a a' e,
  read_lines cfg f a = (a', e) -> acc_ok a -> acc_ok a'.
Proof.
  induction f as [| x | line rest IH]; simpl; intros a a' e H Ha.
  - inversion H; subst; assumption.
  - inversion H; subst; assumption.
  - destruct (lines_written a >=? lines_to_extract cfg).
    + inversion H; subst; assumption.
    + destruct (is_filtered cfg line);
        (eapply IH; [eassumption |]); unfold acc_ok in *; simpl; lia.
Qed.

Lemma try_encodings_ok fs0 p encs : forall a a',
  try_encodings cfg fs0 p encs a = Ok a' -> acc_ok a -> acc_ok a'.
Proof.
  induction encs as [| enc rest IH]; simpl; intros a a' H Ha.
  - inversion H; subst; assumption.
  - destruct (open_read fs0 p) as [data | e]; simpl in H; [| discriminate].
    destruct (read_lines cfg (open_text enc data) a) as [a1 [e |]] eqn:E.
    + destruct (is_UnicodeDecodeError e); [| discriminate].
      eapply IH; [eassumption |]. eapply read_lines_ok; eassumption.
    + inversion H; subst. eapply read_lines_ok; eassumption.
Qed.

Lemma no_lines_ok : acc_ok no_lines.
Proof. unfold acc_ok; simpl; lia. Qed.

(** Every step of the model is one of the transitions. *)
Lemma step_worker_trans w q pc w' pc' q' :
  step_worker cfg w q pc = (w', pc', q') ->
  exists eff,
    Trans cfg pc q eff pc' q' /\ stats w' = apply_effect eff (stats w).
Proof.
  destruct pc as [| p | p h | p h | p h a |]; simpl.
  - destruct q as [| p q0].
    + inversion 1; subst. exists Quiet; split; [constructor | reflexivity].
    + unfold check_type.
      destruct (has_file_type cfg p) eqn:T; simpl; inversion 1; subst.
      * exists Quiet; split; [now constructor | reflexivity].
      * exists Skip; split; [now constructor | reflexivity].
  - unfold hash_step. destruct (calculate_hash (fs w) p); simpl;
      inversion 1; subst.
    + exists Quiet; split; [constructor | reflexivity].
    + exists Err; split; [constructor | reflexivity].
  - unfold duplicate_step.
    destruct (if check_duplicates cfg then is_duplicate cfg (fs w) p h
              else Ok false) as [[|] | e]; simpl; inversion 1; subst.
    + exists Dup; split; [constructor | reflexivity].
    + exists Quiet; split; [constructor | reflexivity].
    + exists Err; split; [constructor | reflexivity].
  - unfold read_step.
    destruct (try_encodings cfg (fs w) p encodings no_lines) eqn:E; simpl;
      inversion 1; subst.
    + exists Quiet; split; [| reflexivity]. constructor.
      eapply try_encodings_ok; [eassumption | apply no_lines_ok].
    + exists Err; split; [constructor | reflexivity].
  - unfold write_step.
    destruct (write_lines _ _ _) as [fs' [[] | e]]; simpl; inversion 1; subst.
    + exists (Done (lines_written a) (filtered a)); split;
        [constructor | reflexivity].
    + exists Err; split; [constructor | reflexivity].
  - inversion 1; subst. exists Quiet; split; [constructor | reflexivity].
Qed.

End Steps.

(** ** Invariants of the pool *)

Section PoolFacts.

Context {rt : Runtime}.
Variable cfg : Config.

Lemma total_replace (f : Pc -> Z) pc' : forall ws i pc,
  nth_error ws i = Some pc ->
  total f (replace i pc' ws) = total f ws - f pc + f pc'.
Proof.
  induction ws as [| x ws IH]; intros [| i] pc H; simpl in *;
    try discriminate.
  - inversion H; subst. lia.
  - rewrite (IH i pc H). lia.
Qed.

Lemma replace_length pc' : forall ws i,
  length (replace i pc' ws) = length ws.
Proof.
  induction ws as [| x ws IH]; intros [| i]; simpl; auto.
Qed.

Lemma nth_error_replace_other pc' : forall ws i j,
  i <> j -> nth_error (replace i pc' ws) j = nth_error ws j.
Proof.
  induction ws as [| x ws IH]; intros [| i] [| j] H; simpl; auto;
    try contradiction.
Qed.

Lemma Forall_replace (P : Pc -> Prop) pc' : forall ws i,
  Forall P ws -> P pc' -> Forall P (replace i pc' ws).
Proof.
  induction ws as [| x ws IH]; intros [| i] H Hp; simpl; auto;
    inversion H; subst; constructor; auto.
Qed.

(** A step of the pool either does nothing (no such thread) or is a
    transition of the thread. *)
Lemma step_cases pool i :
  (nth_error (workers pool) i = None /\ step cfg pool i = pool) \/
  exists pc eff pc' q',
    nth_error (workers pool) i = Some pc /\
    Trans cfg pc (file_queue pool) eff pc' q' /\
    stats (world (step cfg pool i)) = apply_effect eff (stats (world pool)) /\
    file_queue (step cfg pool i) = q' /\
    workers (step cfg pool i) = replace i pc' (workers pool).
Proof.
  unfold step. destruct (nth_error (workers pool) i) as [pc |] eqn:E.
  - right.
    destruct (step_worker cfg (world pool) (file_queue pool) pc)
      as [[w' pc'] q'] eqn:S.
    destruct (step_worker_trans _ _ _ _ S) as [eff [T Hs]].
    exists pc, eff, pc', q'. simpl. auto.
  - left. auto.
Qed.

Lemma exec_invariant (P : Pool -> Prop) :
  (forall pool i, P pool -> P (step cfg pool i)) ->
  forall sched pool, P pool -> P (exec cfg sched pool).
Proof.
  intros Hstep sched. unfold exec.
  induction sched as [| i sched IH]; simpl; intros pool H; auto.
Qed.

Lemma rounds_invariant (P : Pool -> Prop) :
  (forall pool i, P pool -> P (step cfg pool i)) ->
  forall n pool, P pool -> P (rounds cfg n pool).
Proof.
  intros Hstep n.
  induction n as [| n IH]; simpl; intros pool H; auto.
  apply IH. unfold round. apply exec_invariant; auto.
Qed.

Lemma join_all_invariant (P : Pool -> Prop) :
  (forall pool i, P pool -> P (step cfg pool i)) ->
  forall pool, P pool -> P (join_all cfg pool).
Proof. intros Hstep pool H. unfold join_all. apply rounds_invariant; auto. Qed.

(** *** Every job is counted once *)

Lemma trans_account pc q eff pc' q' s :
  Trans cfg pc q eff pc' q' ->
  progress_n (apply_effect eff s) + inflight pc' + Z.of_nat (length q')
  = progress_n s + inflight pc + Z.of_nat (length q).
Proof.
  destruct 1; unfold progress_n; simpl; lia.
Qed.

Lemma step_account pool i : account (step cfg pool i) = account pool.
Proof.
  destruct (step_cases pool i) as [[_ ->] | (pc & eff & pc' & q' & E & T & Hs & Hq & Hw)];
    [reflexivity |].
  unfold account. rewrite Hs, Hq, Hw, (total_replace _ _ _ _ E).
  pose proof (trans_account (stats (world pool)) T). lia.
Qed.

(** *** The counters only grow *)

Lemma grows_refl s : grows s s.
Proof. unfold grows; repeat split; lia. Qed.

Lemma grows_trans s1 s2 s3 : grows s1 s2 -> grows s2 s3 -> grows s1 s3.
Proof. unfold grows; intros; repeat split; lia. Qed.

Lemma trans_grows pc q eff pc' q' s :
  Trans cfg pc q eff pc' q' -> pc_ok pc ->
  grows s (apply_effect eff s) /\ pc_ok pc'.
Proof.
  destruct 1; simpl; intros Hok; unfold grows, acc_ok in *; simpl;
    repeat split; try lia; try tauto.
Qed.

Lemma step_grows pool i :
  Forall pc_ok (workers pool) ->
  grows (stats (world pool)) (stats (world (step cfg pool i)))
  /\ Forall pc_ok (workers (step cfg pool i)).
Proof.
  intros Hok.
  destruct (step_cases pool i) as [[_ ->] | (pc & eff & pc' & q' & E & T & Hs & Hq & Hw)].
  - split; [apply grows_refl | assumption].
  - assert (pc_ok pc) as Hpc.
    { rewrite Forall_forall in Hok. apply Hok. eapply nth_error_In; eauto. }
    destruct (trans_grows (stats (world pool)) T Hpc) as [G Hpc'].
    rewrite Hs, Hw. split; [assumption |]. now apply Forall_replace.
Qed.

(** *** Duplicates are counted as skipped *)

(** In a queue of files of the accepted types nothing is skipped for its
    type: what is skipped is a duplicate. *)
Lemma trans_typed pc q eff pc' q' s :
  Trans cfg pc q eff pc' q' ->
  Forall (fun p => has_file_type cfg p = true) q ->
  skipped (apply_effect eff s) - duplicates_found (apply_effect eff s)
  = skipped s - duplicates_found s
  /\ Forall (fun p => has_file_type cfg p = true) q'.
Proof.
  destruct 1; simpl; intros Hq; split; try lia; try assumption;
    try (inversion Hq; subst; (assumption || congruence)).
Qed.

(** *** Threads exit, and only on an empty queue *)

Lemma rest_of_nonneg pc : 0 <= rest_of pc.
Proof. destruct pc; simpl; lia. Qed.

Lemma total_nonneg (f : Pc -> Z) ws :
  (forall pc, 0 <= f pc) -> 0 <= total f ws.
Proof.
  intros Hf. induction ws as [| x ws IH]; simpl; [lia |].
  specialize (Hf x). lia.
Qed.

Lemma trans_todo pc q eff pc' q' :
  Trans cfg pc q eff pc' q' ->
  5 * Z.of_nat (length q') + rest_of pc'
  <= 5 * Z.of_nat (length q) + rest_of pc
  /\ (pc <> Exited ->
      5 * Z.of_nat (length q') + rest_of pc'
      < 5 * Z.of_nat (length q) + rest_of pc).
Proof.
  destruct 1; simpl rest_of; simpl length; split; intros; try lia;
    congruence.
Qed.

Lemma step_todo pool i :
  todo (step cfg pool i) <= todo pool /\
  (forall pc, nth_error (workers pool) i = Some pc -> pc <> Exited ->
     todo (step cfg pool i) < todo pool).
Proof.
  destruct (step_cases pool i) as [[E ->] | (pc & eff & pc' & q' & E & T & Hs & Hq & Hw)].
  - split; [lia | intros pc H; congruence].
  - unfold todo. rewrite Hq, Hw, (total_replace _ _ _ _ E).
    destruct (trans_todo T) as [Hle Hlt]. split; [lia |].
    intros pc0 H0 Hne. rewrite E in H0. inversion H0; subst.
    specialize (Hlt Hne). lia.
Qed.

Lemma step_length pool i :
  length (workers (step cfg pool i)) = length (workers pool).
Proof.
  destruct (step_cases pool i) as [[E ->] | (pc & eff & pc' & q' & E & T & Hs & Hq & Hw)];
    [reflexivity |].
  rewrite Hw. apply replace_length.
Qed.

Lemma step_other pool i j :
  i <> j ->
  nth_error (workers (step cfg pool i)) j = nth_error (workers pool) j.
Proof.
  intros Hij.
  destruct (step_cases pool i) as [[E ->] | (pc & eff & pc' & q' & E & T & Hs & Hq & Hw)];
    [reflexivity |].
  rewrite Hw. now apply nth_error_replace_other.
Qed.

Lemma exec_todo sched : forall pool, todo (exec cfg sched pool) <= todo pool.
Proof.
  unfold exec. induction sched as [| i sched IH]; simpl; intros pool; [lia |].
  specialize (IH (step cfg pool i)). pose proof (step_todo pool i). lia.
Qed.

Lemma exec_length sched pool :
  length (workers (exec cfg sched pool)) = length (workers pool).
Proof.
  apply (exec_invariant
           (fun pl => length (workers pl) = length (workers pool))); auto.
  intros pl i H. now rewrite step_length.
Qed.

Lemma exec_other j sched : forall pool,
  ~ In j sched ->
  nth_error (workers (exec cfg sched pool)) j = nth_error (workers pool) j.
Proof.
  unfold exec. induction sched as [| i sched IH]; simpl; intros pool H; auto.
  rewrite IH by tauto. apply step_other. intros ->. tauto.
Qed.

Lemma exec_app s1 s2 pool :
  exec cfg (s1 ++ s2) pool = exec cfg s2 (exec cfg s1 pool).
Proof. unfold exec. apply fold_left_app. Qed.

(** A round makes every live thread advance. *)
Lemma round_todo pool j pc :
  nth_error (workers pool) j = Some pc -> pc <> Exited ->
  todo (round cfg pool) < todo pool.
Proof.
  intros E Hne. unfold round.
  assert (j < length (workers pool))%nat as Hj
      by (apply nth_error_Some; congruence).
  replace (length (workers pool))
    with (j + S (length (workers pool) - S j))%nat by lia.
  rewrite seq_app, exec_app. simpl seq.
  change (exec cfg (j :: ?l) ?pl) with (exec cfg l (step cfg pl j)).
  set (pool1 := exec cfg (seq 0 j) pool).
  assert (nth_error (workers pool1) j = Some pc) as E1.
  { unfold pool1. rewrite exec_other; [assumption |].
    rewrite in_seq. lia. }
  pose proof (exec_todo (seq 0 j) pool) as H1. fold pool1 in H1.
  destruct (step_todo pool1 j) as [_ H2]. specialize (H2 pc E1 Hne).
  pose proof (exec_todo (seq (S j) (length (workers pool) - S j))
                        (step cfg pool1 j)). lia.
Qed.

Lemma all_exited_or_not pool :
  all_exited pool \/
  exists j pc, nth_error (workers pool) j = Some pc /\ pc <> Exited.
Proof.
  unfold all_exited. induction (workers pool) as [| x ws IH].
  - left. constructor.
  - destruct x; try (right; exists 0%nat; eexists; split;
                     [reflexivity | discriminate]).
    destruct IH as [IH | (j & pc & E & Hne)].
    + left. constructor; auto.
    + right. exists (S j), pc. auto.
Qed.

Lemma step_all_exited pool i : all_exited pool -> all_exited (step cfg pool i).
Proof.
  unfold all_exited. intros H.
  destruct (step_cases pool i) as [[E ->] | (pc & eff & pc' & q' & E & T & Hs & Hq & Hw)];
    [assumption |].
  rewrite Hw. apply Forall_replace; [assumption |].
  assert (pc = Exited) as ->.
  { rewrite Forall_forall in H. apply H. eapply nth_error_In; eauto. }
  now inversion T.
Qed.

Lemma rounds_all_exited : forall n pool,
  todo pool <= Z.of_nat n -> all_exited (rounds cfg n pool).
Proof.
  induction n as [| n IH]; intros pool Hn.
  - simpl. destruct (all_exited_or_not pool) as [H | (j & pc & E & Hne)];
      [assumption | exfalso].
    pose proof (round_todo pool j E Hne) as Hlt.
    assert (0 <= todo (round cfg pool)); [| lia].
    unfold todo. pose proof (total_nonneg rest_of
      (workers (round cfg pool)) rest_of_nonneg). lia.
  - simpl. destruct (all_exited_or_not pool) as [H | (j & pc & E & Hne)].
    + apply (rounds_invariant all_exited); [apply step_all_exited |].
      unfold round. apply (exec_invariant all_exited);
        [apply step_all_exited | assumption].
    + apply IH. pose proof (round_todo pool j E Hne). lia.
Qed.

(** The main thread does not wait for ever: every worker exits. *)
Lemma join_all_exited pool : all_exited (join_all cfg pool).
Proof.
  unfold join_all. apply rounds_all_exited.
  assert (0 <= todo pool); [| lia].
  unfold todo. pose proof (total_nonneg rest_of (workers pool) rest_of_nonneg).
  lia.
Qed.

Lemma Exists_replace pc' : forall ws i,
  Exists (fun pc => pc = Exited) (replace i pc' ws) ->
  pc' = Exited \/ Exists (fun pc => pc = Exited) ws.
Proof.
  induction ws as [| x ws IH]; intros [| i] H; simpl in *.
  - inversion H.
  - inversion H.
  - inversion H; subst; auto.
  - inversion H; subst; auto.
    destruct (IH i H1); auto.
Qed.

Lemma step_exits_on_empty pool i :
  exits_on_empty pool -> exits_on_empty (step cfg pool i).
Proof.
  unfold exits_on_empty. intros H.
  destruct (step_cases pool i) as [[E ->] | (pc & eff & pc' & q' & E & T & Hs & Hq & Hw)];
    [assumption |].
  rewrite Hq, Hw. intros Hex.
  destruct (Exists_replace _ _ _ Hex) as [-> | Hex'].
  - inversion T; subst; auto.
    apply H. apply Exists_exists. exists Exited. split; [| reflexivity].
    eapply nth_error_In; eauto.
  - specialize (H Hex'). rewrite H in T. inversion T; subst; auto.
Qed.

(** *** What [run] leaves behind *)

Lemma run_cases sched w : RunCase cfg sched w (run cfg sched w).
Proof.
  unfold run.
  destruct (mkdir (fs w) (output_folder cfg)) as [fs1 | e] eqn:M.
  - destruct (iterdir fs1 (input_folder cfg)) as [listing | e] eqn:I.
    + destruct (matching cfg fs1 listing) as [| f files] eqn:F.
      * eapply run_nothing; eauto.
      * rewrite <- F. eapply run_pool; eauto. congruence.
    + eapply run_no_input; eauto.
  - now apply run_no_output.
Qed.

Lemma pool_invariant (P : Pool -> Prop) sched pool :
  (forall pl i, P pl -> P (step cfg pl i)) ->
  P pool -> P (join_all cfg (exec cfg sched pool)).
Proof.
  intros Hstep H. apply join_all_invariant; [assumption |].
  apply exec_invariant; assumption.
Qed.

Lemma total_repeat_AtLoop (f : Pc -> Z) n :
  f AtLoop = 0 -> total f (repeat AtLoop n) = 0.
Proof. intros H. induction n as [| n IH]; simpl; lia. Qed.

Lemma total_all_exited (f : Pc -> Z) ws :
  f Exited = 0 -> Forall (fun pc => pc = Exited) ws -> total f ws = 0.
Proof.
  intros H. induction 1 as [| x ws Hx _ IH]; simpl; [reflexivity |].
  subst. lia.
Qed.

Lemma effect_total_files eff s :
  total_files (apply_effect eff s) = total_files s.
Proof. destruct eff; reflexivity. Qed.

Lemma step_total_files pool i :
  total_files (stats (world (step cfg pool i)))
  = total_files (stats (world pool)).
Proof.
  destruct (step_cases pool i) as [[E ->] | (pc & eff & pc' & q' & E & T & Hs & Hq & Hw)];
    [reflexivity |].
  rewrite Hs. apply effect_total_files.
Qed.

(** When the pool has at least one thread, the queue is empty once the
    threads have exited, and every file of the queue was counted once. *)
Lemma pool_drains sched w files :
  1 <= threads cfg ->
  let final := join_all cfg (exec cfg sched (start_pool cfg w files)) in
  file_queue final = [] /\
  all_exited final /\
  progress_n (stats (world final))
  = progress_n (stats w) + Z.of_nat (length files).
Proof.
  intros Hthreads final.
  assert (all_exited final) as Hex by apply join_all_exited.
  assert (exits_on_empty final) as Hempty.
  { apply pool_invariant; [apply step_exits_on_empty |].
    intros H. exfalso. simpl in H. apply Exists_exists in H.
    destruct H as (pc & Hin & ->). apply repeat_spec in Hin. discriminate. }
  assert (length (workers final) = Z.to_nat (threads cfg)) as Hlen.
  { apply (pool_invariant
             (fun pl => length (workers pl) = Z.to_nat (threads cfg))).
    - intros pl i H. now rewrite step_length.
    - simpl. apply repeat_length. }
  assert (file_queue final = []) as Hq.
  { apply Hempty. unfold all_exited in Hex.
    destruct (workers final) as [| pc ws]; [simpl in Hlen; lia |].
    inversion Hex; subst. now constructor. }
  assert (account final = account (start_pool cfg w files)) as Hacc.
  { apply (pool_invariant
             (fun pl => account pl = account (start_pool cfg w files)));
      [| reflexivity].
    intros pl i H. now rewrite step_account. }
  repeat split; try assumption.
  unfold account in Hacc. rewrite Hq in Hacc. simpl in Hacc.
  rewrite (total_all_exited inflight eq_refl Hex) in Hacc.
  rewrite (total_repeat_AtLoop inflight _ eq_refl) in Hacc. lia.
Qed.

End PoolFacts.

(** ** What a run does to the counters *)

Section RunFacts.

Context {rt : Runtime}.
Variable cfg : Config.

Lemma step_typed pool i :
  typed_queue cfg pool ->
  skipped (stats (world (step cfg pool i)))
  - duplicates_found (stats (world (step cfg pool i)))
  = skipped (stats (world pool)) - duplicates_found (stats (world pool))
  /\ typed_queue cfg (step cfg pool i).
Proof.
  unfold typed_queue. intros Hq0.
  destruct (step_cases cfg pool i) as [[E ->] | (pc & eff & pc' & q' & E & T & Hs & Hq & Hw)];
    [auto |].
  rewrite Hs, Hq. exact (trans_typed (stats (world pool)) T Hq0).
Qed.

Lemma matching_typed fs1 listing :
  Forall (fun p => has_file_type cfg p = true) (matching cfg fs1 listing).
Proof.
  apply Forall_forall. intros p H. unfold matching in H.
  apply filter_In in H. destruct H as [_ H].
  apply andb_true_iff in H. tauto.
Qed.

Lemma repeat_AtLoop_ok n : Forall pc_ok (repeat AtLoop n).
Proof. apply Forall_forall. intros pc H. apply repeat_spec in H. now subst. Qed.

(** Between two points of an execution of the pool the counters grow and
    [total_files] stays. *)
Lemma exec_grows sched : forall pool,
  Forall pc_ok (workers pool) ->
  grows (stats (world pool)) (stats (world (exec cfg sched pool)))
  /\ Forall pc_ok (workers (exec cfg sched pool)).
Proof.
  unfold exec. induction sched as [| i sched IH]; simpl; intros pool H.
  - split; [apply grows_refl | assumption].
  - destruct (step_grows cfg pool i H) as [G1 H1].
    destruct (IH _ H1) as [G2 H2]. split; [| assumption].
    eapply grows_trans; eassumption.
Qed.

Lemma rounds_grows n : forall pool,
  Forall pc_ok (workers pool) ->
  grows (stats (world pool)) (stats (world (rounds cfg n pool)))
  /\ Forall pc_ok (workers (rounds cfg n pool)).
Proof.
  induction n as [| n IH]; simpl; intros pool H.
  - split; [apply grows_refl | assumption].
  - destruct (exec_grows (seq 0 (length (workers pool))) pool H) as [G1 H1].
    destruct (IH _ H1) as [G2 H2]. split; [| assumption].
    eapply grows_trans; eassumption.
Qed.

Lemma run_grows sched w :
  grows_but_total (stats w) (stats (fst (run cfg sched w))).
Proof.
  destruct (run_cases cfg sched w) as [e M | fs1 e M I | fs1 l M I F | fs1 l M I F];
    simpl; try (unfold grows_but_total; simpl; repeat split; lia).
  set (w2 := with_stats _ _).
  set (pool := start_pool cfg w2 _).
  assert (Forall pc_ok (workers pool)) as Hok by apply repeat_AtLoop_ok.
  destruct (exec_grows sched pool Hok) as [G1 H1].
  destruct (rounds_grows (Z.to_nat (todo (exec cfg sched pool))) _ H1)
    as [G2 _].
  pose proof (grows_trans G1 G2) as G. unfold join_all.
  unfold grows in G. unfold grows_but_total. simpl in G. tauto.
Qed.

(** A run leaves [total_files] at the number of matching files. *)
Lemma run_total_files sched w fs1 listing :
  mkdir (fs w) (output_folder cfg) = Ok fs1 ->
  iterdir fs1 (input_folder cfg) = Ok listing ->
  total_files (stats (fst (run cfg sched w)))
  = Z.of_nat (length (matching cfg fs1 listing)).
Proof.
  intros M I.
  destruct (run_cases cfg sched w) as [e M' | fs1' e M' I' | fs1' l M' I' F | fs1' l M' I' F];
    try congruence.
  - assert (fs1' = fs1) by congruence. subst.
    assert (l = listing) by congruence. subst. rewrite F. reflexivity.
  - assert (fs1' = fs1) by congruence. subst.
    assert (l = listing) by congruence. subst. simpl.
    apply (pool_invariant cfg
             (fun pl => total_files (stats (world pl))
                        = Z.of_nat (length (matching cfg fs1 listing))));
      [| reflexivity].
    intros pl i H. now rewrite step_total_files.
Qed.

(** A run that raises has scheduled nothing: the counters are as before. *)
Lemma run_raises sched w e :
  snd (run cfg sched w) = Raise e ->
  stats (fst (run cfg sched w)) = stats w /\
  (mkdir (fs w) (output_folder cfg) = Raise e \/
   exists fs1, mkdir (fs w) (output_folder cfg) = Ok fs1 /\
               iterdir fs1 (input_folder cfg) = Raise e).
Proof.
  destruct (run_cases cfg sched w) as [e' M | fs1 e' M I | fs1 l M I F | fs1 l M I F];
    simpl; try discriminate; intros H; inversion H; subst.
  - split; [reflexivity | now left].
  - split; [reflexivity |]. right. exists fs1. split; assumption.
Qed.

(** A run on at least one thread counts every matching file once. *)
Lemma run_counts_every_file sched w :
  1 <= threads cfg ->
  snd (run cfg sched w) = Ok tt ->
  progress_n (stats (fst (run cfg sched w)))
  = progress_n (stats w) + total_files (stats (fst (run cfg sched w))).
Proof.
  intros Ht.
  destruct (run_cases cfg sched w) as [e' M | fs1 e' M I | fs1 l M I F | fs1 l M I F];
    simpl; try discriminate; intros _.
  - unfold progress_n. simpl. lia.
  - set (w2 := with_stats _ _).
    destruct (pool_drains cfg sched w2 (matching cfg fs1 l) Ht) as (_ & _ & P).
    rewrite P.
    assert (total_files (stats (world (join_all cfg (exec cfg sched
              (start_pool cfg w2 (matching cfg fs1 l))))))
            = Z.of_nat (length (matching cfg fs1 l))) as T.
    { apply (pool_invariant cfg
               (fun pl => total_files (stats (world pl))
                          = Z.of_nat (length (matching cfg fs1 l))));
        [| reflexivity].
      intros pl i H. now rewrite step_total_files. }
    rewrite T. unfold progress_n, w2. simpl. lia.
Qed.

(** In a run nothing is skipped for its type: [skipped] grows with
    [duplicates_found]. *)
Lemma run_skips_duplicates_only sched w :
  skipped (stats (fst (run cfg sched w)))
  - duplicates_found (stats (fst (run cfg sched w)))
  = skipped (stats w) - duplicates_found (stats w).
Proof.
  destruct (run_cases cfg sched w) as [e' M | fs1 e' M I | fs1 l M I F | fs1 l M I F];
    simpl; try reflexivity.
  set (w2 := with_stats _ _).
  assert (skipped (stats w2) - duplicates_found (stats w2)
          = skipped (stats w) - duplicates_found (stats w)) as <-
      by reflexivity.
  apply (pool_invariant cfg
           (fun pl => skipped (stats (world pl))
                      - duplicates_found (stats (world pl))
                      = skipped (stats w2) - duplicates_found (stats w2)
                      /\ typed_queue cfg pl)).
  - intros pl i [H1 H2]. destruct (step_typed i H2) as [H3 H4].
    split; [lia | assumption].
  - split; [reflexivity | apply matching_typed].
Qed.

End RunFacts.

(** ** The line filter (claim C2) *)

Section LineFilter.

Context {rt : Runtime}.
Variable cfg : Config.






(** Once the cap is reached the loop takes one more line, if there is one,
    and leaves: what follows that line, be it an error of the codec, is
    never met. *)
Lemma read_lines_stops line k : forall lines a,
  lines_to_extract cfg
  <= lines_written (fst (read_lines cfg (emit lines EndOfFile) a)) ->
  read_lines cfg (emit (lines ++ [line]) k) a
  = read_lines cfg (emit lines EndOfFile) a.
Proof.
  induction lines as [| l r IH]; intros a H; simpl in *.
  - destruct (lines_written a >=? lines_to_extract cfg) eqn:C;
      [reflexivity | lia].
  - destruct (lines_written a >=? lines_to_extract cfg); [reflexivity |].
    destruct (is_filtered cfg l); apply IH; assumption.
Qed.

End LineFilter.




(** ** The hasher and the duplicate detector (claims C6 and C10) *)

(** Reading in chunks feeds the hash object the whole file, whatever the
    size of the chunks. *)
Lemma feed_chunks_all size : (0 < size)%nat ->
  forall fuel f h, (length f < fuel)%nat -> feed_chunks size fuel f h = h ++ f.
Proof.
  intros Hsize.
  induction fuel as [| fuel IH]; intros f h Hf; [lia |].
  simpl. destruct (firstn size f) as [| b chunk] eqn:E.
  - assert (length (firstn size f) = 0%nat) as L by now rewrite E.
    rewrite length_firstn in L.
    assert (length f = 0%nat) as L0 by lia.
    apply length_zero_iff_nil in L0. subst. now rewrite app_nil_r.
  - assert (f <> []) as Hne by (intros ->; now rewrite firstn_nil in E).
    rewrite IH.
    + rewrite <- E, <- app_assoc, firstn_skipn. reflexivity.
    + rewrite length_skipn. destruct f; [congruence | cbn [length] in *; lia].
Qed.

(** The digest is the MD5 of the content of the file. *)
Lemma calculate_hash_md5 fs0 p data :
  open_read fs0 p = Ok data ->
  calculate_hash fs0 p = Ok (MD5.hexdigest data).
Proof.
  intros H. unfold calculate_hash. rewrite H. unfold bind.
  rewrite feed_chunks_all; [reflexivity | | lia].
  apply Nat.lt_0_succ.
Qed.

Lemma calculate_hash_raises fs0 p e :
  open_read fs0 p = Raise e -> calculate_hash fs0 p = Raise e.
Proof. intros H. unfold calculate_hash. now rewrite H. Qed.

Lemma iterdir_exists fs0 d listing :
  iterdir fs0 d = Ok listing -> path_exists fs0 d = true.
Proof.
  unfold iterdir, path_exists, is_dir.
  destruct (lookup (norm d) fs0); [reflexivity |].
  destruct (entry fs0 (path_of (norm d))); discriminate.
Qed.

Lemma same_content_iff fs0 filepath file_hash existing_file :
  same_content fs0 filepath file_hash existing_file = true <->
  is_file fs0 existing_file = true /\ existing_file <> filepath /\
  calculate_hash fs0 existing_file = Ok file_hash.
Proof.
  unfold same_content. rewrite !andb_true_iff, negb_true_iff.
  split.
  - intros [[F N] H]. repeat split; try assumption.
    + intros ->. destruct (path_eqb_eq filepath filepath) as [_ R].
      rewrite R in N by reflexivity. discriminate.
    + destruct (calculate_hash fs0 existing_file) as [h |]; [| discriminate].
      apply str_eqb_eq in H. now subst.
  - intros (F & N & H). repeat split; try assumption.
    + destruct (path_eqb existing_file filepath) eqn:E; [| reflexivity].
      apply path_eqb_eq in E. contradiction.
    + rewrite H. apply str_eqb_refl.
Qed.

(** C6.  [is_duplicate] answers [True] exactly when the output folder
    lists a regular file, other than the file given, whose digest (as
    [calculate_hash] computes it) is the digest given; it answers [False]
    when the output folder does not exist and when the folder holds no
    such file. *)
Theorem C6_is_duplicate (cfg : Config) (fs0 : FS) (filepath : Path)
  (file_hash : str) :
  (is_duplicate cfg fs0 filepath file_hash = Ok true <->
   exists listing existing_file,
     iterdir fs0 (output_folder cfg) = Ok listing /\
     In existing_file listing /\
     is_file fs0 existing_file = true /\
     existing_file <> filepath /\
     calculate_hash fs0 existing_file = Ok file_hash)
  /\ (path_exists fs0 (output_folder cfg) = false ->
      is_duplicate cfg fs0 filepath file_hash = Ok false)
  /\ (forall listing,
        iterdir fs0 (output_folder cfg) = Ok listing ->
        (forall f, In f listing -> is_file fs0 f = true -> f <> filepath ->
                   calculate_hash fs0 f <> Ok file_hash) ->
        is_duplicate cfg fs0 filepath file_hash = Ok false).
Proof.
  unfold is_duplicate. repeat split.
  - destruct (path_exists fs0 (output_folder cfg)) eqn:P; simpl;
      [| discriminate].
    destruct (iterdir fs0 (output_folder cfg)) as [listing | e]; simpl;
      [| discriminate].
    intros H.
    assert (existsb (same_content fs0 filepath file_hash) listing = true)
      as H1 by congruence.
    apply existsb_exists in H1.
    destruct H1 as (f & Hin & Hf). apply same_content_iff in Hf.
    destruct Hf as (F & N & Hh). exists listing, f. repeat split; auto.
  - intros (listing & f & I & Hin & F & N & H).
    rewrite (iterdir_exists _ _ I), I. simpl. f_equal.
    apply existsb_exists. exists f. split; [assumption |].
    apply same_content_iff. tauto.
  - intros ->. reflexivity.
  - intros listing I Hnone.
    rewrite (iterdir_exists _ _ I), I. simpl. f_equal.
    destruct (existsb (same_content fs0 filepath file_hash) listing) eqn:E;
      [| reflexivity].
    apply existsb_exists in E. destruct E as (f & Hin & Hf).
    apply same_content_iff in Hf. destruct Hf as (F & N & H).
    exfalso. exact (Hnone f Hin F N H).
Qed.

(** C6, witness: in [one_extract], [b.txt] has the digest of
    [extracted_a.txt] and is reported; with a folder [out] that is not
    there, nothing is. *)
Lemma C6_witness :
  is_duplicate three_lines one_extract (join (a2s "in") (a2s "b.txt"))
    (MD5.hexdigest (bytes_of_string "x" ++ [x0a])) = Ok true
  /\ is_duplicate three_lines txt_and_jpg (join (a2s "in") (a2s "a.txt"))
       (MD5.hexdigest (bytes_of_string "x" ++ [x0a])) = Ok false.
Proof.
  destruct (C6_is_duplicate three_lines one_extract
              (join (a2s "in") (a2s "b.txt"))
              (MD5.hexdigest (bytes_of_string "x" ++ [x0a])))
    as [[_ Hyes] _].
  destruct (C6_is_duplicate three_lines txt_and_jpg
              (join (a2s "in") (a2s "a.txt"))
              (MD5.hexdigest (bytes_of_string "x" ++ [x0a])))
    as [_ [Hno _]].
  split.
  - apply Hyes.
    exists [join (a2s "out") (a2s "extracted_a.txt");
            join (a2s "out") (a2s "notes")],
           (join (a2s "out") (a2s "extracted_a.txt")).
    repeat split; try (vm_compute; reflexivity).
    + left. reflexivity.
    + discriminate.
  - apply Hno. vm_compute. reflexivity.
Defined.

(** C10.  The digest comes first.  A thread that takes a file of an
    accepted type from the queue computes its digest next, whatever the
    duplicate and watermark flags, the text codecs and the output folder.
    When the file can be read in binary mode, the digest is the MD5 of
    its whole content, which the reads of 4096 bytes deliver to the hash
    object; nothing has changed yet, and the job goes on from the
    duplicate test with this digest: no decoding has taken place.  When
    the file cannot be read, the job ends there and is counted as an
    error: the other counters are unchanged and so is the file system (no
    output file). *)
Theorem C10_the_digest_comes_first {rt : Runtime} (cfg : Config) (w : World)
  (input_path : Path) (q : list Path) :
  has_file_type cfg input_path = true ->
  step_worker cfg w (input_path :: q) AtLoop = (w, AtHash input_path, q) /\
  match open_read (fs w) input_path with
  | Ok data =>
      feed_chunks 4096 (S (length data)) data [] = data /\
      calculate_hash (fs w) input_path = Ok (MD5.hexdigest data) /\
      step_worker cfg w q (AtHash input_path)
      = (w, AtDuplicate input_path (MD5.hexdigest data), q) /\
      process_one cfg w input_path
      = from_duplicate cfg w input_path (MD5.hexdigest data)
  | Raise e =>
      calculate_hash (fs w) input_path = Raise e /\
      step_worker cfg w q (AtHash input_path)
      = (with_stats count_error w, AtLoop, q) /\
      process_one cfg w input_path = with_stats count_error w /\
      errors (stats (process_one cfg w input_path)) = errors (stats w) + 1 /\
      processed (stats (process_one cfg w input_path)) = processed (stats w) /\
      skipped (stats (process_one cfg w input_path)) = skipped (stats w) /\
      fs (process_one cfg w input_path) = fs w
  end.
Proof.
  intros T. split.
  - unfold step_worker, check_type. rewrite T. reflexivity.
  - destruct (open_read (fs w) input_path) as [data | e] eqn:O.
    + pose proof (@calculate_hash_md5 _ _ _ O) as Hh.
      split; [| split; [exact Hh | split]].
      * apply (@feed_chunks_all 4096 ltac:(lia) (S (length data)) data []).
        lia.
      * unfold step_worker, hash_step. rewrite Hh. reflexivity.
      * unfold process_one, check_type, hash_step. rewrite T, Hh.
        reflexivity.
    + pose proof (@calculate_hash_raises _ _ _ O) as Hh.
      assert (process_one cfg w input_path = with_stats count_error w) as P.
      { unfold process_one, check_type, hash_step. rewrite T, Hh.
        reflexivity. }
      rewrite P. split; [exact Hh | split]; [| repeat split; auto].
      unfold step_worker, hash_step. rewrite Hh. reflexivity.
Qed.

(** C10, witness: with both flags off, the digest of the six-line [a.txt]
    is its MD5, and the thread is at the duplicate test with it; the
    unreadable [a.txt] is an error and [out] stays empty. *)
Lemma C10_witness :
  calculate_hash txt_and_jpg (join (a2s "in") (a2s "a.txt"))
  = Ok (a2s "f3a4562cd2134c76b4ff170ce6f28fee")
  /\ snd (fst (step_worker three_lines (new_extractor txt_and_jpg) []
                 (AtHash (join (a2s "in") (a2s "a.txt")))))
     = AtDuplicate (join (a2s "in") (a2s "a.txt"))
                   (a2s "f3a4562cd2134c76b4ff170ce6f28fee")
  /\ errors (stats (process_one three_lines (new_extractor unreadable)
                      (join (a2s "in") (a2s "a.txt")))) = 1
  /\ fs (process_one three_lines (new_extractor unreadable)
           (join (a2s "in") (a2s "a.txt"))) = unreadable.
Proof.
  assert (MD5.hexdigest
            (flat_map (fun l => bytes_of_string l ++ [x0a])
                      ["1"; "2"; "3"; "4"; "5"; "6"]%string)
          = a2s "f3a4562cd2134c76b4ff170ce6f28fee") as D
    by (vm_compute; reflexivity).
  destruct (C10_the_digest_comes_first three_lines
              (new_extractor txt_and_jpg) (join (a2s "in") (a2s "a.txt")) [])
    as [_ R]; [vm_compute; reflexivity |].
  change (open_read (fs (new_extractor txt_and_jpg))
            (join (a2s "in") (a2s "a.txt")))
    with (Ok (flat_map (fun l => bytes_of_string l ++ [x0a])
                       ["1"; "2"; "3"; "4"; "5"; "6"]%string)) in R.
  cbv beta iota in R. destruct R as (_ & H & St & _).
  destruct (C10_the_digest_comes_first three_lines
              (new_extractor unreadable) (join (a2s "in") (a2s "a.txt")) [])
    as [_ U]; [vm_compute; reflexivity |].
  change (open_read (fs (new_extractor unreadable))
            (join (a2s "in") (a2s "a.txt")))
    with (@Raise bytes PermissionError) in U.
  cbv beta iota in U. destruct U as (_ & _ & _ & He & _ & _ & Hfs).
  split; [| split; [| split; [exact He | exact Hfs]]].
  - change (fs (new_extractor txt_and_jpg)) with txt_and_jpg in H.
    rewrite H, D. reflexivity.
  - rewrite St, D. reflexivity.
Defined.

(** ** Counters over runs and sessions (claims C1, C4, C5 and C7) *)

(** The first run of an extractor, on at least one thread, leaves
    [processed + skipped + errors = total_files]. *)
Lemma first_run_accounts {rt : Runtime} (cfg : Config) sched fs0 :
  1 <= threads cfg ->
  let s := stats (fst (run cfg sched (new_extractor fs0))) in
  processed s + skipped s + errors s = total_files s.
Proof.
  intros Ht s. subst s.
  destruct (snd (run cfg sched (new_extractor fs0))) as [[] | e] eqn:R.
  - pose proof (run_counts_every_file cfg sched (new_extractor fs0) Ht R) as H.
    unfold progress_n in H. simpl in H. lia.
  - destruct (run_raises cfg sched (new_extractor fs0) R) as [-> _].
    reflexivity.
Qed.

(** In every session [skipped] and [duplicates_found] are equal: [run]
    queues only files of the accepted types. *)
Lemma session_duplicates {rt : Runtime} runs : forall w,
  skipped (stats (session runs w)) - duplicates_found (stats (session runs w))
  = skipped (stats w) - duplicates_found (stats w).
Proof.
  induction runs as [| [cfg sched] runs IH]; intros w; simpl; [reflexivity |].
  pose proof (run_skips_duplicates_only cfg sched w) as H.
  destruct (run cfg sched w) as [w' [[] | e]]; simpl in H.
  - rewrite IH. assumption.
  - assumption.
Qed.

(** C1 (a defect of the code).  Menu entry 1 twice in one session, on the
    folder [in] with [a.txt] and [b.jpg]: after the first run the three
    counters add up to [total_files]; the second run sets [total_files] to
    1 again and adds to [processed], which is then 2, so that
    [processed + skipped + errors] is not [total_files]. *)
Theorem C1_second_run_breaks_the_total :
  let first := stats (session [(three_lines, [])] (new_extractor txt_and_jpg)) in
  let second :=
    stats (session [(three_lines, []); (three_lines, [])]
                   (new_extractor txt_and_jpg)) in
  processed first + skipped first + errors first = total_files first
  /\ total_files second = 1
  /\ processed second = 2 /\ skipped second = 0 /\ errors second = 0
  /\ processed second + skipped second + errors second <> total_files second
  /\ duplicates_found second <= skipped second.
Proof. vm_compute. repeat split; congruence. Qed.

(** C4, counterexample.  The run over [a.txt] and [b.jpg] with the types
    [[".txt"]] ends with [skipped = 0], not 1: [b.jpg] is never queued. *)
Lemma C4_counterexample :
  let s := stats (fst (run three_lines [] (new_extractor txt_and_jpg))) in
  skipped s = 0 /\ skipped s <> 1 /\ processed s = 1 /\ total_files s = 1.
Proof. vm_compute. repeat split; congruence. Qed.

(** C4, as amended.  A job on a file whose extension is not accepted only
    adds one to [skipped]: the other counters and the file system (so: no
    output file) are as before.  [run] never queues such a file: it counts
    in [total_files] the regular files of the accepted types only, and
    what a run adds to [skipped] it adds to [duplicates_found]. *)
Theorem C4_other_extensions {rt : Runtime} (cfg : Config) :
  (forall w p,
     has_file_type cfg p = false ->
     process_one cfg w p = with_stats count_skipped w /\
     skipped (stats (process_one cfg w p)) = skipped (stats w) + 1 /\
     fs (process_one cfg w p) = fs w)
  /\ (forall sched w fs1 listing,
        mkdir (fs w) (output_folder cfg) = Ok fs1 ->
        iterdir fs1 (input_folder cfg) = Ok listing ->
        total_files (stats (fst (run cfg sched w)))
        = Z.of_nat (length (filter (fun f => is_file fs1 f
                                             && has_file_type cfg f) listing)))
  /\ (forall sched w,
        skipped (stats (fst (run cfg sched w))) - skipped (stats w)
        = duplicates_found (stats (fst (run cfg sched w)))
          - duplicates_found (stats w)).
Proof.
  repeat split.
  - unfold process_one, check_type. now rewrite H.
  - unfold process_one, check_type. now rewrite H.
  - unfold process_one, check_type. now rewrite H.
  - intros sched w fs1 listing M I. exact (run_total_files cfg sched w M I).
  - intros sched w. pose proof (run_skips_duplicates_only cfg sched w). lia.
Qed.

(** C4, witness: the job on [b.jpg], and the run over the folder. *)
Lemma C4_witness :
  skipped (stats (process_one three_lines (new_extractor txt_and_jpg)
                    (join (a2s "in") (a2s "b.jpg")))) = 1
  /\ fs (process_one three_lines (new_extractor txt_and_jpg)
           (join (a2s "in") (a2s "b.jpg"))) = txt_and_jpg
  /\ total_files (stats (fst (run three_lines [] (new_extractor txt_and_jpg))))
     = 1.
Proof.
  destruct (C4_other_extensions three_lines) as (Hjob & Htotal & _).
  destruct (Hjob (new_extractor txt_and_jpg) (join (a2s "in") (a2s "b.jpg")))
    as (_ & Hs & Hfs); [vm_compute; reflexivity |].
  split; [exact Hs |]. split; [exact Hfs |].
  rewrite (Htotal [] (new_extractor txt_and_jpg)
             (txt_and_jpg ++ [(a2s "out", [])])
             [join (a2s "in") (a2s "a.txt"); join (a2s "in") (a2s "b.jpg")]);
    vm_compute; reflexivity.
Defined.

Lemma raises_is_caught {rt : Runtime} cfg w p e w' :
  has_file_type cfg p = true ->
  Raises cfg w p e w' ->
  process_one cfg w p = with_stats count_error w' /\ stats w' = stats w.
Proof.
  intros T R. unfold process_one, check_type. rewrite T. simpl.
  unfold hash_step, duplicate_step, read_step, write_step.
  destruct R as [e H | h e H C D | h e H D E | h a fs' e H D E W].
  - rewrite H. split; reflexivity.
  - rewrite H, C, D. split; reflexivity.
  - rewrite H.
    assert ((if check_duplicates cfg then is_duplicate cfg (fs w) p h
             else Ok false) = Ok false) as ->.
    { destruct D as [-> | D]; [reflexivity |].
      destruct (check_duplicates cfg); [assumption | reflexivity]. }
    rewrite E. split; reflexivity.
  - rewrite H.
    assert ((if check_duplicates cfg then is_duplicate cfg (fs w) p h
             else Ok false) = Ok false) as ->.
    { destruct D as [-> | D]; [reflexivity |].
      destruct (check_duplicates cfg); [assumption | reflexivity]. }
    rewrite E, W. split; reflexivity.
Qed.

(** C5.  An exception raised by a step of a job (hashing, duplicate check,
    reading, writing) ends in the handler of the job: [errors] grows by
    one, no other counter changes, and the worker goes on with the rest of
    the queue.  A thread leaves its loop only at the head of the loop, on
    an empty queue.  A run that was started on at least one thread counts
    every queued file once, whatever was raised; [run] itself raises only
    when the output folder cannot be made or the input folder cannot be
    listed, and then nothing was queued and no counter has changed. *)
Theorem C5_errors_stay_in_the_job {rt : Runtime} (cfg : Config) :
  (forall w p e w' file_queue,
     has_file_type cfg p = true ->
     Raises cfg w p e w' ->
     stats (process_one cfg w p) = count_error (stats w) /\
     process_file cfg (p :: file_queue) w
     = process_file cfg file_queue (with_stats count_error w'))
  /\ (forall w q pc w' q',
        step_worker cfg w q pc = (w', Exited, q') ->
        pc = Exited \/ (pc = AtLoop /\ q = []))
  /\ (forall sched w,
        1 <= threads cfg ->
        snd (run cfg sched w) = Ok tt ->
        processed (stats (fst (run cfg sched w)))
        + skipped (stats (fst (run cfg sched w)))
        + errors (stats (fst (run cfg sched w)))
        = processed (stats w) + skipped (stats w) + errors (stats w)
          + total_files (stats (fst (run cfg sched w))))
  /\ (forall sched w e,
        snd (run cfg sched w) = Raise e ->
        stats (fst (run cfg sched w)) = stats w /\
        (mkdir (fs w) (output_folder cfg) = Raise e \/
         exists fs1, mkdir (fs w) (output_folder cfg) = Ok fs1 /\
                     iterdir fs1 (input_folder cfg) = Raise e)).
Proof.
  split; [| split; [| split]].
  - intros w p e w' q T R.
    destruct (raises_is_caught T R) as [P S].
    split.
    + rewrite P. simpl. now rewrite S.
    + unfold process_file. simpl. now rewrite P.
  - intros w q pc w' q' H.
    destruct (step_worker_trans cfg _ _ _ H) as (eff & T & _).
    inversion T; subst; auto.
  - intros sched w Ht R.
    pose proof (run_counts_every_file cfg sched w Ht R) as H.
    unfold progress_n in H. lia.
  - intros sched w e R. exact (run_raises cfg sched w R).
Qed.

(** C5, witness: the job on the unreadable [a.txt] raises while hashing
    and is counted as an error; the worker goes on to [b.txt], and the run
    ends with the two files counted, one as an error and one as
    processed. *)
Lemma C5_witness :
  stats (process_one three_lines (new_extractor one_unreadable)
           (join (a2s "in") (a2s "a.txt"))) = count_error init_stats
  /\ (let s := stats (fst (run three_lines [] (new_extractor one_unreadable))) in
      processed s + skipped s + errors s = 0 + 0 + 0 + total_files s
      /\ total_files s = 2 /\ errors s = 1 /\ processed s = 1).
Proof.
  destruct (C5_errors_stay_in_the_job three_lines) as (Hjob & _ & Hrun & _).
  destruct (Hjob (new_extractor one_unreadable)
                 (join (a2s "in") (a2s "a.txt")) PermissionError
                 (new_extractor one_unreadable) [])
    as [Hs _].
  - vm_compute. reflexivity.
  - apply raises_hashing. vm_compute. reflexivity.
  - split; [exact Hs |]. split.
    + apply (Hrun [] (new_extractor one_unreadable)).
      * vm_compute. discriminate.
      * vm_compute. reflexivity.
    + vm_compute. repeat split.
Defined.

(** C7, counterexample.  The second run of a session starts with the
    counters the first run left: [processed] is 1 and [total_lines] is 3,
    not zero. *)
Lemma C7_counterexample :
  let at_second_run :=
    stats (session [(three_lines, [])] (new_extractor txt_and_jpg)) in
  processed at_second_run = 1 /\ total_lines at_second_run = 3
  /\ total_files at_second_run = 1 /\ at_second_run <> init_stats.
Proof. vm_compute. repeat split; congruence. Qed.

Lemma session_grows {rt : Runtime} runs : forall w,
  grows_but_total (stats w) (stats (session runs w)).
Proof.
  induction runs as [| [cfg sched] runs IH]; intros w; simpl.
  - unfold grows_but_total. repeat split; lia.
  - pose proof (run_grows cfg sched w) as G.
    destruct (run cfg sched w) as [w' [[] | e]]; simpl in G; [| assumption].
    specialize (IH w'). unfold grows_but_total in *. repeat split; lia.
Qed.

(** C7, as amended.  The counters are zero when the extractor is made, not
    at the start of each run.  While the pool of a run works, from any
    point of the execution to any later point and to the end, no counter
    decreases and [total_files] keeps the value [run] gave it.  Over a run
    and over a whole session the counters other than [total_files] never
    decrease: nothing resets them, and the progress bar only reads them. *)
Theorem C7_counters_start_at_zero_and_grow {rt : Runtime} :
  (forall fs0, stats (new_extractor fs0) = init_stats)
  /\ (total_files init_stats = 0 /\ processed init_stats = 0
      /\ skipped init_stats = 0 /\ errors init_stats = 0
      /\ total_lines init_stats = 0 /\ filtered_lines init_stats = 0
      /\ duplicates_found init_stats = 0)
  /\ (forall cfg w files earlier later,
        grows (stats (world (exec cfg earlier (start_pool cfg w files))))
              (stats (world (exec cfg (earlier ++ later)
                                      (start_pool cfg w files)))))
  /\ (forall cfg w files sched,
        grows (stats (world (exec cfg sched (start_pool cfg w files))))
              (stats (world (join_all cfg
                               (exec cfg sched (start_pool cfg w files))))))
  /\ (forall cfg sched w,
        grows_but_total (stats w) (stats (fst (run cfg sched w))))
  /\ (forall runs w, grows_but_total (stats w) (stats (session runs w)))
  /\ (forall s, progress_n s = processed s + errors s + skipped s).
Proof.
  repeat match goal with |- _ /\ _ => split end; try reflexivity.
  - intros cfg w files earlier later. rewrite exec_app.
    destruct (exec_grows cfg earlier (start_pool cfg w files)
                (repeat_AtLoop_ok _)) as [_ H].
    apply (exec_grows cfg later _ H).
  - intros cfg w files sched.
    destruct (exec_grows cfg sched (start_pool cfg w files)
                (repeat_AtLoop_ok _)) as [_ H].
    apply (rounds_grows cfg _ _ H).
  - intros cfg sched w. apply run_grows.
  - intros runs w. apply session_grows.
Qed.

(** ** The configuration (claim C8) *)

Section Validation.

Context {rt : Runtime}.
Variable fs0 : FS.

Lemma ask_input_folder_exists : forall answers default folder rest,
  ask_input_folder fs0 default answers = Ok (folder, rest) ->
  path_exists fs0 folder = true.
Proof.
  induction answers as [| a answers IH]; simpl; intros default folder rest H;
    [discriminate |].
  destruct (path_exists fs0 (or_else (strip a) default)) eqn:E.
  - inversion H; subst. assumption.
  - eapply IH; eassumption.
Qed.

Lemma get_user_input_checked settings answers cfg settings' :
  get_user_input fs0 settings answers = Ok (cfg, settings') ->
  path_exists fs0 (input_folder cfg) = true /\ 1 <= threads cfg <= 16.
Proof.
  unfold get_user_input. intros H.
  destruct (ask_input_folder fs0 (last_input_folder settings) answers)
    as [[inp r1] |] eqn:A; simpl in H; [| discriminate].
  destruct (input r1) as [[a2 r2] |]; simpl in H; [| discriminate].
  destruct (ask_lines (default_lines settings) r2) as [[lines r3] |];
    simpl in H; [| discriminate].
  destruct (input r3) as [[a4 r4] |]; simpl in H; [| discriminate].
  destruct (input r4) as [[a5 r5] |]; simpl in H; [| discriminate].
  destruct (input r5) as [[a6 r6] |]; simpl in H; [| discriminate].
  destruct (if is_empty (strip a6) then Ok (default_threads settings)
            else match parse_int (strip a6) with
                 | Some n => Ok n
                 | None => Raise ValueError
                 end) as [n |]; simpl in H; [| discriminate].
  destruct (input r6) as [[a7 r7] |]; simpl in H; [| discriminate].
  destruct (input r7) as [[a8 r8] |]; simpl in H; [| discriminate].
  inversion H; subst; simpl. split; [| lia].
  eapply ask_input_folder_exists; eassumption.
Qed.

End Validation.

(** With a cap of zero or less the loop over the lines stops at the first
    line it is given: nothing is retained and nothing is counted. *)
Lemma read_lines_no_cap {rt : Runtime} (cfg : Config) f a :
  lines_to_extract cfg <= lines_written a ->
  fst (read_lines cfg f a) = a.
Proof.
  intros H. destruct f as [| e | line rest]; simpl; try reflexivity.
  destruct (lines_written a >=? lines_to_extract cfg) eqn:E; [reflexivity | lia].
Qed.

(** C8, counterexample.  A cap of 0 and a thread count of 99 are entered:
    [get_user_input] returns a configuration (the cap as it is, the count
    cut down to 16), and the run under it queues and processes [a.txt],
    writing an empty extract. *)
Lemma C8_counterexample :
  exists cfg settings',
    get_user_input txt_and_jpg defaults zero_lines_answers = Ok (cfg, settings')
    /\ lines_to_extract cfg = 0 /\ threads cfg = 16
    /\ snd (run cfg [] (new_extractor txt_and_jpg)) = Ok tt
    /\ processed (stats (fst (run cfg [] (new_extractor txt_and_jpg)))) = 1
    /\ total_lines (stats (fst (run cfg [] (new_extractor txt_and_jpg)))) = 0.
Proof.
  eexists. eexists. split; [vm_compute; reflexivity |].
  vm_compute. repeat split.
Qed.

(** C8, as amended.  No configuration error exists in the source.  What
    [get_user_input] returns has an input path that exists (it asks again
    until one does) and a thread count between 1 and 16 (it cuts the
    number entered down to that range); the line cap is the integer
    entered, which may be zero or negative, and then every file read gives
    no line.  When the input folder cannot be listed, [run] raises before
    anything is queued and no counter has changed. *)
Theorem C8_what_is_validated {rt : Runtime} :
  (forall fs0 settings answers cfg settings',
     get_user_input fs0 settings answers = Ok (cfg, settings') ->
     path_exists fs0 (input_folder cfg) = true /\ 1 <= threads cfg <= 16)
  /\ (forall cfg f,
        lines_to_extract cfg <= 0 ->
        fst (read_lines cfg f no_lines) = no_lines)
  /\ (forall cfg sched w fs1 e,
        mkdir (fs w) (output_folder cfg) = Ok fs1 ->
        iterdir fs1 (input_folder cfg) = Raise e ->
        run cfg sched w = (with_fs fs1 w, Raise e)).
Proof.
  repeat split.
  - eapply get_user_input_checked; eassumption.
  - eapply get_user_input_checked; eassumption.
  - eapply get_user_input_checked; eassumption.
  - intros cfg f H. apply read_lines_no_cap. simpl. assumption.
  - intros cfg sched w fs1 e M I. unfold run. rewrite M, I. reflexivity.
Qed.

(** C8, witness: the answers of the counterexample. *)
Lemma C8_witness :
  exists cfg settings',
    get_user_input txt_and_jpg defaults zero_lines_answers = Ok (cfg, settings')
    /\ path_exists txt_and_jpg (input_folder cfg) = true
    /\ 1 <= threads cfg <= 16.
Proof.
  destruct (get_user_input txt_and_jpg defaults zero_lines_answers)
    as [[cfg settings'] | e] eqn:E; [| vm_compute in E; discriminate].
  exists cfg, settings'. split; [reflexivity |].
  destruct C8_what_is_validated as (H & _).
  exact (H txt_and_jpg defaults zero_lines_answers cfg settings' E).
Defined.

(** ** The encodings (claim C3) *)

(** When no encoding is left the loop just ends: the job goes on with what
    the attempts left in its variables.  With every attempt failing at
    once that is nothing, and the file is written empty and counted as
    processed. *)
Lemma all_attempts_fail {rt : Runtime} (cfg : Config) fs0 p data :
  open_read fs0 p = Ok data ->
  (forall enc, open_text enc data = Fail UnicodeDecodeError) ->
  try_encodings cfg fs0 p encodings no_lines = Ok no_lines.
Proof.
  intros O F. unfold encodings. simpl. rewrite O. simpl.
  rewrite !F. reflexivity.
Qed.

Lemma emit_never_fails ls k : never_fails k -> never_fails (emit ls k).
Proof. intros H. induction ls as [| l ls IH]; simpl; assumption. Qed.

(** Latin-1 gives every byte a character: with the reference codecs the
    second attempt always reads the file to its end, and the third and the
    fourth encoding are never tried. *)
Lemma latin_1_never_fails data : never_fails (Codec.text_lines latin_1 data).
Proof.
  unfold Codec.text_lines.
  generalize (Codec.chunked (length (map to_N data)) Codec.chunk_size
                            (map to_N data)) as chunks.
  generalize Codec.fresh as rd.
  intros rd chunks. revert rd.
  induction chunks as [| c cs IH]; intros rd; simpl.
  - destruct (Codec.newlines (Codec.pendingcr rd) (Codec.pending rd) true)
      as [t' cr].
    destruct (Codec.split_lines (Codec.partial rd ++ t') []) as [ls rest].
    apply emit_never_fails. destruct rest; simpl; exact I.
  - destruct (Codec.newlines (Codec.pendingcr rd) (Codec.pending rd ++ c) false)
      as [t' cr].
    destruct (Codec.split_lines (Codec.partial rd ++ t') []) as [ls rest].
    apply emit_never_fails. apply IH.
Qed.

(** C3 (a defect of the code).  On [almost_utf8] the UTF-8 attempt yields
    the first line and then fails, in the second chunk.  Latin-1 decodes
    the whole file, into two lines.  The job does not start again from
    empty variables: it keeps the line of the failed attempt and reads
    three lines, the first one twice; the run writes them (the output
    starts with [a], [a], [b]), counts the file as processed and adds 3 to
    [total_lines]. *)
Theorem C3_lines_of_a_failed_attempt_are_kept :
  let input_path := join (a2s "in") (a2s "a.txt") in
  let line := a2s "a" ++ [10%N] in
  open_text utf_8 almost_utf8 = Line line (Fail UnicodeDecodeError)
  /\ lines_written
       (fst (read_lines five_lines (open_text latin_1 almost_utf8) no_lines))
     = 2
  /\ match try_encodings five_lines one_almost_utf8 input_path encodings
             no_lines with
     | Ok a =>
         lines_written a = 3 /\
         firstn 2 (content a) = [line; line] /\
         map (@length N) (content a) = [2; 2; 90 * 100 + 1]%nat
     | Raise _ => False
     end
  /\ (let w := fst (run five_lines [] (new_extractor one_almost_utf8)) in
      processed (stats w) = 1 /\ errors (stats w) = 0
      /\ total_lines (stats w) = 3
      /\ match open_read (fs w) (join (a2s "out") (a2s "extracted_a.txt")) with
         | Ok data =>
             firstn 5 data = bytes_of_string "a" ++ [x0a]
                             ++ bytes_of_string "a" ++ [x0a]
                             ++ bytes_of_string "b"
         | Raise _ => False
         end).
Proof. vm_compute. repeat split. Qed.

(** With a text layer that refuses the file in all four encodings, no
    error is signalled: the file is written, empty, and counted as
    processed. *)
Example refused_file_is_processed :
  let w := fst (@run refusing five_lines [] (new_extractor one_almost_utf8)) in
  processed (stats w) = 1 /\ errors (stats w) = 0 /\ total_lines (stats w) = 0
  /\ open_read (fs w) (join (a2s "out") (a2s "extracted_a.txt")) = Ok [].
Proof. vm_compute. repeat split. Qed.

(** ** The number of threads (claim C9) *)

(** C9 (a defect of the code).  The same 200 files and the same
    configuration but for the number of threads.  One thread processes
    [f0.txt] and then finds its extract in the output folder for every
    other file: 199 duplicates.  With eight threads taking turns, the
    first eight jobs all look into the output folder before any of them
    has written: eight files are processed and 192 are duplicates. *)
Theorem C9_counters_depend_on_the_threads :
  let one := stats (fst (run (checking 1) [] (new_extractor two_hundred))) in
  let eight := stats (fst (run (checking 8) [] (new_extractor two_hundred))) in
  total_files one = 200 /\ total_files eight = 200
  /\ processed one = 1 /\ skipped one = 199 /\ duplicates_found one = 199
  /\ processed eight = 8 /\ skipped eight = 192 /\ duplicates_found eight = 192
  /\ one <> eight.
Proof. vm_compute. repeat split; congruence. Qed.

(** * Further properties of the program *)

(** ** The file system: what a write changes *)

Lemma str_eqb_neq a b : str_eqb a b = false <-> a <> b.
Proof.
  destruct (str_eqb a b) eqn:E.
  - apply str_eqb_eq in E. split; [discriminate | contradiction].
  - split; [| reflexivity]. intros _ H. apply str_eqb_eq in H. congruence.
Qed.

Lemma lookup_update_same (A : Type) k (v : A) : forall l,
  lookup k (update k v l) = Some v.
Proof.
  induction l as [| [k' v'] l IH]; simpl.
  - now rewrite str_eqb_refl.
  - destruct (str_eqb k k') eqn:E; simpl; rewrite ?E, ?str_eqb_refl; auto.
Qed.

Lemma lookup_update_other (A : Type) k k0 (v : A) : forall l,
  k0 <> k -> lookup k0 (update k v l) = lookup k0 l.
Proof.
  intros l H. apply str_eqb_neq in H.
  induction l as [| [k' v'] l IH]; simpl.
  - now rewrite H.
  - destruct (str_eqb k k') eqn:E; simpl.
    + apply str_eqb_eq in E. subst. now rewrite H.
    + now rewrite IH.
Qed.

Lemma path_neq p q : p <> q -> folder q <> folder p \/ name q <> name p.
Proof.
  intros H. destruct (str_eqb (folder q) (folder p)) eqn:F.
  - right. intros N. apply str_eqb_eq in F. apply H.
    destruct p, q; simpl in *. congruence.
  - left. now apply str_eqb_neq.
Qed.

(** Storing an entry changes that entry and no other. *)
Lemma entry_store_other fs0 p e q :
  q <> p -> entry (store fs0 p e) q = entry fs0 q.
Proof.
  intros H. unfold store, entry.
  destruct (lookup (folder p) fs0) as [l |] eqn:L; [| reflexivity].
  destruct (str_eqb (folder q) (folder p)) eqn:F.
  - apply str_eqb_eq in F. rewrite F, lookup_update_same, L.
    apply lookup_update_other.
    destruct (path_neq (not_eq_sym H)) as [N | N]; congruence.
  - apply str_eqb_neq in F. now rewrite lookup_update_other.
Qed.

Lemma entry_store_same fs0 p e l :
  lookup (folder p) fs0 = Some l -> entry (store fs0 p e) p = Some e.
Proof.
  intros L. unfold store, entry. rewrite L, lookup_update_same.
  apply lookup_update_same.
Qed.

Lemma is_dir_update (A : Type) k (v : A) d : forall l,
  (exists v0, lookup k l = Some v0) ->
  (match lookup d (update k v l) with Some _ => true | None => false end)
  = (match lookup d l with Some _ => true | None => false end).
Proof.
  intros l [v0 H]. destruct (str_eqb d k) eqn:E.
  - apply str_eqb_eq in E. subst. now rewrite lookup_update_same, H.
  - apply str_eqb_neq in E. now rewrite lookup_update_other.
Qed.

Lemma is_dir_store fs0 p e d : is_dir (store fs0 p e) d = is_dir fs0 d.
Proof.
  unfold store, is_dir.
  destruct (lookup (folder p) fs0) as [l |] eqn:L; [| reflexivity].
  apply is_dir_update. eauto.
Qed.

(** Making a folder changes no entry. *)
Lemma entry_mkdir fs0 d fs1 q :
  mkdir fs0 d = Ok fs1 -> entry fs1 q = entry fs0 q.
Proof.
  unfold mkdir. destruct (is_dir fs0 (norm d)) eqn:D.
  - intros H. now inversion H.
  - destruct (entry fs0 (path_of (norm d))); [discriminate |].
    intros H. inversion H; subst. unfold entry.
    unfold is_dir in D.
    assert (forall k (l : FS), lookup k (l ++ [(norm d, [])])
              = match lookup k l with
                | Some v => Some v
                | None => if str_eqb k (norm d) then Some [] else None
                end) as App.
    { intros k l. induction l as [| [k' v'] l IH]; simpl; [reflexivity |].
      destruct (str_eqb k k'); auto. }
    rewrite App. destruct (lookup (folder q) fs0) eqn:L; [reflexivity |].
    destruct (str_eqb (folder q) (norm d)) eqn:E; [| reflexivity].
    reflexivity.
Qed.

Lemma is_dir_mkdir fs0 d fs1 :
  mkdir fs0 d = Ok fs1 -> is_dir fs1 (norm d) = true.
Proof.
  unfold mkdir. destruct (is_dir fs0 (norm d)) eqn:D.
  - intros H. inversion H; subst. assumption.
  - destruct (entry fs0 (path_of (norm d))); [discriminate |].
    intros H. inversion H; subst. unfold is_dir.
    induction fs0 as [| [k' v'] l IH]; simpl.
    + now rewrite str_eqb_refl.
    + unfold is_dir in D. simpl in D.
      destruct (str_eqb (norm d) k'); [reflexivity | auto].
Qed.

Lemma entry_set_data_other fs0 p data q :
  q <> p -> entry (set_data fs0 p data) q = entry fs0 q.
Proof.
  intros H. unfold set_data.
  destruct (entry fs0 p) as [[r w d |] |]; auto using entry_store_other.
Qed.

Lemma entry_open_write_other fs0 p fs1 q :
  open_write fs0 p = Ok fs1 -> q <> p -> entry fs1 q = entry fs0 q.
Proof.
  unfold open_write. intros H N.
  destruct (lookup (folder p) fs0) as [l |]; [| discriminate].
  destruct (lookup (name p) l) as [[r w d |] |]; try discriminate.
  - destruct w; [| discriminate]. inversion H; subst.
    now apply entry_store_other.
  - inversion H; subst. now apply entry_store_other.
Qed.

Section JobFacts.

Context {rt : Runtime}.
Variable cfg : Config.

(** Writing the output leaves every other entry as it was, also when it
    fails. *)
Lemma write_lines_other fs0 out lines q :
  q <> out -> entry (fst (write_lines fs0 out lines)) q = entry fs0 q.
Proof.
  intros N. unfold write_lines.
  destruct (open_write fs0 out) as [fs1 | e] eqn:O; [| reflexivity].
  pose proof (entry_open_write_other _ O N) as H1.
  destruct (encode_utf8 (concat lines)); simpl; [| assumption].
  now rewrite entry_set_data_other.
Qed.

(** After a successful write the output is a regular, writable file that
    holds the UTF-8 form of the lines. *)
Lemma write_lines_stored fs0 out lines fs' :
  write_lines fs0 out lines = (fs', Ok tt) ->
  exists r data,
    encode_utf8 (concat lines) = Ok data /\
    entry fs' out = Some (Regular r true data).
Proof.
  unfold write_lines, open_write.
  destruct (lookup (folder out) fs0) as [l |] eqn:L; [| discriminate].
  destruct (lookup (name out) l) as [[r w d |] |] eqn:E; try discriminate.
  - destruct w; [| discriminate].
    destruct (encode_utf8 (concat lines)) as [data |]; [| discriminate].
    intros H. inversion H; subst. exists r, data. split; [reflexivity |].
    unfold set_data. rewrite (@entry_store_same fs0 out _ l L).
    eapply (@entry_store_same _ out).
    unfold store. rewrite L. apply lookup_update_same.
  - destruct (encode_utf8 (concat lines)) as [data |]; [| discriminate].
    intros H. inversion H; subst. exists true, data. split; [reflexivity |].
    unfold set_data. rewrite (@entry_store_same fs0 out _ l L).
    eapply (@entry_store_same _ out).
    unfold store. rewrite L. apply lookup_update_same.
Qed.

End JobFacts.

(** ** The steps of a thread, with their conditions *)

Section StepFacts.

Context {rt : Runtime}.
Variable cfg : Config.

Lemma step_worker_fires w q pc w' pc' q' :
  step_worker cfg w q pc = (w', pc', q') -> Fires cfg w q pc w' pc' q'.
Proof.
  destruct pc as [| p | p h | p h | p h a |]; simpl.
  - destruct q as [| p q0].
    + inversion 1; subst. constructor.
    + unfold check_type.
      destruct (has_file_type cfg p) eqn:T; simpl; inversion 1; subst;
        now constructor.
  - unfold hash_step. destruct (calculate_hash (fs w) p) eqn:H; simpl;
      inversion 1; subst; econstructor; eassumption.
  - unfold duplicate_step.
    destruct (check_duplicates cfg) eqn:C.
    + destruct (is_duplicate cfg (fs w) p h) as [[|] | e] eqn:D; simpl;
        inversion 1; subst.
      * now apply f_dup.
      * apply f_fresh. now right.
      * eapply f_dup_err; eassumption.
    + simpl. inversion 1; subst. apply f_fresh. now left.
  - unfold read_step.
    destruct (try_encodings cfg (fs w) p encodings no_lines) eqn:E; simpl;
      inversion 1; subst; econstructor; eassumption.
  - unfold write_step. fold (lines_to_write cfg p h a).
    destruct (write_lines (fs w) (output_path_of cfg p)
                          (lines_to_write cfg p h a)) as [fs' [[] | e]] eqn:W;
      simpl; inversion 1; subst.
    + now apply f_write.
    + eapply f_write_err; eassumption.
  - inversion 1; subst. constructor.
Qed.

(** A step of the pool is no step (no such thread) or a step of the
    thread named. *)
Lemma step_fires pool i :
  (nth_error (workers pool) i = None /\ step cfg pool i = pool) \/
  exists pc pc',
    nth_error (workers pool) i = Some pc /\
    Fires cfg (world pool) (file_queue pool) pc
          (world (step cfg pool i)) pc' (file_queue (step cfg pool i)) /\
    workers (step cfg pool i) = replace i pc' (workers pool).
Proof.
  unfold step. destruct (nth_error (workers pool) i) as [pc |] eqn:E.
  - right.
    destruct (step_worker cfg (world pool) (file_queue pool) pc)
      as [[w' pc'] q'] eqn:S.
    exists pc, pc'. simpl. repeat split; auto.
    now apply step_worker_fires.
  - left. auto.
Qed.

End StepFacts.

(** ** The cap, the filter and the duplicate check over a run *)

Section Bounds.

Context {rt : Runtime}.
Variable cfg : Config.

Lemma no_lines_bounded : acc_bounded cfg no_lines.
Proof. unfold acc_bounded. simpl. repeat split; lia. Qed.

Lemma read_lines_bounded f : forall a a' e,
  read_lines cfg f a = (a', e) -> acc_bounded cfg a -> acc_bounded cfg a'.
Proof.
  induction f as [| x | line rest IH]; simpl; intros a a' e H Ha.
  - inversion H; subst; assumption.
  - inversion H; subst; assumption.
  - destruct (lines_written a >=? lines_to_extract cfg) eqn:C.
    + inversion H; subst; assumption.
    + destruct (is_filtered cfg line) eqn:F;
        (eapply IH; [eassumption |]); unfold acc_bounded in *; simpl;
        destruct Ha as (L & B & P & Z0).
      * repeat split; try lia. intros T. unfold is_filtered in F.
        rewrite T in F. discriminate.
      * rewrite length_app. simpl. repeat split; try lia. assumption.
Qed.

Lemma try_encodings_bounded fs0 p encs : forall a a',
  try_encodings cfg fs0 p encs a = Ok a' ->
  acc_bounded cfg a -> acc_bounded cfg a'.
Proof.
  induction encs as [| enc rest IH]; simpl; intros a a' H Ha.
  - inversion H; subst; assumption.
  - destruct (open_read fs0 p) as [data | e]; simpl in H; [| discriminate].
    destruct (read_lines cfg (open_text enc data) a) as [a1 [e |]] eqn:E.
    + destruct (is_UnicodeDecodeError e); [| discriminate].
      eapply IH; [eassumption |]. eapply read_lines_bounded; eassumption.
    + inversion H; subst. eapply read_lines_bounded; eassumption.
Qed.

Lemma within_cap_refl s : within_cap cfg s s.
Proof. unfold within_cap. repeat split; intros; lia. Qed.

Lemma within_cap_trans s1 s2 s3 :
  within_cap cfg s1 s2 -> within_cap cfg s2 s3 -> within_cap cfg s1 s3.
Proof.
  unfold within_cap. intros (A1 & B1 & C1 & D1 & E1) (A2 & B2 & C2 & D2 & E2).
  repeat split; try lia.
  - intros T. rewrite (D2 T). auto.
  - intros T. rewrite (E2 T). auto.
Qed.

Lemma fires_within_cap w q pc w' pc' q' :
  Fires cfg w q pc w' pc' q' ->
  pc_bounded cfg pc ->
  pc_bounded cfg pc' /\ within_cap cfg (stats w) (stats w').
Proof.
  destruct 1; simpl; intros B;
    try (split; [exact I | apply within_cap_refl]).
  - split; [exact I |]. unfold within_cap. simpl.
    repeat split; intros; lia.
  - split; [exact I |]. unfold within_cap. simpl.
    repeat split; intros; lia.
  - split; [exact I |]. unfold within_cap. simpl.
    repeat split; intros; try lia. congruence.
  - split; [exact I |]. unfold within_cap. simpl.
    repeat split; intros; lia.
  - split; [| apply within_cap_refl].
    eapply try_encodings_bounded; [eassumption | apply no_lines_bounded].
  - split; [exact I |]. unfold within_cap. simpl.
    repeat split; intros; lia.
  - split; [exact I |]. destruct B as (L & C & P & Z0).
    unfold within_cap. simpl. repeat split; intros; try lia.
    rewrite Z0 by assumption. lia.
  - split; [exact I |]. unfold within_cap. simpl.
    repeat split; intros; lia.
Qed.

Lemma step_within_cap pool i :
  Forall (pc_bounded cfg) (workers pool) ->
  Forall (pc_bounded cfg) (workers (step cfg pool i)) /\
  within_cap cfg (stats (world pool)) (stats (world (step cfg pool i))).
Proof.
  intros B.
  destruct (step_fires cfg pool i) as [[_ ->] | (pc & pc' & E & F & W)].
  - split; [assumption | apply within_cap_refl].
  - assert (pc_bounded cfg pc) as Hpc.
    { rewrite Forall_forall in B. apply B. eapply nth_error_In; eauto. }
    destruct (fires_within_cap F Hpc) as [Hpc' R].
    split; [| assumption]. rewrite W. now apply Forall_replace.
Qed.

Lemma pool_within_cap sched w files :
  within_cap cfg (stats w)
    (stats (world (join_all cfg (exec cfg sched (start_pool cfg w files))))).
Proof.
  apply (pool_invariant cfg
           (fun pl => Forall (pc_bounded cfg) (workers pl) /\
                      within_cap cfg (stats w) (stats (world pl)))).
  - intros pl i [B R]. destruct (step_within_cap pl i B) as [B' R'].
    split; [assumption |]. eapply within_cap_trans; eassumption.
  - split; [| apply within_cap_refl]. simpl.
    apply Forall_forall. intros pc H. apply repeat_spec in H. now subst.
Qed.

Lemma run_within_cap sched w :
  within_cap cfg (stats w) (stats (fst (run cfg sched w))).
Proof.
  destruct (run_cases cfg sched w) as [e M | fs1 e M I | fs1 l M I F | fs1 l M I F];
    simpl; try apply within_cap_refl.
  - unfold within_cap. simpl. repeat split; intros; lia.
  - set (w2 := with_stats _ _).
    pose proof (pool_within_cap sched w2 (matching cfg fs1 l)) as H.
    unfold within_cap in *. simpl in H. exact H.
Qed.

End Bounds.

(** ** What a run writes *)

Lemma is_dir_set_data fs0 p data d :
  is_dir (set_data fs0 p data) d = is_dir fs0 d.
Proof.
  unfold set_data.
  destruct (entry fs0 p) as [[r w d0 |] |]; auto using is_dir_store.
Qed.

Lemma is_dir_open_write fs0 p fs1 d :
  open_write fs0 p = Ok fs1 -> is_dir fs1 d = is_dir fs0 d.
Proof.
  unfold open_write. intros H.
  destruct (lookup (folder p) fs0) as [l |]; [| discriminate].
  destruct (lookup (name p) l) as [[r w d0 |] |]; try discriminate.
  - destruct w; [| discriminate]. inversion H; subst. apply is_dir_store.
  - inversion H; subst. apply is_dir_store.
Qed.

Section Frame.

Context {rt : Runtime}.
Variable cfg : Config.

Lemma is_dir_write_lines fs0 out lines d :
  is_dir (fst (write_lines fs0 out lines)) d = is_dir fs0 d.
Proof.
  unfold write_lines.
  destruct (open_write fs0 out) as [fs1 | e] eqn:O; [| reflexivity].
  pose proof (@is_dir_open_write _ _ _ d O) as H1.
  destruct (encode_utf8 (concat lines)); simpl; [| assumption].
  now rewrite is_dir_set_data.
Qed.

(** The output paths of two files are equal only if their names are. *)
Lemma output_path_of_name p q :
  output_path_of cfg p = output_path_of cfg q -> name p = name q.
Proof.
  unfold output_path_of, join. intros H. now inversion H.
Qed.

Lemma fires_frame w q pc w' pc' q' :
  Fires cfg w q pc w' pc' q' ->
  (forall x, (forall p, holds pc = Some p -> x <> output_path_of cfg p) ->
             entry (fs w') x = entry (fs w) x) /\
  (forall d, is_dir (fs w') d = is_dir (fs w) d) /\
  (forall p, holds pc' = Some p -> holds pc = Some p \/ In p q) /\
  (forall p, In p q' -> In p q).
Proof.
  destruct 1; simpl; repeat split; auto; try discriminate;
    try (intros p0 H0; inversion H0; subst; auto; fail);
    try (intros; right; assumption).
  - intros x Hx.
    replace fs' with (fst (write_lines (fs w) (output_path_of cfg p)
                             (lines_to_write cfg p h a)))
      by now rewrite H.
    apply write_lines_other. now apply Hx.
  - intros d.
    replace fs' with (fst (write_lines (fs w) (output_path_of cfg p)
                             (lines_to_write cfg p h a)))
      by now rewrite H.
    apply is_dir_write_lines.
  - intros x Hx.
    replace fs' with (fst (write_lines (fs w) (output_path_of cfg p)
                             (lines_to_write cfg p h a)))
      by now rewrite H.
    apply write_lines_other. now apply Hx.
  - intros d.
    replace fs' with (fst (write_lines (fs w) (output_path_of cfg p)
                             (lines_to_write cfg p h a)))
      by now rewrite H.
    apply is_dir_write_lines.
Qed.

Lemma pool_frame sched w files :
  let final := join_all cfg (exec cfg sched (start_pool cfg w files)) in
  (forall x, not_an_output cfg files x ->
             entry (fs (world final)) x = entry (fs w) x) /\
  (forall d, is_dir (fs (world final)) d = is_dir (fs w) d).
Proof.
  intros final.
  assert ((forall p, In p (file_queue final) -> In p files) /\
          (forall pc p, In pc (workers final) -> holds pc = Some p ->
                        In p files) /\
          (forall x, not_an_output cfg files x ->
                     entry (fs (world final)) x = entry (fs w) x) /\
          (forall d, is_dir (fs (world final)) d = is_dir (fs w) d)) as H.
  { apply (pool_invariant cfg
      (fun pl =>
         (forall p, In p (file_queue pl) -> In p files) /\
         (forall pc p, In pc (workers pl) -> holds pc = Some p ->
                       In p files) /\
         (forall x, not_an_output cfg files x ->
                    entry (fs (world pl)) x = entry (fs w) x) /\
         (forall d, is_dir (fs (world pl)) d = is_dir (fs w) d))).
    - intros pl i (Q & W & E & D).
      destruct (step_fires cfg pl i) as [[_ ->] | (pc & pc' & N & F & R)];
        [auto |].
      destruct (fires_frame F) as (F1 & F2 & F3 & F4).
      assert (In pc (workers pl)) as Hin by (eapply nth_error_In; eauto).
      repeat split.
      + intros p Hp. apply Q. now apply F4.
      + intros pc0 p Hpc0 Hh. rewrite R in Hpc0.
        assert (forall ws j, In pc0 (replace j pc' ws) ->
                             pc0 = pc' \/ In pc0 ws) as Rep.
        { induction ws as [| y ws IH]; intros [| j] Hj; simpl in *; auto;
            destruct Hj as [-> | Hj]; auto.
          destruct (IH j Hj); auto. }
        destruct (Rep _ _ Hpc0) as [-> | Hold]; [| eapply W; eauto].
        destruct (F3 p Hh) as [Hp | Hp]; [eapply W; eauto | auto].
      + intros x Hx. rewrite F1; [auto |].
        intros p Hp. apply Hx. eapply W; eauto.
      + intros d. now rewrite F2.
    - simpl. repeat split; auto.
      intros pc p Hpc Hh. apply repeat_spec in Hpc. subst. discriminate. }
  destruct H as (_ & _ & E & D). split; assumption.
Qed.

End Frame.

Section RunFrame.

Context {rt : Runtime}.
Variable cfg : Config.

Lemma run_frame sched w x :
  not_an_output cfg (queued cfg w) x ->
  entry (fs (fst (run cfg sched w))) x = entry (fs w) x.
Proof.
  unfold queued.
  destruct (run_cases cfg sched w) as [e M | fs1 e M I | fs1 l M I F | fs1 l M I F];
    simpl; rewrite ?M, ?I; intros H;
    try reflexivity; try (eapply entry_mkdir; eassumption).
  set (w2 := with_stats _ _).
  destruct (pool_frame cfg sched w2 (matching cfg fs1 l)) as [E _].
  rewrite (E x H). simpl. eapply entry_mkdir; eassumption.
Qed.

Lemma run_folders sched w fs1 :
  mkdir (fs w) (output_folder cfg) = Ok fs1 ->
  forall d, is_dir (fs (fst (run cfg sched w))) d = is_dir fs1 d.
Proof.
  intros M d.
  destruct (run_cases cfg sched w) as [e M' | fs1' e M' I | fs1' l M' I F | fs1' l M' I F];
    simpl; try congruence.
  set (w2 := with_stats _ _).
  destruct (pool_frame cfg sched w2 (matching cfg fs1' l)) as [_ D].
  rewrite D. simpl. congruence.
Qed.

End RunFrame.

(** ** Without the duplicate check the jobs do not see each other *)

Lemma read_apply k e s : read k (apply_effect e s) = read k s + gain k e.
Proof. destruct k, e; simpl; lia. Qed.

Lemma read_ext s s' : (forall k, read k s = read k s') -> s = s'.
Proof.
  intros H. destruct s, s'.
  pose proof (H TotalFiles). pose proof (H Processed).
  pose proof (H Skipped). pose proof (H Errors). pose proof (H TotalLines).
  pose proof (H FilteredLines). pose proof (H DuplicatesFound).
  pose proof (H ArchivesProcessed). simpl in *. congruence.
Qed.

Lemma opens_iff fs0 p :
  match open_write fs0 p with Ok _ => true | Raise _ => false end
  = is_dir fs0 (folder p) && may_write (entry fs0 p).
Proof.
  unfold open_write, is_dir, entry.
  destruct (lookup (folder p) fs0) as [l |]; [| reflexivity].
  destruct (lookup (name p) l) as [[r w d |] |]; try reflexivity.
  destruct w; reflexivity.
Qed.

Section Determinacy.

Context {rt : Runtime}.
Variable cfg : Config.
Variable fs1 : FS.
Hypothesis no_check : check_duplicates cfg = false.
Hypothesis apart : norm (input_folder cfg) <> norm (output_folder cfg).

Lemma writes_iff fs0 out lines :
  match snd (write_lines fs0 out lines) with Ok _ => true | Raise _ => false end
  = match open_write fs0 out with Ok _ => true | Raise _ => false end
    && match encode_utf8 (concat lines) with Ok _ => true | Raise _ => false end.
Proof.
  unfold write_lines. destruct (open_write fs0 out); [| reflexivity].
  destruct (encode_utf8 (concat lines)); reflexivity.
Qed.

Lemma may_write_write_lines fs0 out lines x :
  may_write (entry (fst (write_lines fs0 out lines)) x)
  = may_write (entry fs0 x).
Proof.
  destruct (path_eqb x out) eqn:E.
  - apply path_eqb_eq in E. subst x.
    unfold write_lines, open_write.
    destruct (lookup (folder out) fs0) as [l |] eqn:L; [| reflexivity].
    assert (entry fs0 out = lookup (name out) l) as E0
        by (unfold entry; now rewrite L).
    destruct (lookup (name out) l) as [[r w d |] |] eqn:N; try reflexivity.
    + destruct w; [| reflexivity].
      pose proof (@entry_store_same fs0 out (Regular r true []) l L) as S1.
      destruct (encode_utf8 (concat lines)) as [data | e]; simpl.
      * unfold set_data. rewrite S1.
        assert (exists l', lookup (folder out)
                             (store fs0 out (Regular r true [])) = Some l')
          as [l' L'].
        { unfold store. rewrite L, lookup_update_same. eauto. }
        rewrite (@entry_store_same _ out (Regular r true data) l' L').
        now rewrite E0.
      * now rewrite S1, E0.
    + pose proof (@entry_store_same fs0 out (Regular true true []) l L) as S1.
      destruct (encode_utf8 (concat lines)) as [data | e]; simpl.
      * unfold set_data. rewrite S1.
        assert (exists l', lookup (folder out)
                             (store fs0 out (Regular true true [])) = Some l')
          as [l' L'].
        { unfold store. rewrite L, lookup_update_same. eauto. }
        rewrite (@entry_store_same _ out (Regular true true data) l' L').
        now rewrite E0.
      * now rewrite S1, E0.
  - rewrite write_lines_other; [reflexivity |].
    intros ->. assert (path_eqb out out = true) by now apply path_eqb_eq.
    congruence.
Qed.

Lemma stable_refl : stable cfg fs1 fs1.
Proof. repeat split. Qed.

Lemma stable_write fs0 p lines :
  stable cfg fs1 fs0 ->
  stable cfg fs1 (fst (write_lines fs0 (output_path_of cfg p) lines)).
Proof.
  intros (D & E & M). repeat split.
  - intros d. now rewrite is_dir_write_lines.
  - intros x N. rewrite write_lines_other; [auto |].
    intros ->. now apply N.
  - intros x. now rewrite may_write_write_lines.
Qed.

Lemma stable_entry fs0 p :
  stable cfg fs1 fs0 -> listed cfg p -> entry fs0 p = entry fs1 p.
Proof.
  intros (_ & E & _) [F _]. apply E. now rewrite F.
Qed.

Lemma stable_hash fs0 p :
  stable cfg fs1 fs0 -> listed cfg p ->
  calculate_hash fs0 p = calculate_hash fs1 p.
Proof.
  intros S L. unfold calculate_hash, open_read.
  now rewrite (stable_entry S L).
Qed.

Lemma stable_read fs0 p :
  stable cfg fs1 fs0 -> listed cfg p ->
  forall encs a,
    try_encodings cfg fs0 p encs a = try_encodings cfg fs1 p encs a.
Proof.
  intros S L. induction encs as [| enc encs IH]; intros a; simpl;
    [reflexivity |].
  unfold open_read. rewrite (stable_entry S L).
  destruct (entry fs1 p) as [[r w data |] |]; try reflexivity.
  destruct r; [| reflexivity]. simpl.
  destruct (read_lines cfg (open_text enc data) a) as [a' [e |]];
    [| reflexivity].
  destruct (is_UnicodeDecodeError e); [apply IH | reflexivity].
Qed.

Lemma stable_writes fs0 out lines :
  stable cfg fs1 fs0 ->
  match snd (write_lines fs0 out lines) with Ok _ => true | Raise _ => false end
  = match snd (write_lines fs1 out lines) with Ok _ => true | Raise _ => false end.
Proof.
  intros (D & _ & M). now rewrite !writes_iff, !opens_iff, D, M.
Qed.

(** The effect of a job whose steps went as a thread saw them. *)
Lemma job_effect_hash_err p e :
  listed cfg p -> calculate_hash fs1 p = Raise e -> job_effect cfg fs1 p = Err.
Proof.
  intros [_ T] H. unfold job_effect. now rewrite T, H.
Qed.

Lemma job_effect_read_err p h e :
  listed cfg p -> calculate_hash fs1 p = Ok h ->
  try_encodings cfg fs1 p encodings no_lines = Raise e ->
  job_effect cfg fs1 p = Err.
Proof.
  intros [_ T] H R. unfold job_effect. now rewrite T, H, no_check, R.
Qed.

Lemma job_effect_write p h a :
  listed cfg p -> calculate_hash fs1 p = Ok h ->
  try_encodings cfg fs1 p encodings no_lines = Ok a ->
  job_effect cfg fs1 p
  = if match snd (write_lines fs1 (output_path_of cfg p)
                              (lines_to_write cfg p h a)) with
       | Ok _ => true
       | Raise _ => false
       end
    then Done (lines_written a) (filtered a) else Err.
Proof.
  intros [_ T] H R. unfold job_effect. rewrite T, H, no_check, R. simpl.
  destruct (write_lines fs1 (output_path_of cfg p) (lines_to_write cfg p h a))
    as [fs' [[] | e]]; reflexivity.
Qed.

(** A step of a thread keeps the books: the effect it has on the counters
    and what is then pending are what was pending before. *)
Lemma fires_tally k w q pc w' pc' q' :
  Fires cfg w q pc w' pc' q' ->
  stable cfg fs1 (fs w) -> in_step cfg fs1 pc -> Forall (listed cfg) q ->
  stable cfg fs1 (fs w') /\ in_step cfg fs1 pc' /\ Forall (listed cfg) q' /\
  read k (stats w') + gain k (pending cfg fs1 pc')
    + weigh k (map (job_effect cfg fs1) q')
  = read k (stats w) + gain k (pending cfg fs1 pc)
    + weigh k (map (job_effect cfg fs1) q).
Proof.
  assert (gain k Quiet = 0) as Q0 by (destruct k; reflexivity).
  assert (forall s, read k (count_error s) = read k s + gain k Err) as QE
      by (intros s; apply (read_apply k Err)).
  destruct 1; intros S I L; unfold pending; simpl holds; cbv iota;
    simpl weigh; simpl map; rewrite ?Q0;
    refine (conj _ (conj _ (conj _ _))); try assumption; try exact Logic.I;
    try lia.
  - inversion L; subst. assumption.
  - inversion L as [| ? ? [_ T] ?]; subst. congruence.
  - inversion L; subst. assumption.
  - inversion L; subst. assumption.
  - simpl in I. rewrite (stable_hash S I) in H. split; assumption.
  - simpl in I. rewrite (stable_hash S I) in H.
    rewrite (job_effect_hash_err I H). simpl stats. rewrite QE. lia.
  - congruence.
  - congruence.
  - destruct I as [I Hh]. rewrite (stable_read S I) in H.
    repeat split; try assumption; apply I.
  - destruct I as [I Hh]. rewrite (stable_read S I) in H.
    rewrite (job_effect_read_err I Hh H). simpl stats. rewrite QE. lia.
  - replace fs' with (fst (write_lines (fs w) (output_path_of cfg p)
                             (lines_to_write cfg p h a)))
      by now rewrite H.
    now apply stable_write.
  - destruct I as (I & Hh & Hr).
    rewrite (job_effect_write I Hh Hr).
    rewrite <- (stable_writes (output_path_of cfg p)
                  (lines_to_write cfg p h a) S), H. simpl.
    change (count_processed (lines_written a) (filtered a) (stats w))
      with (apply_effect (Done (lines_written a) (filtered a)) (stats w)).
    rewrite read_apply. lia.
  - replace fs' with (fst (write_lines (fs w) (output_path_of cfg p)
                             (lines_to_write cfg p h a)))
      by now rewrite H.
    now apply stable_write.
  - destruct I as (I & Hh & Hr).
    rewrite (job_effect_write I Hh Hr).
    rewrite <- (stable_writes (output_path_of cfg p)
                  (lines_to_write cfg p h a) S), H. simpl.
    rewrite QE. lia.
Qed.

Lemma step_tally k pool i :
  stable cfg fs1 (fs (world pool)) ->
  Forall (in_step cfg fs1) (workers pool) ->
  Forall (listed cfg) (file_queue pool) ->
  let pool' := step cfg pool i in
  stable cfg fs1 (fs (world pool')) /\
  Forall (in_step cfg fs1) (workers pool') /\
  Forall (listed cfg) (file_queue pool') /\
  read k (stats (world pool'))
    + total (fun pc => gain k (pending cfg fs1 pc)) (workers pool')
    + weigh k (map (job_effect cfg fs1) (file_queue pool'))
  = read k (stats (world pool))
    + total (fun pc => gain k (pending cfg fs1 pc)) (workers pool)
    + weigh k (map (job_effect cfg fs1) (file_queue pool)).
Proof.
  intros S I L pool'. subst pool'.
  destruct (step_fires cfg pool i) as [[_ ->] | (pc & pc' & N & F & R)];
    [refine (conj _ (conj _ (conj _ _))); auto |].
  assert (in_step cfg fs1 pc) as Ipc.
  { rewrite Forall_forall in I. apply I. eapply nth_error_In; eauto. }
  destruct (fires_tally k F S Ipc L) as (S' & I' & L' & E).
  refine (conj _ (conj _ (conj _ _))); auto.
  - rewrite R. now apply Forall_replace.
  - rewrite R, (total_replace _ _ _ _ N). lia.
Qed.

Lemma pool_tally sched w files :
  1 <= threads cfg ->
  fs w = fs1 -> Forall (listed cfg) files ->
  stats (world (join_all cfg (exec cfg sched (start_pool cfg w files))))
  = tally cfg fs1 files (stats w).
Proof.
  intros T E L. apply read_ext. intros k.
  set (final := join_all cfg (exec cfg sched (start_pool cfg w files))).
  destruct (pool_drains cfg sched w files T) as (Q & X & _).
  fold final in Q, X.
  assert (stable cfg fs1 (fs (world final)) /\
          Forall (in_step cfg fs1) (workers final) /\
          Forall (listed cfg) (file_queue final) /\
          read k (stats (world final))
            + total (fun pc => gain k (pending cfg fs1 pc)) (workers final)
            + weigh k (map (job_effect cfg fs1) (file_queue final))
          = read k (stats w) + weigh k (map (job_effect cfg fs1) files))
    as (_ & _ & _ & A).
  { apply (pool_invariant cfg
      (fun pl =>
         stable cfg fs1 (fs (world pl)) /\
         Forall (in_step cfg fs1) (workers pl) /\
         Forall (listed cfg) (file_queue pl) /\
         read k (stats (world pl))
           + total (fun pc => gain k (pending cfg fs1 pc)) (workers pl)
           + weigh k (map (job_effect cfg fs1) (file_queue pl))
         = read k (stats w) + weigh k (map (job_effect cfg fs1) files))).
    - intros pl i (S & I & L0 & A).
      destruct (@step_tally k pl i S I L0) as (S' & I' & L' & A').
      refine (conj _ (conj _ (conj _ _))); auto. lia.
    - simpl. rewrite E. refine (conj _ (conj _ (conj _ _))); auto.
      + apply stable_refl.
      + apply Forall_forall. intros pc H. apply repeat_spec in H. now subst.
      + rewrite total_repeat_AtLoop; [lia |]. destruct k; reflexivity. }
  rewrite Q in A. simpl in A.
  rewrite (total_all_exited (fun pc => gain k (pending cfg fs1 pc))) in A;
    [| destruct k; reflexivity | exact X].
  replace (read k (stats (world final)))
    with (read k (stats w) + weigh k (map (job_effect cfg fs1) files)) by lia.
  clear. unfold tally. generalize (stats w) as s.
  induction files as [| p files IH]; intros s; simpl; [lia |].
  rewrite <- IH, read_apply. lia.
Qed.

(** *** The output files *)

Lemma entry_write_lines fs0 out lines :
  entry (fst (write_lines fs0 out lines)) out
  = after_write (is_dir fs0 (folder out)) (entry fs0 out) lines.
Proof.
  unfold after_write, write_lines, open_write, is_dir.
  destruct (lookup (folder out) fs0) as [l |] eqn:L; [| reflexivity].
  assert (entry fs0 out = lookup (name out) l) as E0
      by (unfold entry; now rewrite L).
  rewrite E0.
  destruct (lookup (name out) l) as [[r w d |] |] eqn:N; simpl;
    try (now rewrite E0).
  - destruct w; simpl; [| now rewrite E0].
    pose proof (@entry_store_same fs0 out (Regular r true []) l L) as S1.
    destruct (encode_utf8 (concat lines)) as [data | e]; simpl;
      [| exact S1].
    unfold set_data. rewrite S1.
    assert (exists l', lookup (folder out)
                         (store fs0 out (Regular r true [])) = Some l')
      as [l' L'].
    { unfold store. rewrite L, lookup_update_same. eauto. }
    exact (@entry_store_same _ out (Regular r true data) l' L').
  - pose proof (@entry_store_same fs0 out (Regular true true []) l L) as S1.
    destruct (encode_utf8 (concat lines)) as [data | e]; simpl;
      [| exact S1].
    unfold set_data. rewrite S1.
    assert (exists l', lookup (folder out)
                         (store fs0 out (Regular true true [])) = Some l')
      as [l' L'].
    { unfold store. rewrite L, lookup_update_same. eauto. }
    exact (@entry_store_same _ out (Regular true true data) l' L').
Qed.

Lemma after_write_twice there e lines :
  after_write there (after_write there e lines) lines
  = after_write there e lines.
Proof.
  unfold after_write. destruct there; simpl; [| reflexivity].
  destruct (may_write e) eqn:M; [| now rewrite M].
  unfold written. simpl. destruct e as [[r w d |] |]; reflexivity.
Qed.

Lemma listed_same_output p p0 :
  listed cfg p -> listed cfg p0 ->
  output_path_of cfg p0 = output_path_of cfg p -> p0 = p.
Proof.
  intros [F _] [F0 _] E. apply output_path_of_name in E.
  destruct p, p0. simpl in *. congruence.
Qed.

Lemma job_output_hash_err p e :
  listed cfg p -> calculate_hash fs1 p = Raise e ->
  job_output cfg fs1 p = entry fs1 (output_path_of cfg p).
Proof.
  intros [_ T] H. unfold job_output, process_one, check_type, hash_step.
  rewrite T. cbn [negb fs]. now rewrite H.
Qed.

Lemma job_output_read_err p h e :
  listed cfg p -> calculate_hash fs1 p = Ok h ->
  try_encodings cfg fs1 p encodings no_lines = Raise e ->
  job_output cfg fs1 p = entry fs1 (output_path_of cfg p).
Proof.
  intros [_ T] H R.
  unfold job_output, process_one, check_type, hash_step, duplicate_step,
    read_step.
  rewrite T. cbn [negb fs]. rewrite H, no_check. cbv iota. now rewrite R.
Qed.

Lemma job_output_write p h a :
  listed cfg p -> calculate_hash fs1 p = Ok h ->
  try_encodings cfg fs1 p encodings no_lines = Ok a ->
  job_output cfg fs1 p
  = after_write (is_dir fs1 (folder (output_path_of cfg p)))
                (entry fs1 (output_path_of cfg p))
                (lines_to_write cfg p h a).
Proof.
  intros [_ T] H R.
  unfold job_output, process_one, check_type, hash_step, duplicate_step,
    read_step, write_step.
  rewrite T. cbn [negb fs]. rewrite H, no_check. cbv iota. rewrite R.
  fold (lines_to_write cfg p h a).
  rewrite <- entry_write_lines.
  destruct (write_lines fs1 (output_path_of cfg p) (lines_to_write cfg p h a))
    as [fs' [[] | e]]; reflexivity.
Qed.

(** After the write of the job on [p], whatever its outcome, the output
    file of [p] is settled. *)
Lemma write_settles fs0 p h a :
  stable cfg fs1 fs0 -> outputs_known cfg fs1 fs0 ->
  listed cfg p -> calculate_hash fs1 p = Ok h ->
  try_encodings cfg fs1 p encodings no_lines = Ok a ->
  settled cfg fs1
    (fst (write_lines fs0 (output_path_of cfg p) (lines_to_write cfg p h a)))
    p.
Proof.
  intros (D & _ & _) K L H R. unfold settled.
  rewrite entry_write_lines, (job_output_write L H R), D.
  destruct (K p L) as [E | E].
  - now rewrite E.
  - unfold settled in E. rewrite E, (job_output_write L H R).
    apply after_write_twice.
Qed.

(** A write of the job on [p] leaves the other output files alone. *)
Lemma write_keeps fs0 p lines :
  listed cfg p -> outputs_known cfg fs1 fs0 ->
  settled cfg fs1 (fst (write_lines fs0 (output_path_of cfg p) lines)) p ->
  outputs_known cfg fs1
    (fst (write_lines fs0 (output_path_of cfg p) lines)) /\
  forall p0, listed cfg p0 -> settled cfg fs1 fs0 p0 ->
    settled cfg fs1 (fst (write_lines fs0 (output_path_of cfg p) lines)) p0.
Proof.
  intros L K Sp. split.
  - intros p0 L0.
    destruct (path_eqb (output_path_of cfg p0) (output_path_of cfg p)) eqn:E.
    + apply path_eqb_eq in E. apply (listed_same_output L L0) in E.
      subst. now right.
    + assert (output_path_of cfg p0 <> output_path_of cfg p) as N.
      { intros X. apply path_eqb_eq in X. congruence. }
      unfold settled. rewrite (write_lines_other _ _ N). apply K, L0.
  - intros p0 L0 S0.
    destruct (path_eqb (output_path_of cfg p0) (output_path_of cfg p)) eqn:E.
    + apply path_eqb_eq in E. apply (listed_same_output L L0) in E.
      now subst.
    + assert (output_path_of cfg p0 <> output_path_of cfg p) as N.
      { intros X. apply path_eqb_eq in X. congruence. }
      unfold settled. now rewrite (write_lines_other _ _ N).
Qed.

(** A step of a thread and the output files: what is settled stays
    settled, the file of a job that ends is settled, and a file leaves the
    queue into the hands of the thread. *)
Lemma fires_outputs w q pc w' pc' q' :
  Fires cfg w q pc w' pc' q' ->
  stable cfg fs1 (fs w) -> in_step cfg fs1 pc -> Forall (listed cfg) q ->
  outputs_known cfg fs1 (fs w) ->
  outputs_known cfg fs1 (fs w') /\
  (forall p, listed cfg p -> settled cfg fs1 (fs w) p ->
             settled cfg fs1 (fs w') p) /\
  (forall p, holds pc = Some p ->
             holds pc' = Some p \/ settled cfg fs1 (fs w') p) /\
  (forall p, In p q -> In p q' \/ holds pc' = Some p).
Proof.
  destruct 1; intros St I L K; simpl fs; simpl holds;
    try (refine (conj K (conj (fun _ _ X => X) (conj _ _)));
         [ intros p0 X; first [discriminate X | now left] | ];
         intros p0 X; solve [now left | destruct X as [<- | X];
                                        [now right | now left]]).
  - inversion L as [| ? ? [_ T] ?]; subst. congruence.
  - (* the hash fails *)
    refine (conj K (conj (fun _ _ X => X) (conj _ _)));
      [| intros p0 X; now left].
    intros p0 X. inversion X; subst p0. right.
    simpl in I. rewrite (stable_hash St I) in H.
    unfold settled. rewrite (job_output_hash_err I H).
    destruct (K p I) as [E | E]; [exact E |].
    unfold settled in E. now rewrite E, (job_output_hash_err I H).
  - congruence.
  - congruence.
  - (* reading fails *)
    refine (conj K (conj (fun _ _ X => X) (conj _ _)));
      [| intros p0 X; now left].
    intros p0 X. inversion X; subst p0. right.
    destruct I as [I Hh]. rewrite (stable_read St I) in H.
    unfold settled. rewrite (job_output_read_err I Hh H).
    destruct (K p I) as [E | E]; [exact E |].
    unfold settled in E. now rewrite E, (job_output_read_err I Hh H).
  - (* the write *)
    destruct I as (I & Hh & Hr).
    pose proof (write_settles St K I Hh Hr) as Sp.
    destruct (write_keeps _ I K Sp) as [K' S'].
    rewrite H in Sp, K', S'. simpl in Sp, K', S'.
    refine (conj K' (conj S' (conj _ _))); [| intros p0 X; now left].
    intros p0 X. inversion X; subst p0. now right.
  - destruct I as (I & Hh & Hr).
    pose proof (write_settles St K I Hh Hr) as Sp.
    destruct (write_keeps _ I K Sp) as [K' S'].
    rewrite H in Sp, K', S'. simpl in Sp, K', S'.
    refine (conj K' (conj S' (conj _ _))); [| intros p0 X; now left].
    intros p0 X. inversion X; subst p0. now right.
Qed.

Lemma In_replace pc' pc0 : forall ws i pc,
  nth_error ws i = Some pc -> In pc0 ws ->
  In pc0 (replace i pc' ws) \/ pc0 = pc.
Proof.
  induction ws as [| x ws IH]; intros [| i] pc N I; simpl in *;
    try discriminate.
  - inversion N; subst. destruct I as [-> | I]; [now right | left; now right].
  - destruct I as [-> | I]; [left; now left |].
    destruct (IH i pc N I) as [H | H]; [left; now right | now right].
Qed.

Lemma In_replaced pc' : forall ws i pc,
  nth_error ws i = Some pc -> In pc' (replace i pc' ws).
Proof.
  induction ws as [| x ws IH]; intros [| i] pc N; simpl in *;
    try discriminate.
  - now left.
  - right. eapply IH; eassumption.
Qed.

Lemma step_outputs files pool i :
  Forall (listed cfg) files ->
  stable cfg fs1 (fs (world pool)) ->
  Forall (in_step cfg fs1) (workers pool) ->
  Forall (listed cfg) (file_queue pool) ->
  outputs_known cfg fs1 (fs (world pool)) ->
  all_accounted cfg fs1 files pool ->
  outputs_known cfg fs1 (fs (world (step cfg pool i))) /\
  all_accounted cfg fs1 files (step cfg pool i).
Proof.
  intros Lf St I L K A.
  destruct (step_fires cfg pool i) as [[_ ->] | (pc & pc' & N & F & R)];
    [split; assumption |].
  assert (in_step cfg fs1 pc) as Ipc.
  { rewrite Forall_forall in I. apply I. eapply nth_error_In; eauto. }
  destruct (fires_outputs F St Ipc L K) as (K' & S' & H' & Q').
  split; [exact K' |].
  intros p Hp. rewrite Forall_forall in Lf.
  destruct (A p Hp) as [S0 | [Q0 | (pc0 & I0 & H0)]].
  - left. apply S'; auto.
  - destruct (Q' p Q0) as [Q1 | H1]; [right; now left |].
    right. right. exists pc'. split; [| exact H1].
    rewrite R. eapply In_replaced; eassumption.
  - destruct (@In_replace pc' pc0 _ _ _ N I0) as [I1 | ->].
    + right. right. exists pc0. split; [now rewrite R | exact H0].
    + destruct (H' p H0) as [H1 | S1]; [| now left].
      right. right. exists pc'. split; [| exact H1].
      rewrite R. eapply In_replaced; eassumption.
Qed.

Lemma pool_outputs sched w files :
  1 <= threads cfg ->
  fs w = fs1 -> Forall (listed cfg) files ->
  forall p, In p files ->
    settled cfg fs1
      (fs (world (join_all cfg (exec cfg sched (start_pool cfg w files))))) p.
Proof.
  intros T E Lf p Hp.
  set (final := join_all cfg (exec cfg sched (start_pool cfg w files))).
  destruct (pool_drains cfg sched w files T) as (Q & X & _).
  fold final in Q, X.
  assert (stable cfg fs1 (fs (world final)) /\
          Forall (in_step cfg fs1) (workers final) /\
          Forall (listed cfg) (file_queue final) /\
          outputs_known cfg fs1 (fs (world final)) /\
          all_accounted cfg fs1 files final) as (_ & _ & _ & _ & A).
  { apply (pool_invariant cfg
      (fun pl =>
         stable cfg fs1 (fs (world pl)) /\
         Forall (in_step cfg fs1) (workers pl) /\
         Forall (listed cfg) (file_queue pl) /\
         outputs_known cfg fs1 (fs (world pl)) /\
         all_accounted cfg fs1 files pl)).
    - intros pl i (St & I & L & K & A).
      destruct (@step_tally Processed pl i St I L) as (St' & I' & L' & _).
      destruct (step_outputs i Lf St I L K A) as [K' A'].
      refine (conj St' (conj I' (conj L' (conj K' A')))).
    - simpl. rewrite E.
      refine (conj stable_refl (conj _ (conj Lf (conj _ _)))).
      + apply Forall_forall. intros pc H. apply repeat_spec in H. now subst.
      + intros p0 _. now left.
      + intros p0 H0. right. now left. }
  destruct (A p Hp) as [S0 | [Q0 | (pc0 & I0 & H0)]].
  - exact S0.
  - rewrite Q in Q0. destruct Q0.
  - unfold all_exited in X. rewrite Forall_forall in X.
    rewrite (X pc0 I0) in H0. discriminate.
Qed.

(** *** What a run leaves for the next one *)

Lemma lookup_store_other fs0 p e d :
  d <> folder p -> lookup d (store fs0 p e) = lookup d fs0.
Proof.
  intros N. unfold store.
  destruct (lookup (folder p) fs0); [| reflexivity].
  now apply lookup_update_other.
Qed.

Lemma lookup_write_lines_other fs0 out lines d :
  d <> folder out ->
  lookup d (fst (write_lines fs0 out lines)) = lookup d fs0.
Proof.
  intros N. unfold write_lines, open_write.
  destruct (lookup (folder out) fs0) as [l |] eqn:L; [| reflexivity].
  destruct (lookup (name out) l) as [[r w0 d0 |] |]; try reflexivity.
  - destruct w0; [| reflexivity].
    destruct (encode_utf8 (concat lines)); simpl.
    + unfold set_data.
      destruct (entry (store fs0 out (Regular r true [])) out)
        as [[r1 w1 d1 |] |]; rewrite ?lookup_store_other by assumption;
        reflexivity.
    + now apply lookup_store_other.
  - destruct (encode_utf8 (concat lines)); simpl.
    + unfold set_data.
      destruct (entry (store fs0 out (Regular true true [])) out)
        as [[r1 w1 d1 |] |]; rewrite ?lookup_store_other by assumption;
        reflexivity.
    + now apply lookup_store_other.
Qed.

Lemma fires_next w q pc w' pc' q' :
  Fires cfg w q pc w' pc' q' ->
  (stable cfg fs1 (fs w) -> stable cfg fs1 (fs w')) /\
  (forall d, d <> norm (output_folder cfg) ->
             lookup d (fs w') = lookup d (fs w)).
Proof.
  destruct 1; simpl fs; try (split; [auto | reflexivity]).
  - replace fs' with (fst (write_lines (fs w) (output_path_of cfg p)
                             (lines_to_write cfg p h a)))
      by now rewrite H.
    split; [apply stable_write |].
    intros d N. now apply lookup_write_lines_other.
  - replace fs' with (fst (write_lines (fs w) (output_path_of cfg p)
                             (lines_to_write cfg p h a)))
      by now rewrite H.
    split; [apply stable_write |].
    intros d N. now apply lookup_write_lines_other.
Qed.

Lemma pool_next sched w files :
  fs w = fs1 ->
  let final := join_all cfg (exec cfg sched (start_pool cfg w files)) in
  stable cfg fs1 (fs (world final)) /\
  (forall d, d <> norm (output_folder cfg) ->
             lookup d (fs (world final)) = lookup d fs1).
Proof.
  intros E final. subst final.
  apply (pool_invariant cfg
           (fun pl => stable cfg fs1 (fs (world pl)) /\
                      forall d, d <> norm (output_folder cfg) ->
                                lookup d (fs (world pl)) = lookup d fs1)).
  - intros pl i [St Lk].
    destruct (step_fires cfg pl i) as [[_ ->] | (pc & pc' & N & F & R)];
      [split; assumption |].
    destruct (fires_next F) as [St' Lk'].
    split; [auto |]. intros d Nd. rewrite Lk' by assumption. auto.
  - simpl. rewrite E. split; [apply stable_refl | reflexivity].
Qed.

End Determinacy.

Lemma iterdir_folder fs0 d listing p :
  iterdir fs0 d = Ok listing -> In p listing -> folder p = norm d.
Proof.
  unfold iterdir. destruct (lookup (norm d) fs0) as [l |].
  - intros H. inversion H; subst. intros I. apply in_map_iff in I.
    destruct I as (e & <- & _). reflexivity.
  - destruct (entry fs0 (path_of (norm d))); discriminate.
Qed.

Lemma matching_listed {rt : Runtime} (cfg : Config) fs1 listing :
  iterdir fs1 (input_folder cfg) = Ok listing ->
  Forall (listed cfg) (matching cfg fs1 listing).
Proof.
  intros I. apply Forall_forall. intros p H. unfold matching in H.
  apply filter_In in H. destruct H as [H T].
  apply andb_true_iff in T. split; [| tauto].
  eapply iterdir_folder; eassumption.
Qed.

(** The counters after a run, when the duplicate check is off and the
    output folder is not the input folder: those of the jobs taken one by
    one on the file system [run] started from. *)
Lemma run_tally {rt : Runtime} (cfg : Config) sched w fs1 listing :
  check_duplicates cfg = false ->
  norm (input_folder cfg) <> norm (output_folder cfg) ->
  1 <= threads cfg ->
  mkdir (fs w) (output_folder cfg) = Ok fs1 ->
  iterdir fs1 (input_folder cfg) = Ok listing ->
  stats (fst (run cfg sched w))
  = tally cfg fs1 (matching cfg fs1 listing)
      (set_total_files (Z.of_nat (length (matching cfg fs1 listing)))
                       (stats w)).
Proof.
  intros C A T M I. unfold run. rewrite M, I.
  destruct (matching cfg fs1 listing) as [| f files] eqn:F; [reflexivity |].
  rewrite <- F. simpl fst.
  rewrite (@pool_tally rt cfg fs1 C A sched _ (matching cfg fs1 listing) T);
    [reflexivity | reflexivity | now apply matching_listed].
Qed.

(** ** One thread *)

Section OneThread.

Context {rt : Runtime}.
Variable cfg : Config.

Lemma process_one_from_hash w p :
  process_one cfg w p
  = match check_type cfg w p with
    | Continue _ w' => w'
    | Caught _ w' => caught w'
    | Go _ => from_hash cfg w p
    end.
Proof. reflexivity. Qed.

Lemma step_worker_alone w q pc w' pc' q' :
  step_worker cfg w q pc = (w', pc', q') ->
  alone cfg w' pc' q' = alone cfg w pc q.
Proof.
  destruct pc as [| p | p h | p h | p h a |]; simpl.
  - destruct q as [| p q0]; [inversion 1; reflexivity |].
    unfold process_file. simpl. rewrite process_one_from_hash.
    destruct (check_type cfg w p); simpl; inversion 1; reflexivity.
  - unfold from_hash.
    destruct (hash_step w p); simpl; inversion 1; reflexivity.
  - unfold from_duplicate.
    destruct (duplicate_step cfg w p h); simpl; inversion 1; reflexivity.
  - unfold from_read.
    destruct (read_step cfg w p); simpl; inversion 1; reflexivity.
  - unfold from_write.
    destruct (write_step cfg w p h a) as [[] | |]; simpl; inversion 1;
      reflexivity.
  - inversion 1; reflexivity.
Qed.

Lemma step_alone pool i pc :
  workers pool = [pc] ->
  exists pc', workers (step cfg pool i) = [pc'] /\
    alone cfg (world (step cfg pool i)) pc' (file_queue (step cfg pool i))
    = alone cfg (world pool) pc (file_queue pool).
Proof.
  intros W. unfold step. rewrite W. destruct i as [| i]; simpl.
  - destruct (step_worker cfg (world pool) (file_queue pool) pc)
      as [[w' pc'] q'] eqn:S.
    exists pc'. simpl. split; [reflexivity |].
    now apply step_worker_alone.
  - destruct i; simpl; exists pc; rewrite W; split; reflexivity.
Qed.

Lemma pool_alone sched w files :
  threads cfg = 1 ->
  world (join_all cfg (exec cfg sched (start_pool cfg w files)))
  = process_file cfg files w.
Proof.
  intros T.
  set (final := join_all cfg (exec cfg sched (start_pool cfg w files))).
  assert (exists pc, workers final = [pc] /\
            alone cfg (world final) pc (file_queue final)
            = process_file cfg files w) as (pc & W & A).
  { apply (pool_invariant cfg
      (fun pl => exists pc, workers pl = [pc] /\
                   alone cfg (world pl) pc (file_queue pl)
                   = process_file cfg files w)).
    - intros pl i (pc & W & A).
      destruct (step_alone pl i W) as (pc' & W' & A').
      exists pc'. split; [assumption | congruence].
    - exists AtLoop. simpl. rewrite T. split; reflexivity. }
  assert (all_exited final) as X by apply join_all_exited.
  unfold all_exited in X. rewrite W in X. inversion X; subst.
  exact A.
Qed.

(** A job and its effect: the counters after [process_one] are those
    before with the effect of the job applied. *)
Lemma process_one_effect w p :
  stats (process_one cfg w p)
  = apply_effect (job_effect cfg (fs w) p) (stats w).
Proof.
  unfold process_one, job_effect, check_type, hash_step, duplicate_step,
    read_step, write_step.
  destruct (has_file_type cfg p); cbn [negb]; [| reflexivity].
  destruct (calculate_hash (fs w) p) as [h | e]; [| reflexivity].
  destruct (if check_duplicates cfg then is_duplicate cfg (fs w) p h
            else Ok false) as [[|] | e]; try reflexivity.
  destruct (try_encodings cfg (fs w) p encodings no_lines) as [a | e];
    [| reflexivity].
  fold (lines_to_write cfg p h a).
  destruct (write_lines (fs w) (output_path_of cfg p)
                        (lines_to_write cfg p h a)) as [fs' [[] | e]];
    reflexivity.
Qed.

End OneThread.

(** ** The encodings, with the reference codecs *)

Lemma read_lines_never_fails {rt : Runtime} (cfg : Config) f :
  never_fails f -> forall a, snd (read_lines cfg f a) = None.
Proof.
  induction f as [| e | line rest IH]; simpl; intros H a;
    [reflexivity | contradiction |].
  destruct (lines_written a >=? lines_to_extract cfg); [reflexivity |].
  destruct (is_filtered cfg line); apply IH; assumption.
Qed.

Lemma read_lines_decode_error {rt : Runtime} (cfg : Config) f :
  decode_errors_only f ->
  forall a a' e, read_lines cfg f a = (a', Some e) ->
                 is_UnicodeDecodeError e = true.
Proof.
  induction f as [| e0 | line rest IH]; simpl; intros H a a' e R.
  - discriminate.
  - inversion R; subst. assumption.
  - destruct (lines_written a >=? lines_to_extract cfg); [discriminate |].
    destruct (is_filtered cfg line); eapply IH; eassumption.
Qed.

Lemma emit_decode_errors_only ls k :
  decode_errors_only k -> decode_errors_only (emit ls k).
Proof. intros H. induction ls as [| l ls IH]; simpl; assumption. Qed.

Lemma utf8_run_bad final : forall fuel bs acc e,
  Codec.utf8_run fuel bs acc final = Codec.Bad e -> e = UnicodeDecodeError.
Proof.
  induction fuel as [| fuel IH]; intros bs acc e; simpl.
  - destruct bs; discriminate.
  - destruct bs as [| b0 r]; [discriminate |].
    destruct (Codec.utf8_step b0 r) as [cp rest | |].
    + apply IH.
    + destruct final; [| discriminate]. now inversion 1.
    + now inversion 1.
Qed.

Lemma utf_8_fails_with_decode_errors data :
  decode_errors_only (Codec.text_lines utf_8 data).
Proof.
  unfold Codec.text_lines.
  generalize (Codec.chunked (length (map to_N data)) Codec.chunk_size
                            (map to_N data)) as chunks.
  generalize Codec.fresh as rd.
  intros rd chunks. revert rd.
  induction chunks as [| c cs IH]; intros rd; simpl.
  - destruct (Codec.utf8_run (length (Codec.pending rd)) (Codec.pending rd)
                             [] true) as [t p o | e] eqn:D.
    + destruct (Codec.newlines (Codec.pendingcr rd) t true) as [t' cr].
      destruct (Codec.split_lines (Codec.partial rd ++ t') []) as [ls rest].
      apply emit_decode_errors_only. destruct rest; simpl; exact I.
    + apply utf8_run_bad in D. subst. reflexivity.
  - destruct (Codec.utf8_run (length (Codec.pending rd ++ c))
                             (Codec.pending rd ++ c) [] false)
      as [t p o | e] eqn:D.
    + destruct (Codec.newlines (Codec.pendingcr rd) t false) as [t' cr].
      destruct (Codec.split_lines (Codec.partial rd ++ t') []) as [ls rest].
      apply emit_decode_errors_only. apply IH.
    + apply utf8_run_bad in D. subst. reflexivity.
Qed.

(** ** The lists typed at the prompt *)

Lemma reverse_rev (s : str) : reverse s = rev s.
Proof. unfold reverse. symmetry. apply rev_alt. Qed.

Lemma lstrip_head u c r : lstrip u = c :: r -> is_space c = false.
Proof.
  induction u as [| x u IH]; simpl; [discriminate |].
  destruct (is_space x) eqn:E; [assumption |].
  intros H. inversion H; subst. assumption.
Qed.

Lemma lstrip_fixed s :
  (forall c r, s = c :: r -> is_space c = false) -> lstrip s = s.
Proof.
  destruct s as [| c r]; [reflexivity |]. intros H. simpl.
  now rewrite (H c r eq_refl).
Qed.

Lemma lstrip_idem s : lstrip (lstrip s) = lstrip s.
Proof.
  apply lstrip_fixed. intros c r H. eapply lstrip_head; eassumption.
Qed.

Lemma lstrip_suffix s : exists pre, s = pre ++ lstrip s.
Proof.
  induction s as [| c s [pre IH]]; simpl.
  - exists []. reflexivity.
  - destruct (is_space c).
    + exists (c :: pre). simpl. now rewrite <- IH.
    + exists []. reflexivity.
Qed.

Lemma strip_trimmed u :
  lstrip (strip u) = strip u /\ lstrip (reverse (strip u)) = reverse (strip u).
Proof.
  unfold strip. rewrite !reverse_rev. split.
  - apply lstrip_fixed. intros c r H.
    destruct (lstrip_suffix (rev (lstrip u))) as [pre P].
    remember (lstrip (rev (lstrip u))) as y eqn:Y.
    assert (y = rev (c :: r)) as Yr by (rewrite <- H; now rewrite rev_involutive).
    simpl in Yr. rewrite Yr in P.
    apply (f_equal (@rev N)) in P. rewrite rev_involutive in P.
    rewrite app_assoc, rev_app_distr in P. simpl in P.
    eapply lstrip_head; eassumption.
  - rewrite rev_involutive. apply lstrip_idem.
Qed.

Lemma strip_idem u : strip (strip u) = strip u.
Proof.
  destruct (strip_trimmed u) as [A B]. unfold strip at 1.
  rewrite A, B, !reverse_rev. apply rev_involutive.
Qed.

Lemma lstrip_incl s c : In c (lstrip s) -> In c s.
Proof.
  destruct (lstrip_suffix s) as [pre P]. intros H. rewrite P.
  apply in_or_app. now right.
Qed.

Lemma strip_incl s c : In c (strip s) -> In c s.
Proof.
  unfold strip. rewrite !reverse_rev. intros H.
  apply in_rev in H. apply lstrip_incl in H. apply in_rev in H.
  now apply lstrip_incl in H.
Qed.

Lemma split_no_separator sep s :
  Forall (fun w => ~ In sep w) (split sep s).
Proof.
  induction s as [| c s IH]; simpl.
  - constructor; [intros [] | constructor].
  - destruct (N.eqb c sep) eqn:E.
    + constructor; [intros [] | assumption].
    + destruct (split sep s) as [| w ws]; inversion IH; subst.
      * constructor; [| constructor]. intros [H | []].
        subst. now rewrite N.eqb_refl in E.
      * constructor; [| assumption]. intros [H | H].
        -- subst. now rewrite N.eqb_refl in E.
        -- contradiction.
Qed.

Lemma comma_separated_clean s : Forall clean (comma_separated s).
Proof.
  unfold comma_separated. apply Forall_forall. intros t H.
  apply filter_In in H. destruct H as [H E].
  apply in_map_iff in H. destruct H as (w & <- & W).
  pose proof (split_no_separator 44 s) as S.
  rewrite Forall_forall in S. repeat split.
  - intros Z. rewrite Z in E. discriminate.
  - apply strip_idem.
  - intros C. apply (S w W). now apply strip_incl.
Qed.

(** ** The settings menu *)

Lemma keys_update k v : forall d : Menu.Dict,
  lookup k d <> None -> keys (update k v d) = keys d.
Proof.
  unfold keys. induction d as [| [k' v'] d IH]; simpl; [congruence |].
  destruct (str_eqb k k') eqn:E; simpl; intros H.
  - apply str_eqb_eq in E. now subst.
  - now rewrite IH.
Qed.

Ltac other_key :=
  rewrite lookup_update_other by (intros X; vm_compute in X; discriminate X).

(** The settings after one key was assigned. *)
Ltac after_setitem :=
  unfold well_formed, Menu.setitem;
  cbn [Menu.settings Menu.with_settings Menu.with_theme Menu.current_theme];
  rewrite lookup_update_same; repeat other_key;
  refine (conj _ (conj _ (conj _ (conj _ _)))); try assumption.

Section MenuFacts.

Import Menu.
Context {rt : Runtime}.

Lemma theme_chosen choice :
  1 <= choice <= Z.of_nat (length theme_names) ->
  existsb (str_eqb (nth (Z.to_nat (choice - 1)) theme_names [])) theme_names
  = true.
Proof.
  simpl. intros H.
  assert (choice = 1 \/ choice = 2 \/ choice = 3) as [-> | [-> | ->]] by lia;
    reflexivity.
Qed.

Lemma change_theme_well_formed answer sh :
  well_formed sh ->
  snd (change_theme answer sh) = Returned tt /\
  well_formed (fst (change_theme answer sh)) /\
  keys (settings (fst (change_theme answer sh))) = keys (settings sh) /\
  config_file (fst (change_theme answer sh)) = config_file sh /\
  config_writable (fst (change_theme answer sh)) = config_writable sh.
Proof.
  intros W. unfold change_theme.
  destruct (parse_int (strip answer)) as [choice |]; [| simpl; auto 8].
  destruct ((1 <=? choice) && (choice <=? Z.of_nat (length theme_names)))
    eqn:R; [| simpl; auto 8].
  apply andb_true_iff in R. destruct R as [R1 R2].
  apply Z.leb_le in R1. apply Z.leb_le in R2.
  pose proof (theme_chosen (conj R1 R2)) as T.
  set (name := nth (Z.to_nat (choice - 1)) theme_names []) in *.
  unfold getitem, setitem. cbn [settings with_settings].
  rewrite lookup_update_same. cbn [and_then themes_getitem].
  rewrite T. cbn [fst snd].
  destruct W as ((t & Wt & _) & Wl & Wn & Wf & Ww).
  split; [reflexivity |]. split; [| split; [| split; reflexivity]].
  - after_setitem. exists name. repeat split. exact T.
  - cbn [settings with_settings with_theme]. apply keys_update. congruence.
Qed.

Lemma change_setting_lines answer sh :
  well_formed sh ->
  let sh' := change_setting (a2s "default_lines") (fun x => x) answer sh in
  well_formed sh' /\ keys (settings sh') = keys (settings sh) /\
  config_file sh' = config_file sh /\
  config_writable sh' = config_writable sh.
Proof.
  intros W sh'. subst sh'. unfold change_setting.
  destruct (parse_int (strip answer)) as [n |]; [| auto 8].
  destruct W as (Wt & (n0 & Wl) & Wn & Wf & Ww).
  split; [| split; [| split; reflexivity]].
  - after_setitem. eauto.
  - apply keys_update. congruence.
Qed.

Lemma change_setting_threads answer sh :
  well_formed sh ->
  let sh' := change_setting (a2s "default_threads")
                            (fun x => Z.min 16 (Z.max 1 x)) answer sh in
  well_formed sh' /\ keys (settings sh') = keys (settings sh) /\
  config_file sh' = config_file sh /\
  config_writable sh' = config_writable sh.
Proof.
  intros W sh'. subst sh'. unfold change_setting.
  destruct (parse_int (strip answer)) as [n |]; [| auto 8].
  destruct W as (Wt & Wl & (n0 & Wn & _) & Wf & Ww).
  split; [| split; [| split; reflexivity]].
  - after_setitem. exists (Z.min 16 (Z.max 1 n)). split; [reflexivity | lia].
  - apply keys_update. congruence.
Qed.

Lemma change_file_types_well_formed answer sh :
  well_formed sh ->
  let sh' := change_file_types answer sh in
  well_formed sh' /\ keys (settings sh') = keys (settings sh) /\
  config_file sh' = config_file sh /\
  config_writable sh' = config_writable sh.
Proof.
  intros W sh'. subst sh'. unfold change_file_types.
  destruct (is_empty (strip answer)); [auto 8 |].
  destruct W as (Wt & Wl & Wn & (l & Wf) & Ww).
  split; [| split; [| split; reflexivity]].
  - after_setitem. eauto.
  - apply keys_update. congruence.
Qed.

Lemma toggle_watermark_well_formed sh :
  well_formed sh ->
  snd (toggle_watermark sh) = Returned tt /\
  well_formed (fst (toggle_watermark sh)) /\
  keys (settings (fst (toggle_watermark sh))) = keys (settings sh) /\
  config_file (fst (toggle_watermark sh)) = config_file sh /\
  config_writable (fst (toggle_watermark sh)) = config_writable sh.
Proof.
  intros W. unfold toggle_watermark, getitem.
  destruct W as (Wt & Wl & Wn & Wf & (b & Ww)). rewrite Ww. cbn [fst snd].
  split; [reflexivity |]. split; [| split; [| split; reflexivity]].
  - after_setitem. eauto.
  - apply keys_update. congruence.
Qed.

(** Resetting ends with [KeyError]: the new dictionary names a theme that
    is not there. *)
Lemma reset_settings_raises sh :
  reset_settings sh
  = (with_settings default_settings sh,
     Raised (KeyError (VStr (a2s "default")))).
Proof. reflexivity. Qed.

Lemma show_settings_well_formed sh :
  well_formed sh -> show_settings (settings sh) = Returned tt.
Proof.
  intros ((t & Wt & _) & (n & Wl) & (m & Wn & _) & (l & Wf) & (b & Ww)).
  unfold show_settings, getitem. now rewrite Wt, Wl, Wn, Wf, Ww.
Qed.

Lemma answered_cases choice answer sh :
  well_formed sh ->
  let r := answered choice answer sh in
  config_file (fst r) = config_file sh /\
  config_writable (fst r) = config_writable sh /\
  match snd r with
  | Returned _ =>
      well_formed (fst r) /\ keys (settings (fst r)) = keys (settings sh)
  | Raised e =>
      e = KeyError (VStr (a2s "default")) /\
      settings (fst r) = default_settings
  end.
Proof.
  intros W r. subst r. unfold answered.
  destruct (str_eqb choice (a2s "1")).
  { destruct (change_theme_well_formed answer W) as (O & W' & K & C & D).
    rewrite O. auto. }
  destruct (str_eqb choice (a2s "2")).
  { destruct (change_setting_lines answer W) as (W' & K & C & D).
    simpl. auto. }
  destruct (str_eqb choice (a2s "3")).
  { destruct (change_setting_threads answer W) as (W' & K & C & D).
    simpl. auto. }
  destruct (str_eqb choice (a2s "4")).
  { destruct (change_file_types_well_formed answer W) as (W' & K & C & D).
    simpl. auto. }
  destruct (str_eqb (str_lower answer) (a2s "y")).
  - rewrite reset_settings_raises. simpl. auto.
  - simpl. auto.
Qed.

(** What [settings_menu] leaves, however it ends. *)
Lemma settings_menu_cases : forall n answers sh,
  (length answers <= n)%nat ->
  well_formed sh ->
  let r := settings_menu answers sh in
  config_writable (fst r) = config_writable sh /\
  match snd r with
  | Returned _ =>
      well_formed (fst r) /\
      keys (settings (fst r)) = keys (settings sh) /\
      config_file (fst r)
      = if config_writable sh then Holds (settings (fst r))
        else config_file sh
  | Raised e =>
      config_file (fst r) = config_file sh /\
      (e = Builtin EOFError \/
       e = KeyError (VStr (a2s "default")) /\
       settings (fst r) = default_settings)
  end.
Proof.
  induction n as [| n IH]; intros answers sh L W r; subst r.
  - destruct answers; [| simpl in L; lia]. simpl.
    rewrite (show_settings_well_formed W). simpl. auto.
  - destruct answers as [| first rest]; simpl;
      rewrite (show_settings_well_formed W); [simpl; auto |].
    simpl in L.
    destruct (asks (strip first)).
    + destruct rest as [| answer rest']; [simpl; auto |].
      pose proof (answered_cases (strip first) answer W) as A.
      destruct (answered (strip first) answer sh) as [sh' [[] | e]];
        simpl in A; destruct A as (C & D & A).
      * destruct A as [W' K].
        assert (length rest' <= n)%nat as L' by (simpl in L; lia).
        pose proof (IH rest' sh' L' W') as R. simpl in R.
        destruct R as [D' R]. split; [congruence |].
        destruct (snd (settings_menu rest' sh')) as [[] | e].
        -- destruct R as (W2 & K2 & C2). rewrite D in C2.
           split; [exact W2 | split; [congruence |]].
           destruct (config_writable sh); congruence.
        -- destruct R as (C2 & E). split; [congruence | assumption].
      * simpl. split; [assumption |]. split; [assumption |]. now right.
    + destruct (str_eqb (strip first) (a2s "5")).
      * destruct (toggle_watermark_well_formed W) as (O & W' & K & C & D).
        destruct (toggle_watermark sh) as [sh' o]. simpl in *. subst o.
        assert (length rest <= n)%nat as L' by lia.
        pose proof (IH rest sh' L' W') as R. simpl in R.
        destruct R as [D' R]. split; [congruence |].
        destruct (snd (settings_menu rest sh')) as [[] | e].
        -- destruct R as (W2 & K2 & C2). rewrite D in C2.
           split; [exact W2 | split; [congruence |]].
           destruct (config_writable sh); congruence.
        -- destruct R as (C2 & E). split; [congruence | assumption].
      * destruct (str_eqb (strip first) (a2s "7")).
        -- unfold save_settings.
           destruct (config_writable sh) eqn:Cw; simpl; rewrite ?Cw;
             (split; [reflexivity | split; [exact W | split; reflexivity]]).
        -- assert (length rest <= n)%nat as L' by lia.
           exact (IH rest sh L' W).
Qed.

End MenuFacts.

(** ** The configuration file *)

Lemma lookup_update (A : Type) k k0 (v : A) l :
  lookup k0 (update k v l) = if str_eqb k0 k then Some v else lookup k0 l.
Proof.
  destruct (str_eqb k0 k) eqn:E.
  - apply str_eqb_eq in E. subst. apply lookup_update_same.
  - apply str_eqb_neq in E. now apply lookup_update_other.
Qed.

Lemma lookup_keys k : forall d : Menu.Dict,
  existsb (str_eqb k) (keys d) = match lookup k d with Some _ => true | None => false end.
Proof.
  induction d as [| [k' v'] d IH]; simpl; [reflexivity |].
  destruct (str_eqb k k'); simpl; auto.
Qed.

(** Two dictionaries with the same keys, none of them twice, and the same
    value at every key are the same. *)
Lemma lookup_absent k (d : Menu.Dict) : ~ In k (keys d) -> lookup k d = None.
Proof.
  intros H. pose proof (lookup_keys k d) as X.
  destruct (lookup k d); [| reflexivity].
  exfalso. apply H. apply existsb_exists in X.
  destruct X as (x & I & E). apply str_eqb_eq in E. now subst.
Qed.

Lemma dict_ext : forall d1 d2 : Menu.Dict,
  keys d1 = keys d2 ->
  NoDup (keys d1) ->
  (forall k, lookup k d1 = lookup k d2) ->
  d1 = d2.
Proof.
  unfold keys.
  induction d1 as [| [k1 v1] d1 IH]; intros [| [k2 v2] d2] K N L;
    try discriminate; [reflexivity |].
  simpl in K. injection K as Ek Ks. subst k1.
  simpl in N. inversion N as [| ? ? Hn N']; subst.
  pose proof (L k2) as L2. simpl in L2. rewrite str_eqb_refl in L2.
  injection L2 as Ev. subst v1. f_equal.
  apply IH; [assumption | assumption |].
  intros k. pose proof (L k) as Lk. simpl in Lk.
  destruct (str_eqb k k2) eqn:E; [| assumption].
  apply str_eqb_eq in E. subst.
  rewrite (@lookup_absent k2 d1) by exact Hn.
  rewrite (@lookup_absent k2 d2); [reflexivity |].
  unfold keys. now rewrite <- Ks.
Qed.

Section LoadFacts.

Import Menu.
Variable loaded : Dict.

(** The loop of [load_settings] over some keys of the settings. *)
Lemma load_loop : forall ks sh,
  (forall k, In k ks -> lookup k (settings sh) <> None) ->
  let sh' :=
    fold_left (fun sh' key => match lookup key loaded with
                              | Some v => setitem key v sh'
                              | None => sh'
                              end) ks sh in
  keys (settings sh') = keys (settings sh) /\
  current_theme sh' = current_theme sh /\
  config_file sh' = config_file sh /\
  config_writable sh' = config_writable sh /\
  forall k, lookup k (settings sh')
            = match lookup k loaded with
              | Some v => if existsb (str_eqb k) ks then Some v
                          else lookup k (settings sh)
              | None => lookup k (settings sh)
              end.
Proof.
  induction ks as [| a ks IH]; intros sh H sh'; subst sh'; simpl.
  - repeat split. intros k. now destruct (lookup k loaded).
  - set (sh1 := match lookup a loaded with
                | Some v => setitem a v sh
                | None => sh
                end).
    assert (keys (settings sh1) = keys (settings sh)) as K1.
    { subst sh1. destruct (lookup a loaded); [| reflexivity].
      apply keys_update. apply H. now left. }
    assert (forall k, lookup k (settings sh1)
                      = match lookup a loaded with
                        | Some v => if str_eqb k a then Some v
                                    else lookup k (settings sh)
                        | None => lookup k (settings sh)
                        end) as L1.
    { intros k. subst sh1. destruct (lookup a loaded); [| reflexivity].
      apply lookup_update. }
    assert (forall k, In k ks -> lookup k (settings sh1) <> None) as H1.
    { intros k I. rewrite L1. destruct (lookup a loaded).
      - destruct (str_eqb k a); [discriminate | apply H; now right].
      - apply H. now right. }
    destruct (IH sh1 H1) as (K & T & C & W & L).
    assert (current_theme sh1 = current_theme sh /\
            config_file sh1 = config_file sh /\
            config_writable sh1 = config_writable sh) as (T1 & C1 & W1)
        by (subst sh1; destruct (lookup a loaded); repeat split).
    repeat split; try congruence.
    intros k. rewrite L, L1.
    destruct (str_eqb k a) eqn:E; simpl.
    + apply str_eqb_eq in E. subst k.
      destruct (lookup a loaded); [| reflexivity].
      now destruct (existsb (str_eqb a) ks).
    + destruct (lookup k loaded); destruct (lookup a loaded); reflexivity.
Qed.

End LoadFacts.

Lemma initial_keys_differ cpu_count :
  NoDup (keys (Menu.initial_settings cpu_count)).
Proof.
  unfold keys, Menu.initial_settings. simpl map.
  repeat (constructor;
          [ intros H; simpl in H;
            repeat (destruct H as [H | H];
                    [vm_compute in H; discriminate H |]);
            exact H | ]).
  constructor.
Qed.

Lemma load_settings_spec sh loaded :
  Menu.config_file sh = Menu.Holds loaded ->
  let sh' := Menu.load_settings sh in
  keys (Menu.settings sh') = keys (Menu.settings sh) /\
  Menu.current_theme sh' = Menu.current_theme sh /\
  forall k, lookup k (Menu.settings sh')
            = match lookup k (Menu.settings sh), lookup k loaded with
              | Some _, Some v => Some v
              | old, _ => old
              end.
Proof.
  intros C sh'. subst sh'. unfold Menu.load_settings. rewrite C.
  destruct (@load_loop loaded (map fst (Menu.settings sh)) sh)
    as (K & T & _ & _ & L).
  - intros k I. pose proof (lookup_keys k (Menu.settings sh)) as X.
    assert (existsb (str_eqb k) (keys (Menu.settings sh)) = true) as Y.
    { apply existsb_exists. exists k. split; [exact I | apply str_eqb_refl]. }
    rewrite Y in X. destruct (lookup k (Menu.settings sh)); congruence.
  - split; [exact K | split; [exact T |]].
    intros k. rewrite L.
    change (map fst (Menu.settings sh)) with (keys (Menu.settings sh)).
    rewrite lookup_keys.
    destruct (lookup k loaded); destruct (lookup k (Menu.settings sh));
      reflexivity.
Qed.

(** ** Batch mode *)

Lemma grows_but_total_refl s : grows_but_total s s.
Proof. unfold grows_but_total. repeat split; lia. Qed.

Lemma grows_but_total_trans s1 s2 s3 :
  grows_but_total s1 s2 -> grows_but_total s2 s3 -> grows_but_total s1 s3.
Proof. unfold grows_but_total. intros H1 H2. repeat split; lia. Qed.

Lemma same_but_total_refl s : same_but_total s s.
Proof. intros k _. reflexivity. Qed.

Lemma same_but_total_set n s : same_but_total s (set_total_files n s).
Proof. intros k H. destruct k; try reflexivity. now elim H. Qed.

Lemma run_without_attributes_keeps inp out w :
  let w' := fst (run_without_attributes inp out w) in
  same_but_total (stats w) (stats w') /\
  forall x, entry (fs w') x = entry (fs w) x.
Proof.
  unfold run_without_attributes.
  destruct (mkdir (fs w) out) as [fs1 | e] eqn:M; simpl.
  - destruct (iterdir fs1 inp) as [listing | e]; simpl.
    + destruct (existsb (is_file fs1) listing); simpl; split;
        try apply same_but_total_refl; try apply same_but_total_set;
        intros x; eapply entry_mkdir; eassumption.
    + split; [apply same_but_total_refl |].
      intros x; eapply entry_mkdir; eassumption.
  - split; [apply same_but_total_refl | reflexivity].
Qed.

Lemma batch_loop_without_attributes {rt : Runtime} output_root :
  forall folders scheds w n,
  let w' := fst (batch_loop None output_root scheds folders w n) in
  same_but_total (stats w) (stats w') /\
  forall x, entry (fs w') x = entry (fs w) x.
Proof.
  induction folders as [| f folders IH]; intros scheds w n; simpl.
  - split; [apply same_but_total_refl | reflexivity].
  - pose proof (run_without_attributes_keeps (str_of_path f)
                  (str_of_path (join output_root (name f))) w) as [St E].
    destruct (run_without_attributes (str_of_path f)
                (str_of_path (join output_root (name f))) w) as [w1 [t |]];
      simpl in St, E.
    + destruct (IH (tl scheds) w1 n) as [St' E']. split.
      * intros k K. rewrite (St' k K). now apply St.
      * intros x. now rewrite E'.
    + destruct (IH (tl scheds) w1 (Datatypes.S n)) as [St' E']. split.
      * intros k K. rewrite (St' k K). now apply St.
      * intros x. now rewrite E'.
Qed.

Lemma same_but_total_grows s s' :
  same_but_total s s' -> grows_but_total s s'.
Proof.
  intros St.
  pose proof (St Processed ltac:(discriminate)) as P1.
  pose proof (St Skipped ltac:(discriminate)) as P2.
  pose proof (St Errors ltac:(discriminate)) as P3.
  pose proof (St TotalLines ltac:(discriminate)) as P4.
  pose proof (St FilteredLines ltac:(discriminate)) as P5.
  pose proof (St DuplicatesFound ltac:(discriminate)) as P6.
  pose proof (St ArchivesProcessed ltac:(discriminate)) as P7.
  simpl in *. unfold grows_but_total. repeat split; lia.
Qed.

Lemma run_in_facts {rt : Runtime} attrs inp out sched w :
  let w' := fst (run_in attrs inp out sched w) in
  grows_but_total (stats w) (stats w') /\
  forall x, folder x <> norm out -> entry (fs w') x = entry (fs w) x.
Proof.
  destruct attrs as [cfg |]; simpl.
  - pose proof (run_grows (with_folders inp out cfg) sched w) as G.
    assert (forall x, folder x <> norm out ->
              entry (fs (fst (run (with_folders inp out cfg) sched w))) x
              = entry (fs w) x) as E.
    { intros x N. apply run_frame. intros p _ X. apply N. now rewrite X. }
    destruct (run (with_folders inp out cfg) sched w) as [w' [[] | e]];
      simpl in *; split; assumption.
  - destruct (run_without_attributes_keeps inp out w) as [St E]. split.
    + now apply same_but_total_grows.
    + intros x _. apply E.
Qed.

Lemma batch_loop_facts {rt : Runtime} attrs output_root :
  forall folders scheds w n,
  let r := batch_loop attrs output_root scheds folders w n in
  grows_but_total (stats w) (stats (fst r)) /\
  (n <= snd r <= n + length folders)%nat /\
  forall x,
    (forall f, In f folders ->
       folder x <> norm (str_of_path (join output_root (name f)))) ->
    entry (fs (fst r)) x = entry (fs w) x.
Proof.
  induction folders as [| f folders IH]; intros scheds w n; simpl.
  - split; [apply grows_but_total_refl |]. split; [lia | reflexivity].
  - pose proof (run_in_facts attrs (str_of_path f)
                  (str_of_path (join output_root (name f)))
                  (hd [] scheds) w) as [G E].
    destruct (run_in attrs (str_of_path f)
                (str_of_path (join output_root (name f)))
                (hd [] scheds) w) as [w1 [t |]]; simpl in G, E.
    + destruct (IH (tl scheds) w1 n) as (G' & N' & E').
      split; [eapply grows_but_total_trans; eassumption |].
      split; [lia |].
      intros x H. rewrite E' by (intros g I; apply H; now right).
      apply E. apply H. now left.
    + destruct (IH (tl scheds) w1 (Datatypes.S n)) as (G' & N' & E').
      split; [eapply grows_but_total_trans; eassumption |].
      split; [lia |].
      intros x H. rewrite E' by (intros g I; apply H; now right).
      apply E. apply H. now left.
Qed.

(** The entries after a run, when the duplicate check is off and the
    output folder is not the input folder: the output file of every file
    queued is what its job leaves on the file system [run] started from;
    every other entry is as it was. *)
Lemma run_entries {rt : Runtime} (cfg : Config) sched w fs1 listing x :
  check_duplicates cfg = false ->
  norm (input_folder cfg) <> norm (output_folder cfg) ->
  1 <= threads cfg ->
  mkdir (fs w) (output_folder cfg) = Ok fs1 ->
  iterdir fs1 (input_folder cfg) = Ok listing ->
  entry (fs (fst (run cfg sched w))) x
  = entry_after cfg fs1 (matching cfg fs1 listing) x.
Proof.
  intros C A T M I. unfold run, entry_after. rewrite M, I.
  destruct (matching cfg fs1 listing) as [| f files] eqn:F; [reflexivity |].
  rewrite <- F. simpl fst.
  set (w2 := with_stats _ _).
  destruct (find (fun p => path_eqb (output_path_of cfg p) x)
                 (matching cfg fs1 listing)) as [p |] eqn:E.
  - apply find_some in E. destruct E as [Hp E].
    apply path_eqb_eq in E. subst x.
    apply (@pool_outputs rt cfg fs1 C A sched w2 (matching cfg fs1 listing) T);
      [reflexivity | now apply matching_listed | exact Hp].
  - destruct (pool_frame cfg sched w2 (matching cfg fs1 listing)) as [Fr _].
    rewrite Fr; [reflexivity |].
    intros p Hp X. subst x.
    pose proof (find_none _ _ E p Hp) as N. simpl in N.
    assert (path_eqb (output_path_of cfg p) (output_path_of cfg p) = true)
      by now apply path_eqb_eq.
    congruence.
Qed.

(** ** Running again *)

Lemma mkdir_again fs0 d : is_dir fs0 (norm d) = true -> mkdir fs0 d = Ok fs0.
Proof. intros H. unfold mkdir. now rewrite H. Qed.

Lemma iterdir_same fsA fs1 d :
  lookup (norm d) fsA = lookup (norm d) fs1 ->
  forall listing, iterdir fs1 d = Ok listing -> iterdir fsA d = Ok listing.
Proof.
  intros L listing. unfold iterdir. rewrite L.
  destruct (lookup (norm d) fs1); [auto |].
  destruct (entry fs1 (path_of (norm d))); discriminate.
Qed.

Lemma matching_same {rt : Runtime} (cfg : Config) fsA fs1 listing :
  (forall p, In p listing -> entry fsA p = entry fs1 p) ->
  matching cfg fsA listing = matching cfg fs1 listing.
Proof.
  intros H. unfold matching. apply filter_ext_in. intros p Hp.
  unfold is_file. now rewrite (H p Hp).
Qed.

Lemma run_next {rt : Runtime} (cfg : Config) sched w fs1 :
  mkdir (fs w) (output_folder cfg) = Ok fs1 ->
  stable cfg fs1 (fs (fst (run cfg sched w))) /\
  (forall d, d <> norm (output_folder cfg) ->
             lookup d (fs (fst (run cfg sched w))) = lookup d fs1).
Proof.
  intros M.
  destruct (run_cases cfg sched w) as [e M' | fs1' e M' I | fs1' l M' I F | fs1' l M' I F];
    simpl; try congruence;
    assert (fs1' = fs1) by congruence; subst fs1';
    try (split; [apply stable_refl | reflexivity]).
  now apply pool_next.
Qed.

(** A job whose output file is settled leaves it as it is when it runs
    again. *)
Lemma job_output_again {rt : Runtime} (cfg : Config) fs1 fsA p :
  check_duplicates cfg = false ->
  norm (input_folder cfg) <> norm (output_folder cfg) ->
  stable cfg fs1 fsA -> listed cfg p -> settled cfg fs1 fsA p ->
  job_output cfg fsA p = job_output cfg fs1 p.
Proof.
  intros C A St L S. unfold settled in S.
  pose proof (@stable_hash rt cfg fs1 A fsA p St L) as Hh.
  pose proof (@stable_read rt cfg fs1 A fsA p St L encodings no_lines) as Hr.
  destruct (calculate_hash fs1 p) as [h | e] eqn:H1.
  - destruct (try_encodings cfg fs1 p encodings no_lines) as [a | e] eqn:R1.
    + rewrite (@job_output_write rt cfg fsA C p h a L Hh Hr), S.
      rewrite (@job_output_write rt cfg fs1 C p h a L H1 R1).
      destruct St as (D & _ & _). rewrite D. apply after_write_twice.
    + now rewrite (@job_output_read_err rt cfg fsA C p h e L Hh Hr).
  - now rewrite (@job_output_hash_err rt cfg fsA p e L Hh).
Qed.

(** ** Paths and answers as they are typed *)

Lemma plain_norm d : plain d = true -> norm d = d.
Proof.
  destruct d; [intros H; vm_compute in H; discriminate H | reflexivity].
Qed.

Lemma plain_not_here d : plain d = true -> str_eqb d (a2s ".") = false.
Proof.
  intros H. destruct (str_eqb d (a2s ".")) eqn:E; [| reflexivity].
  apply str_eqb_eq in E. subst d. vm_compute in H. discriminate H.
Qed.

(** The output folder of a subfolder in batch mode, as a string. *)
Lemma batch_output_folder output_root n :
  plain output_root = true ->
  norm (str_of_path (join output_root n)) = output_root ++ 47%N :: n.
Proof.
  intros P. unfold str_of_path, join. cbn [folder name].
  rewrite (@plain_norm _ P), (@plain_not_here _ P).
  destruct output_root; reflexivity.
Qed.

Lemma file_at_entry fs1 fs2 x :
  entry fs1 x = entry fs2 x -> file_at fs1 x = file_at fs2 x.
Proof. unfold file_at. now intros ->. Qed.

Lemma is_letter_no_space c : is_letter c = true -> is_space c = false.
Proof.
  unfold is_letter, is_space. intros H.
  apply orb_true_iff in H. rewrite !andb_true_iff, !N.leb_le in H.
  apply orb_false_iff. split.
  - apply N.eqb_neq. lia.
  - apply andb_false_iff. rewrite !N.leb_gt. lia.
Qed.

Lemma lstrip_keeps s c : In c s -> is_space c = false -> In c (lstrip s).
Proof.
  induction s as [| x s IH]; [contradiction |].
  intros [-> | H] E; cbn [lstrip].
  - rewrite E. now left.
  - destruct (is_space x); [now apply IH | now right].
Qed.

Lemma strip_keeps s c : In c s -> is_space c = false -> In c (strip s).
Proof.
  intros H E. unfold strip. rewrite !reverse_rev.
  apply -> in_rev. apply lstrip_keeps; [| exact E].
  apply -> in_rev. now apply lstrip_keeps.
Qed.

(** The letters of an answer are still there once it is stripped. *)
Lemma has_letter_strip s : has_letter s = true -> has_letter (strip s) = true.
Proof.
  unfold has_letter. intros H. apply existsb_exists in H.
  destruct H as (c & I & L). apply existsb_exists. exists c.
  split; [| exact L]. apply strip_keeps; [exact I |].
  now apply is_letter_no_space.
Qed.

Lemma has_letter_not_empty s : has_letter s = true -> is_empty s = false.
Proof. destruct s; [discriminate | reflexivity]. Qed.

Lemma parse_digits_letter s :
  has_letter s = true -> forall acc, parse_digits s acc = None.
Proof.
  induction s as [| c s IH]; [discriminate |].
  intros H acc. cbn [parse_digits].
  destruct (N.leb 48 c && N.leb c 57)%bool eqn:D; [| reflexivity].
  apply IH. unfold has_letter in H. cbn [existsb] in H.
  apply orb_true_iff in H. destruct H as [H | H]; [| exact H].
  exfalso. unfold is_letter in H.
  apply orb_true_iff in H. rewrite !andb_true_iff, !N.leb_le in H.
  rewrite andb_true_iff, !N.leb_le in D. lia.
Qed.

(** [int()] raises [ValueError] on an answer with a letter. *)
Lemma has_letter_not_int s : has_letter s = true -> parse_int s = None.
Proof.
  intros H. unfold parse_int.
  repeat match goal with
         | |- context [match ?x with _ => _ end] => is_var x; destruct x
         end;
    try (apply parse_digits_letter; exact H);
    try (rewrite parse_digits_letter; [reflexivity | exact H]).
  vm_compute in H. discriminate H.
Qed.

Lemma parse_digits_digits s :
  forallb (fun c => N.leb 48 c && N.leb c 57) s = true ->
  forall acc, exists n, parse_digits s acc = Some n.
Proof.
  induction s as [| c s IH]; intros H acc; cbn [parse_digits].
  - now exists acc.
  - cbn [forallb] in H. apply andb_true_iff in H. destruct H as [D H].
    rewrite D. now apply IH.
Qed.

(** [int()] accepts decimal digits. *)
Lemma digits_only_int s :
  is_empty s = false -> digits_only s = true -> exists n, parse_int s = Some n.
Proof.
  intros E H. unfold digits_only in H. apply andb_true_iff in H.
  destruct H as [H _]. unfold parse_int.
  repeat match goal with
         | |- context [match ?x with _ => _ end] => is_var x; destruct x
         end;
    try discriminate E;
    try (exfalso; vm_compute in H; discriminate H);
    apply parse_digits_digits; exact H.
Qed.

(** The prompt for the lines asks again after an answer with a letter. *)
Lemma ask_lines_again d again l :
  forallb has_letter again = true -> ask_lines d (again ++ l) = ask_lines d l.
Proof.
  induction again as [| a again IH]; [reflexivity |].
  cbn [forallb]. intros H. apply andb_true_iff in H. destruct H as [Ha H].
  pose proof (@has_letter_strip _ Ha) as Hs.
  cbn [app ask_lines]. cbv zeta.
  rewrite (@has_letter_not_empty _ Hs), (@has_letter_not_int _ Hs).
  now apply IH.
Qed.

(** It takes nothing for the default, and digits for a number. *)
Lemma ask_lines_accepts d a l :
  digits_only (strip a) = true -> exists n, ask_lines d (a :: l) = Ok (n, l).
Proof.
  intros H. cbn [ask_lines]. cbv zeta.
  destruct (is_empty (strip a)) eqn:E; [now exists d |].
  destruct (@digits_only_int _ E H) as [n ->]. now exists n.
Qed.

Lemma plain_apart d e :
  plain d = true -> plain e = true -> d <> e -> norm d <> norm e.
Proof. intros Pd Pe. now rewrite (@plain_norm _ Pd), (@plain_norm _ Pe). Qed.

(** * Further properties: the theorems *)

(** X1.  What a job retains: when the loop over the encodings ends without
    an exception, [content] holds exactly [lines_written] lines and these
    are at most [lines_to_extract] (none when that number is negative),
    also when an attempt that failed on the way left lines behind; with no
    filter terms nothing was counted as filtered. *)
Theorem X1_a_job_retains_at_most_the_cap {rt : Runtime} (cfg : Config)
  fs0 p a :
  try_encodings cfg fs0 p encodings no_lines = Ok a ->
  Z.of_nat (length (content a)) = lines_written a /\
  0 <= lines_written a <= Z.max 0 (lines_to_extract cfg) /\
  0 <= filtered a /\
  (filter_terms cfg = [] -> filtered a = 0).
Proof.
  intros H.
  assert (acc_bounded cfg a) as (L & C & F & T)
    by (eapply try_encodings_bounded; [eassumption | apply no_lines_bounded]).
  repeat split; try assumption; lia.
Qed.

Lemma X1_witness :
  match try_encodings two_lines one_almost_utf8
          {| folder := a2s "in"; name := a2s "a.txt" |} encodings
          no_lines with
  | Ok a => lines_written a = 2 /\ Z.of_nat (length (content a)) = 2
  | Raise _ => False
  end.
Proof.
  destruct (try_encodings two_lines one_almost_utf8
              {| folder := a2s "in"; name := a2s "a.txt" |} encodings
              no_lines) as [a | e] eqn:E.
  - destruct (X1_a_job_retains_at_most_the_cap two_lines one_almost_utf8
                {| folder := a2s "in"; name := a2s "a.txt" |} E)
      as (L & [L0 C] & _).
    assert (2 <= lines_written a) as L2.
    { revert E. vm_compute. intros E. inversion E. vm_compute. discriminate. }
    simpl in C. split; lia.
  - revert E. vm_compute. discriminate.
Defined.

(** X2.  Over a run, in every interleaving of the threads, [total_lines]
    grows by at most [lines_to_extract] for every file the run counts as
    processed, and it does not grow without a processed file. *)
Theorem X2_a_run_extracts_at_most_the_cap_per_file {rt : Runtime}
  (cfg : Config) sched w :
  let s := stats w in
  let s' := stats (fst (run cfg sched w)) in
  0 <= processed s' - processed s /\
  0 <= total_lines s' - total_lines s
    <= Z.max 0 (lines_to_extract cfg) * (processed s' - processed s).
Proof.
  intros s s'. subst s s'.
  destruct (run_within_cap cfg sched w) as (P & T & C & _). lia.
Qed.

(** X3.  With no filter terms a run counts no line as filtered, whatever
    the files and the interleaving. *)
Theorem X3_no_terms_no_filtered_lines {rt : Runtime} (cfg : Config) sched w :
  filter_terms cfg = [] ->
  filtered_lines (stats (fst (run cfg sched w))) = filtered_lines (stats w).
Proof.
  intros H. destruct (run_within_cap cfg sched w) as (_ & _ & _ & F & _).
  auto.
Qed.

Lemma X3_witness :
  filtered_lines (stats (fst (run three_lines [] (new_extractor txt_and_jpg))))
  = 0.
Proof.
  rewrite (X3_no_terms_no_filtered_lines three_lines []
             (new_extractor txt_and_jpg)); reflexivity.
Defined.

(** X4.  With the duplicate check off a run skips no file: [skipped] and
    [duplicates_found] keep their values, and when the run returns, with
    at least one thread, every file it queued was counted as processed or
    as an error. *)
Theorem X4_without_the_check_nothing_is_skipped {rt : Runtime} (cfg : Config)
  sched w :
  check_duplicates cfg = false ->
  let s := stats w in
  let s' := stats (fst (run cfg sched w)) in
  skipped s' = skipped s /\
  duplicates_found s' = duplicates_found s /\
  (1 <= threads cfg -> snd (run cfg sched w) = Ok tt ->
   (processed s' - processed s) + (errors s' - errors s) = total_files s').
Proof.
  intros H s s'. subst s s'.
  destruct (run_within_cap cfg sched w) as (_ & _ & _ & _ & D).
  pose proof (run_skips_duplicates_only cfg sched w) as K.
  specialize (D H).
  repeat split; try lia.
  intros T R. pose proof (run_counts_every_file cfg sched w T R) as A.
  unfold progress_n in A. lia.
Qed.

Lemma X4_witness :
  let s' := stats (fst (run three_lines [] (new_extractor txt_and_jpg))) in
  skipped s' = 0 /\ duplicates_found s' = 0 /\
  processed s' + errors s' = total_files s'.
Proof.
  intros s'. subst s'.
  destruct (X4_without_the_check_nothing_is_skipped three_lines []
              (new_extractor txt_and_jpg) eq_refl) as (S & D & A).
  split; [exact S | split; [exact D |]].
  assert (1 <= threads three_lines) as T by (simpl; lia).
  assert (snd (run three_lines [] (new_extractor txt_and_jpg)) = Ok tt) as R
    by (vm_compute; reflexivity).
  specialize (A T R).
  change (processed (stats (new_extractor txt_and_jpg))) with 0 in A.
  change (errors (stats (new_extractor txt_and_jpg))) with 0 in A.
  lia.
Defined.

(** X5.  A run writes output files only.  For plain input and output
    folders: a regular file that is not [extracted_<name>] in the output
    folder, for a file the run queued, is after the run what it was
    before, in every interleaving and also when jobs fail.  In particular
    no regular file changes outside the output folder.  (The folders the
    run makes are no regular files.) *)
Theorem X5_a_run_writes_output_files_only {rt : Runtime} (cfg : Config)
  sched w x :
  plain (input_folder cfg) = true ->
  plain (output_folder cfg) = true ->
  tidy x = true ->
  folder x <> output_folder cfg \/ not_an_output cfg (queued cfg w) x ->
  file_at (fs (fst (run cfg sched w))) x = file_at (fs w) x.
Proof.
  intros _ P _ H. apply file_at_entry. apply run_frame.
  destruct H as [H | H]; [| exact H].
  intros p _ E. apply H. rewrite E. unfold output_path_of, join.
  cbn [folder]. exact (@plain_norm _ P).
Qed.

Lemma X5_witness :
  file_at (fs (fst (run three_lines [] (new_extractor txt_and_jpg))))
          {| folder := a2s "in"; name := a2s "a.txt" |}
  = Some (file_of_lines ["1"; "2"; "3"; "4"; "5"; "6"]%string).
Proof.
  rewrite (@X5_a_run_writes_output_files_only cpython three_lines []
             (new_extractor txt_and_jpg)
             {| folder := a2s "in"; name := a2s "a.txt" |}).
  - reflexivity.
  - vm_compute. reflexivity.
  - vm_compute. reflexivity.
  - vm_compute. reflexivity.
  - left. vm_compute. discriminate.
Defined.

(** X6.  When the output folder, a plain path, can be made, it is there
    after [run], whether [run] returns or raises on the input folder. *)
Theorem X6_a_run_makes_the_output_folder {rt : Runtime} (cfg : Config)
  sched w fs1 :
  plain (output_folder cfg) = true ->
  mkdir (fs w) (output_folder cfg) = Ok fs1 ->
  is_dir (fs (fst (run cfg sched w))) (output_folder cfg) = true.
Proof.
  intros P M. rewrite (run_folders cfg sched w M).
  rewrite <- (@plain_norm _ P). eapply is_dir_mkdir; eassumption.
Qed.

Lemma X6_witness :
  snd (run from_nowhere [] (new_extractor txt_and_jpg))
  = Raise FileNotFoundError /\
  is_dir (fs (fst (run from_nowhere [] (new_extractor txt_and_jpg))))
         (a2s "out") = true.
Proof.
  split; [vm_compute; reflexivity |].
  apply (@X6_a_run_makes_the_output_folder cpython from_nowhere []
           (new_extractor txt_and_jpg)
           (txt_and_jpg ++ [(a2s "out", [])])).
  - vm_compute. reflexivity.
  - vm_compute. reflexivity.
Defined.

(** X7.  Without the duplicate check, and with plain input and output
    folders that differ (two folders, on a file system without links),
    the counters a run leaves and its result do not depend on the number
    of threads (at least one) nor on the way the threads interleave. *)
Theorem X7_counters_do_not_depend_on_the_threads {rt : Runtime} (cfg : Config)
  n sched sched' w :
  plain (input_folder cfg) = true ->
  plain (output_folder cfg) = true ->
  input_folder cfg <> output_folder cfg ->
  check_duplicates cfg = false ->
  1 <= threads cfg -> 1 <= n ->
  stats (fst (run (with_threads n cfg) sched' w))
  = stats (fst (run cfg sched w)) /\
  snd (run (with_threads n cfg) sched' w) = snd (run cfg sched w).
Proof.
  intros Pi Po Ne C T N. pose proof (@plain_apart _ _ Pi Po Ne) as A.
  destruct (mkdir (fs w) (output_folder cfg)) as [fs1 | e] eqn:M.
  - destruct (iterdir fs1 (input_folder cfg)) as [listing | e] eqn:I.
    + split.
      * rewrite (run_tally cfg sched w C A T M I).
        rewrite (@run_tally rt (with_threads n cfg) sched' w fs1 listing
                   C A N M I).
        reflexivity.
      * unfold run. simpl output_folder. simpl input_folder. rewrite M, I.
        change (matching (with_threads n cfg) fs1 listing)
          with (matching cfg fs1 listing).
        destruct (matching cfg fs1 listing); reflexivity.
    + unfold run. simpl output_folder. simpl input_folder.
      rewrite M, I. split; reflexivity.
  - unfold run. simpl output_folder. rewrite M. split; reflexivity.
Qed.

Lemma X7_witness :
  stats (fst (run (with_threads 3 three_lines) [2; 0; 1; 1; 2]%nat
                  (new_extractor txt_and_jpg)))
  = stats (fst (run three_lines [] (new_extractor txt_and_jpg))).
Proof.
  apply (@X7_counters_do_not_depend_on_the_threads cpython three_lines 3
           [] [2; 0; 1; 1; 2]%nat (new_extractor txt_and_jpg)).
  - vm_compute. reflexivity.
  - vm_compute. reflexivity.
  - vm_compute. discriminate.
  - reflexivity.
  - simpl. lia.
  - lia.
Defined.

(** X8.  With one thread [run] is [process_file] on the queue, in the
    order of the listing, whatever the schedule: the world it leaves is
    the one the jobs leave when they are run one after the other. *)
Theorem X8_one_thread_takes_the_files_in_turn {rt : Runtime} (cfg : Config)
  sched w fs1 listing :
  threads cfg = 1 ->
  mkdir (fs w) (output_folder cfg) = Ok fs1 ->
  iterdir fs1 (input_folder cfg) = Ok listing ->
  fst (run cfg sched w)
  = process_file cfg (matching cfg fs1 listing)
      (with_stats
         (set_total_files (Z.of_nat (length (matching cfg fs1 listing))))
         (with_fs fs1 w)).
Proof.
  intros T M I. unfold run. rewrite M, I.
  destruct (matching cfg fs1 listing) as [| f files] eqn:F; [reflexivity |].
  simpl fst. now apply pool_alone.
Qed.

Lemma X8_witness :
  fst (run three_lines [0; 0; 3; 0]%nat (new_extractor txt_and_jpg))
  = process_file three_lines [ {| folder := a2s "in"; name := a2s "a.txt" |} ]
      (with_stats (set_total_files 1)
         (with_fs (txt_and_jpg ++ [(a2s "out", [])])
                  (new_extractor txt_and_jpg))).
Proof.
  apply (@X8_one_thread_takes_the_files_in_turn cpython three_lines
           [0; 0; 3; 0]%nat (new_extractor txt_and_jpg)
           (txt_and_jpg ++ [(a2s "out", [])])
           [ {| folder := a2s "in"; name := a2s "a.txt" |};
             {| folder := a2s "in"; name := a2s "b.jpg" |} ]).
  - reflexivity.
  - vm_compute. reflexivity.
  - vm_compute. reflexivity.
Defined.

(** X9.  A file that [process_one] counts as processed has its extract:
    the file was hashed and read, the output file [extracted_<name>] is a
    regular, writable file that holds the UTF-8 form of the retained lines
    (and of the watermark block, when asked for); [total_lines] and
    [filtered_lines] grew by the counts of that job, and no other entry
    of the file system changed. *)
Theorem X9_a_processed_file_has_its_extract {rt : Runtime} (cfg : Config)
  w p :
  processed (stats (process_one cfg w p)) <> processed (stats w) ->
  exists h a r data,
    calculate_hash (fs w) p = Ok h /\
    try_encodings cfg (fs w) p encodings no_lines = Ok a /\
    encode_utf8 (concat (lines_to_write cfg p h a)) = Ok data /\
    entry (fs (process_one cfg w p)) (output_path_of cfg p)
    = Some (Regular r true data) /\
    stats (process_one cfg w p)
    = count_processed (lines_written a) (filtered a) (stats w) /\
    (forall x, x <> output_path_of cfg p ->
               entry (fs (process_one cfg w p)) x = entry (fs w) x).
Proof.
  unfold process_one, check_type, hash_step, duplicate_step, read_step,
    write_step.
  destruct (has_file_type cfg p); cbn [negb];
    [| intros H; now elim H].
  destruct (calculate_hash (fs w) p) as [h | e]; [| intros H; now elim H].
  destruct (if check_duplicates cfg then is_duplicate cfg (fs w) p h
            else Ok false) as [[|] | e]; try (intros H; now elim H).
  destruct (try_encodings cfg (fs w) p encodings no_lines) as [a | e];
    [| intros H; now elim H].
  fold (lines_to_write cfg p h a).
  destruct (write_lines (fs w) (output_path_of cfg p)
                        (lines_to_write cfg p h a)) as [fs' [[] | e]] eqn:W;
    [| intros H; now elim H].
  intros _. destruct (@write_lines_stored rt _ _ _ _ W) as (r & data & E & S).
  exists h, a, r, data. repeat split; try assumption.
  intros x N. simpl.
  replace fs' with (fst (write_lines (fs w) (output_path_of cfg p)
                           (lines_to_write cfg p h a))) by now rewrite W.
  now apply write_lines_other.
Qed.

Lemma X9_witness :
  exists h a r data,
    calculate_hash txt_and_jpg {| folder := a2s "in"; name := a2s "a.txt" |}
    = Ok h /\
    lines_written a = 3 /\
    encode_utf8 (concat (content a)) = Ok data /\
    entry
      (fs (process_one three_lines
             (new_extractor (txt_and_jpg ++ [(a2s "out", [])]))
             {| folder := a2s "in"; name := a2s "a.txt" |}))
      {| folder := a2s "out"; name := a2s "extracted_a.txt" |}
    = Some (Regular r true data).
Proof.
  destruct (@X9_a_processed_file_has_its_extract cpython three_lines
              (new_extractor (txt_and_jpg ++ [(a2s "out", [])]))
              {| folder := a2s "in"; name := a2s "a.txt" |})
    as (h & a & r & data & H & R & E & S & _).
  - vm_compute. discriminate.
  - exists h, a, r, data. repeat split.
    + rewrite <- H. vm_compute. reflexivity.
    + revert R. vm_compute. intros R. inversion R. reflexivity.
    + exact E.
    + exact S.
Defined.

(** X10.  With the reference codecs the loop over the encodings never gets
    past Latin-1: the job reads a file exactly as if the list were
    [utf-8, latin-1], a file that can be opened is always read, and the
    only exception of the loop is the one of [open].  The entries
    [cp1252] and [utf-16] are never tried. *)
Theorem X10_latin_1_ends_the_fallback (cfg : Config) fs0 p a :
  try_encodings cfg fs0 p encodings a
  = try_encodings cfg fs0 p [utf_8; latin_1] a /\
  match open_read fs0 p with
  | Ok _ => exists a', try_encodings cfg fs0 p encodings a = Ok a'
  | Raise e => try_encodings cfg fs0 p encodings a = Raise e
  end.
Proof.
  unfold encodings. simpl.
  destruct (open_read fs0 p) as [data | e]; simpl; [| split; reflexivity].
  destruct (read_lines cfg (Codec.text_lines utf_8 data) a)
    as [a1 [e |]] eqn:R1; [| split; [reflexivity | eauto]].
  rewrite (read_lines_decode_error cfg _
             (utf_8_fails_with_decode_errors data) _ R1).
  pose proof (read_lines_never_fails cfg _ (latin_1_never_fails data) a1)
    as R2.
  destruct (read_lines cfg (Codec.text_lines latin_1 data) a1)
    as [a2 o]. simpl in R2. subst o. split; [reflexivity | eauto].
Qed.

(** X11.  The filter terms [get_user_input] stores are never empty, have no
    white space at their ends and hold no comma, whatever was typed: stray
    commas and blanks give no term, so no term is contained in every line.
    The same holds for the file types, unless the answer was empty and the
    default types were taken. *)
Theorem X11_the_lists_typed_are_clean {rt : Runtime} fs0 settings answers
  cfg settings' :
  get_user_input fs0 settings answers = Ok (cfg, settings') ->
  Forall clean (filter_terms cfg) /\
  (file_types cfg = default_file_types settings \/
   Forall clean (file_types cfg)).
Proof.
  unfold get_user_input. intros H.
  destruct (ask_input_folder fs0 (last_input_folder settings) answers)
    as [[inp r1] |] eqn:A; simpl in H; [| discriminate].
  destruct (input r1) as [[a2 r2] |]; simpl in H; [| discriminate].
  destruct (ask_lines (default_lines settings) r2) as [[lines r3] |];
    simpl in H; [| discriminate].
  destruct (input r3) as [[a4 r4] |]; simpl in H; [| discriminate].
  destruct (input r4) as [[a5 r5] |]; simpl in H; [| discriminate].
  destruct (input r5) as [[a6 r6] |]; simpl in H; [| discriminate].
  destruct (if is_empty (strip a6) then Ok (default_threads settings)
            else match parse_int (strip a6) with
                 | Some n => Ok n
                 | None => Raise ValueError
                 end) as [n |]; simpl in H; [| discriminate].
  destruct (input r6) as [[a7 r7] |]; simpl in H; [| discriminate].
  destruct (input r7) as [[a8 r8] |]; simpl in H; [| discriminate].
  inversion H; subst; simpl. split; [apply comma_separated_clean |].
  destruct (is_empty (strip a7)); [now left | right].
  apply comma_separated_clean.
Qed.

Lemma X11_witness :
  match get_user_input txt_and_jpg defaults untidy_answers with
  | Ok (cfg, _) =>
      filter_terms cfg = [a2s "error"; a2s "warn"] /\
      Forall clean (filter_terms cfg)
  | Raise _ => False
  end.
Proof.
  destruct (get_user_input txt_and_jpg defaults untidy_answers)
    as [[cfg settings'] | e] eqn:E.
  - split.
    + revert E. vm_compute. intros E. inversion E. reflexivity.
    + exact (proj1 (X11_the_lists_typed_are_clean txt_and_jpg defaults
                      untidy_answers E)).
  - revert E. vm_compute. discriminate.
Defined.

(** X12.  [Reset All Settings] cannot succeed.  Choice 6 of the settings
    menu, confirmed, replaces the settings by a dictionary whose theme is
    [default], which is no theme: [reset_settings] raises [KeyError],
    nothing in [settings_menu] catches it, and the configuration file is
    not written.  With settings that are well formed this is the only way
    in which [settings_menu] raises, apart from the end of the input. *)
Theorem X12_reset_all_settings_raises {rt : Runtime} answers answer rest sh :
  well_formed sh ->
  (str_eqb (str_lower answer) (a2s "y") = true ->
   Menu.settings_menu (a2s "6" :: answer :: rest) sh
   = (Menu.with_settings Menu.default_settings sh,
      Menu.Raised (Menu.KeyError (Menu.VStr (a2s "default"))))) /\
  (forall e,
     snd (Menu.settings_menu answers sh) = Menu.Raised e ->
     Menu.config_file (fst (Menu.settings_menu answers sh))
     = Menu.config_file sh /\
     (e = Menu.Builtin EOFError \/
      e = Menu.KeyError (Menu.VStr (a2s "default")) /\
      Menu.settings (fst (Menu.settings_menu answers sh))
      = Menu.default_settings)).
Proof.
  intros W. split.
  - intros Y. simpl. rewrite (show_settings_well_formed W).
    unfold Menu.answered.
    change (str_eqb (strip (a2s "6")) (a2s "1")) with false.
    change (str_eqb (strip (a2s "6")) (a2s "2")) with false.
    change (str_eqb (strip (a2s "6")) (a2s "3")) with false.
    change (str_eqb (strip (a2s "6")) (a2s "4")) with false.
    change (Menu.asks (strip (a2s "6"))) with true.
    cbv iota. rewrite Y. reflexivity.
  - intros e E.
    pose proof (@settings_menu_cases rt (length answers) answers sh
                  (le_n _) W) as C.
    simpl in C. destruct C as [_ C]. rewrite E in C. exact C.
Qed.

Lemma X12_witness :
  Menu.settings_menu resetting_answers fresh_shell
  = (Menu.with_settings Menu.default_settings fresh_shell,
     Menu.Raised (Menu.KeyError (Menu.VStr (a2s "default")))) /\
  Menu.config_file (fst (Menu.settings_menu resetting_answers fresh_shell))
  = Menu.Absent.
Proof.
  assert (well_formed fresh_shell) as W.
  { unfold well_formed. simpl.
    repeat split; eexists; repeat split; try reflexivity; lia. }
  split; [vm_compute; reflexivity |].
  destruct (@X12_reset_all_settings_raises cpython resetting_answers
              (a2s "y") [] fresh_shell W) as [_ A].
  destruct (A (Menu.KeyError (Menu.VStr (a2s "default")))) as [C _].
  - vm_compute. reflexivity.
  - rewrite C. reflexivity.
Defined.

(** X13.  When [settings_menu] returns (choice 7), settings that were
    well formed still are: the theme is one of the three and is the
    current one, [default_threads] is between 1 and 16 whatever number
    was typed, no key was added or dropped; and the configuration file,
    when it can be written, holds exactly these settings. *)
Theorem X13_the_settings_menu_keeps_the_settings_sound {rt : Runtime}
  answers sh :
  well_formed sh ->
  snd (Menu.settings_menu answers sh) = Menu.Returned tt ->
  let sh' := fst (Menu.settings_menu answers sh) in
  well_formed sh' /\
  keys (Menu.settings sh') = keys (Menu.settings sh) /\
  Menu.config_file sh'
  = (if Menu.config_writable sh then Menu.Holds (Menu.settings sh')
     else Menu.config_file sh).
Proof.
  intros W R sh'. subst sh'.
  pose proof (@settings_menu_cases rt (length answers) answers sh
                (le_n _) W) as C.
  simpl in C. destruct C as [_ C]. rewrite R in C. exact C.
Qed.

Lemma X13_witness :
  let sh' := fst (Menu.settings_menu tuning_answers fresh_shell) in
  lookup (a2s "default_threads") (Menu.settings sh') = Some (Menu.VInt 16) /\
  Menu.current_theme sh' = a2s "pro_light" /\
  well_formed sh' /\
  Menu.config_file sh' = Menu.Holds (Menu.settings sh').
Proof.
  assert (well_formed fresh_shell) as W.
  { unfold well_formed. simpl.
    repeat split; eexists; repeat split; try reflexivity; lia. }
  assert (snd (Menu.settings_menu tuning_answers fresh_shell)
          = Menu.Returned tt) as R by (vm_compute; reflexivity).
  destruct (@X13_the_settings_menu_keeps_the_settings_sound cpython
              tuning_answers fresh_shell W R) as (W' & _ & C).
  split; [vm_compute; reflexivity |].
  split; [vm_compute; reflexivity |].
  split; [exact W' | exact C].
Defined.

(** X14.  [load_settings] takes from the configuration file the values of
    the keys the settings already have, and nothing else: the keys and
    their order stay, a key the file does not have keeps its value, and a
    key only the file has is ignored. *)
Theorem X14_load_settings_takes_known_keys_only sh loaded :
  Menu.config_file sh = Menu.Holds loaded ->
  let sh' := Menu.load_settings sh in
  keys (Menu.settings sh') = keys (Menu.settings sh) /\
  forall k, lookup k (Menu.settings sh')
            = match lookup k (Menu.settings sh), lookup k loaded with
              | Some _, Some v => Some v
              | old, _ => old
              end.
Proof.
  intros C sh'. subst sh'.
  destruct (load_settings_spec sh C) as (K & _ & L). split; assumption.
Qed.

Lemma X14_witness :
  let sh' :=
    Menu.load_settings
      {| Menu.settings := Menu.initial_settings None;
         Menu.current_theme := [];
         Menu.config_file :=
           Menu.Holds [ (a2s "colour", Menu.VStr (a2s "red"));
                        (a2s "default_lines", Menu.VInt 7) ];
         Menu.config_writable := true |} in
  lookup (a2s "default_lines") (Menu.settings sh') = Some (Menu.VInt 7) /\
  lookup (a2s "colour") (Menu.settings sh') = None /\
  lookup (a2s "default_threads") (Menu.settings sh') = Some (Menu.VInt 4).
Proof.
  intros sh'. subst sh'.
  destruct (@X14_load_settings_takes_known_keys_only
              {| Menu.settings := Menu.initial_settings None;
                 Menu.current_theme := [];
                 Menu.config_file :=
                   Menu.Holds [ (a2s "colour", Menu.VStr (a2s "red"));
                                (a2s "default_lines", Menu.VInt 7) ];
                 Menu.config_writable := true |}
              [ (a2s "colour", Menu.VStr (a2s "red"));
                (a2s "default_lines", Menu.VInt 7) ] eq_refl) as [_ L].
  rewrite !L. repeat split.
Defined.

(** X15.  Settings that were saved come back at the next start: when the
    settings are well formed, have the keys [__init__] gives them and the
    configuration file can be written, [__init__] on the file
    [save_settings] wrote yields the same settings and the same current
    theme, and does not raise. *)
Theorem X15_saved_settings_survive_a_restart cpu_count sh :
  well_formed sh ->
  Menu.config_writable sh = true ->
  keys (Menu.settings sh) = keys (Menu.initial_settings cpu_count) ->
  exists sh',
    Menu.new_shell cpu_count (Menu.config_file (Menu.save_settings sh)) true
    = Menu.Returned sh' /\
    Menu.settings sh' = Menu.settings sh /\
    Menu.current_theme sh' = Menu.current_theme sh.
Proof.
  intros W Cw K. unfold Menu.save_settings. rewrite Cw. simpl Menu.config_file.
  unfold Menu.new_shell.
  set (sh0 := {| Menu.settings := Menu.initial_settings cpu_count;
                 Menu.current_theme := [];
                 Menu.config_file := Menu.Holds (Menu.settings sh);
                 Menu.config_writable := true |}).
  destruct (@load_settings_spec sh0 (Menu.settings sh) eq_refl)
    as (K0 & _ & L0).
  assert (Menu.settings (Menu.load_settings sh0) = Menu.settings sh) as E.
  { apply dict_ext.
    - rewrite K0. simpl. now rewrite K.
    - rewrite K0. apply initial_keys_differ.
    - intros k. rewrite L0. simpl Menu.settings.
      pose proof (lookup_keys k (Menu.initial_settings cpu_count)) as X0.
      pose proof (lookup_keys k (Menu.settings sh)) as X1.
      rewrite <- K, X1 in X0.
      destruct (lookup k (Menu.initial_settings cpu_count));
        destruct (lookup k (Menu.settings sh)); congruence. }
  rewrite E.
  destruct W as ((t & Wt & Tt & Ct) & _).
  unfold Menu.getitem. rewrite Wt.
  cbn [Menu.and_then Menu.themes_getitem]. rewrite Tt.
  eexists. split; [reflexivity |]. simpl. split; congruence.
Qed.

Lemma X15_witness :
  let sh := fst (Menu.settings_menu tuning_answers fresh_shell) in
  exists sh',
    Menu.new_shell (Some 8) (Menu.config_file (Menu.save_settings sh)) true
    = Menu.Returned sh' /\
    Menu.settings sh' = Menu.settings sh /\
    Menu.current_theme sh' = a2s "pro_light".
Proof.
  intros sh.
  destruct (@X15_saved_settings_survive_a_restart (Some 8) sh)
    as (sh' & N & S & T).
  - unfold well_formed. vm_compute.
    repeat split; eexists; repeat split; try reflexivity; discriminate.
  - vm_compute. reflexivity.
  - vm_compute. reflexivity.
  - exists sh'. split; [exact N | split; [exact S |]].
    rewrite T. vm_compute. reflexivity.
Defined.

(** X16.  Batch mode on an object on which [get_user_input] never ran
    extracts nothing.  [run()] makes the output folder of each subfolder
    and then raises [AttributeError] at the first regular file, which the
    loop catches: whatever is typed and whatever the folders hold, no
    regular file appears, disappears or changes its content, and no
    counter other than [total_files] changes.  (The folders that were
    made stay.) *)
Theorem X16_batch_mode_needs_a_first_extraction {rt : Runtime} scheds answers
  w :
  same_but_total (stats w)
                 (stats (fst (batch_mode None scheds answers w))) /\
  forall x, file_at (fs (fst (batch_mode None scheds answers w))) x
            = file_at (fs w) x.
Proof.
  assert (let w' := fst (batch_mode None scheds answers w) in
          same_but_total (stats w) (stats w') /\
          forall x, entry (fs w') x = entry (fs w) x) as K.
  { unfold batch_mode.
    destruct answers as [| a1 r1]; simpl;
      [split; [apply same_but_total_refl | reflexivity] |].
    destruct (path_exists (fs w) (strip a1)); simpl;
      [| split; [apply same_but_total_refl | reflexivity]].
    destruct r1 as [| a2 r2]; simpl;
      [split; [apply same_but_total_refl | reflexivity] |].
    destruct (iterdir (fs w) (strip a1)) as [listing | e]; simpl;
      [| split; [apply same_but_total_refl | reflexivity]].
    destruct (filter (fun f => is_dir (fs w) (str_of_path f)) listing)
      as [| f folders]; simpl;
      [split; [apply same_but_total_refl | reflexivity] |].
    destruct r2 as [| a3 r3]; simpl;
      [split; [apply same_but_total_refl | reflexivity] |].
    destruct (str_eqb (str_lower a3) (a2s "y")); simpl;
      [| split; [apply same_but_total_refl | reflexivity]].
    pose proof (batch_loop_without_attributes
                  (or_else (strip a2) (a2s "batch_output"))
                  (f :: folders) scheds w 0) as H.
    simpl in H.
    destruct (run_without_attributes (str_of_path f)
                (str_of_path (join (or_else (strip a2) (a2s "batch_output"))
                                   (name f))) w) as [w1 [t |]].
    - destruct (batch_loop None (or_else (strip a2) (a2s "batch_output"))
                  (tl scheds) folders w1 0) as [w2 n].
      destruct r3; exact H.
    - destruct (batch_loop None (or_else (strip a2) (a2s "batch_output"))
                  (tl scheds) folders w1 1) as [w2 n].
      destruct r3; exact H. }
  cbv zeta in K. destruct K as [St E].
  split; [exact St | intros x; apply file_at_entry, E].
Qed.

Lemma X16_witness :
  let r := batch_mode None [] batch_answers (new_extractor two_subfolders) in
  snd r = Ok (Some 0%nat) /\
  processed (stats (fst r)) = 0 /\
  file_at (fs (fst r))
          {| folder := a2s "batch_output/one"; name := a2s "extracted_a.txt" |}
  = None.
Proof.
  intros r. subst r.
  destruct (@X16_batch_mode_needs_a_first_extraction cpython [] batch_answers
              (new_extractor two_subfolders)) as [St E].
  split; [vm_compute; reflexivity |].
  split.
  - exact (St Processed ltac:(discriminate)).
  - rewrite E. reflexivity.
Defined.

(** X17.  The loop of batch mode goes through all the folders, also after
    a folder whose [run()] raised: no counter other than [total_files]
    decreases, the number of folders reported as processed is at most the
    number of folders, and, for a plain output root and subfolders with
    plain paths, no regular file appears, disappears or changes outside
    the output folders [output_root/<name>] of the subfolders. *)
Theorem X17_batch_mode_writes_to_its_output_folders {rt : Runtime} attrs
  output_root folders scheds w x :
  plain output_root = true ->
  forallb tidy folders = true ->
  tidy x = true ->
  (forall f, In f folders -> folder x <> output_root ++ 47%N :: name f) ->
  let r := batch_loop attrs output_root scheds folders w 0 in
  file_at (fs (fst r)) x = file_at (fs w) x /\
  grows_but_total (stats w) (stats (fst r)) /\
  (snd r <= length folders)%nat.
Proof.
  intros P _ _ H r. subst r.
  destruct (batch_loop_facts attrs output_root folders scheds w 0)
    as (G & N & E).
  split; [| split; [exact G | lia]].
  apply file_at_entry, E. intros f I.
  rewrite (@batch_output_folder output_root (name f) P). now apply H.
Qed.

Lemma X17_witness :
  let r := batch_loop (Some three_lines) (a2s "batch_output") []
             [ {| folder := a2s "batch"; name := a2s "one" |};
               {| folder := a2s "batch"; name := a2s "two" |} ]
             (new_extractor two_subfolders) 0 in
  file_at (fs (fst r)) {| folder := a2s "batch/one"; name := a2s "a.txt" |}
  = Some (file_of_lines ["1"; "2"]%string) /\
  processed (stats (fst r)) = 2 /\ snd r = 2%nat.
Proof.
  intros r. subst r.
  destruct (@X17_batch_mode_writes_to_its_output_folders cpython
              (Some three_lines) (a2s "batch_output")
              [ {| folder := a2s "batch"; name := a2s "one" |};
                {| folder := a2s "batch"; name := a2s "two" |} ]
              [] (new_extractor two_subfolders)
              {| folder := a2s "batch/one"; name := a2s "a.txt" |})
    as (E & _ & _).
  - vm_compute. reflexivity.
  - vm_compute. reflexivity.
  - vm_compute. reflexivity.
  - intros f [<- | [<- | []]]; vm_compute; discriminate.
  - split; [rewrite E; reflexivity |].
    split; vm_compute; reflexivity.
Defined.

(** X18.  Without the duplicate check, and with plain input and output
    folders that differ (two folders, on a file system without links),
    the files a run leaves do not depend on the number of threads nor on
    the way they interleave: every entry of the file system, and every
    folder, is the same after the two runs.  The watermark carries the
    time of the write, which a run does not control; the statement is
    made for runs without watermark. *)
Theorem X18_output_files_do_not_depend_on_the_threads {rt : Runtime}
  (cfg : Config) n sched sched' w :
  plain (input_folder cfg) = true ->
  plain (output_folder cfg) = true ->
  input_folder cfg <> output_folder cfg ->
  check_duplicates cfg = false ->
  watermark cfg = false ->
  1 <= threads cfg -> 1 <= n ->
  (forall x, entry (fs (fst (run (with_threads n cfg) sched' w))) x
             = entry (fs (fst (run cfg sched w))) x) /\
  (forall d, is_dir (fs (fst (run (with_threads n cfg) sched' w))) d
             = is_dir (fs (fst (run cfg sched w))) d).
Proof.
  intros Pi Po Ne C _ T N. pose proof (@plain_apart _ _ Pi Po Ne) as A.
  destruct (mkdir (fs w) (output_folder cfg)) as [fs1 | e] eqn:M.
  - split.
    + intros x.
      destruct (iterdir fs1 (input_folder cfg)) as [listing | e] eqn:I.
      * rewrite (run_entries cfg sched w x C A T M I).
        rewrite (@run_entries rt (with_threads n cfg) sched' w fs1 listing x
                   C A N M I).
        reflexivity.
      * unfold run. simpl output_folder. simpl input_folder.
        rewrite M, I. reflexivity.
    + intros d. rewrite (run_folders cfg sched w M).
      apply (@run_folders rt (with_threads n cfg) sched' w fs1 M).
  - unfold run. simpl output_folder. rewrite M. split; reflexivity.
Qed.

Lemma X18_witness :
  entry (fs (fst (run (with_threads 3 three_lines) [2; 0; 1; 1; 2]%nat
                      (new_extractor txt_and_jpg))))
        {| folder := a2s "out"; name := a2s "extracted_a.txt" |}
  = entry (fs (fst (run three_lines [] (new_extractor txt_and_jpg))))
          {| folder := a2s "out"; name := a2s "extracted_a.txt" |}.
Proof.
  apply (@X18_output_files_do_not_depend_on_the_threads cpython three_lines 3
           [] [2; 0; 1; 1; 2]%nat (new_extractor txt_and_jpg)).
  - vm_compute. reflexivity.
  - vm_compute. reflexivity.
  - vm_compute. discriminate.
  - reflexivity.
  - reflexivity.
  - simpl. lia.
  - lia.
Defined.

(** X19.  A thread count in words ends the prompt.  When the first answer
    names a folder that exists, the prompt for the lines is answered any
    number of times with something that holds a letter and then with
    nothing or with digits, and the answer to the thread prompt holds a
    letter, [get_user_input] raises [ValueError]: the conversion of the
    thread count is outside any [try], while the prompt for the lines,
    which has one, has asked again after each answer with a letter. *)
Theorem X19_a_thread_count_in_words_ends_the_prompt {rt : Runtime} fs0
  settings a1 a2 again a3 a4 a5 a6 rest :
  typed a1 = true ->
  plain (or_else (strip a1) (last_input_folder settings)) = true ->
  path_exists fs0 (or_else (strip a1) (last_input_folder settings)) = true ->
  forallb has_letter again = true ->
  typed a3 = true ->
  digits_only (strip a3) = true ->
  has_letter a6 = true ->
  get_user_input fs0 settings
    (a1 :: a2 :: again ++ a3 :: a4 :: a5 :: a6 :: rest)
  = Raise ValueError.
Proof.
  intros _ _ E Ag _ D L.
  unfold get_user_input. cbn [ask_input_folder]. cbv zeta.
  rewrite E. cbn [bind input].
  rewrite (@ask_lines_again (default_lines settings) again
             (a3 :: a4 :: a5 :: a6 :: rest) Ag).
  destruct (@ask_lines_accepts (default_lines settings) a3
              (a4 :: a5 :: a6 :: rest) D) as [n ->].
  cbn [bind input]. cbv zeta.
  pose proof (@has_letter_strip a6 L) as Ls.
  rewrite (@has_letter_not_empty _ Ls), (@has_letter_not_int _ Ls).
  reflexivity.
Qed.

Lemma X19_witness :
  get_user_input txt_and_jpg defaults in_words_answers = Raise ValueError.
Proof.
  apply (@X19_a_thread_count_in_words_ends_the_prompt cpython txt_and_jpg
           defaults (a2s "in") (a2s "") [a2s "ten"] (a2s "10") (a2s "n")
           (a2s "") (a2s "four") (map a2s [""; "n"]%string));
    vm_compute; reflexivity.
Defined.

(** X20.  Menu entry 1, [get_user_input] and then [run]: the thread count
    the prompt leaves is between 1 and 16, so there is a thread to take
    the files, and when [run] returns every file it queued was counted
    once (as processed, skipped or error). *)
Theorem X20_a_run_from_the_prompt_counts_every_file {rt : Runtime} fs0
  settings answers cfg settings' sched s :
  get_user_input fs0 settings answers = Ok (cfg, settings') ->
  let w := {| stats := s; fs := fs0 |} in
  1 <= threads cfg <= 16 /\
  (snd (run cfg sched w) = Ok tt ->
   progress_n (stats (fst (run cfg sched w)))
   = progress_n s + total_files (stats (fst (run cfg sched w)))).
Proof.
  intros G w.
  destruct (@get_user_input_checked rt fs0 settings answers cfg settings' G)
    as [_ T].
  split; [exact T |]. intros R.
  exact (run_counts_every_file cfg sched w (proj1 T) R).
Qed.

Lemma X20_witness :
  match get_user_input txt_and_jpg defaults untidy_answers with
  | Ok (cfg, _) =>
      progress_n (stats (fst (run cfg [] (new_extractor txt_and_jpg))))
      = progress_n init_stats
        + total_files (stats (fst (run cfg [] (new_extractor txt_and_jpg))))
  | Raise _ => False
  end.
Proof.
  destruct (get_user_input txt_and_jpg defaults untidy_answers)
    as [[cfg settings'] | e] eqn:G.
  - pose proof (@X20_a_run_from_the_prompt_counts_every_file cpython
                  txt_and_jpg defaults untidy_answers cfg settings' []
                  init_stats G) as H.
    cbv zeta in H. destruct H as [_ H].
    change {| stats := init_stats; fs := txt_and_jpg |}
      with (new_extractor txt_and_jpg) in H.
    apply H. clear H. vm_compute in G. inversion G. vm_compute. reflexivity.
  - vm_compute in G. discriminate G.
Defined.

(** X21.  Running again changes no file.  Without the duplicate check and
    the watermark (which carries the time), and with plain input and
    output folders that differ (two folders, on a file system without
    links), a second run with the same configuration leaves every entry
    of the file system as the first run left it, whatever the
    interleavings of the two runs: the extracts are written again with
    the same content. *)
Theorem X21_running_again_changes_no_file {rt : Runtime} (cfg : Config)
  sched1 sched2 w x :
  plain (input_folder cfg) = true ->
  plain (output_folder cfg) = true ->
  input_folder cfg <> output_folder cfg ->
  check_duplicates cfg = false ->
  watermark cfg = false ->
  1 <= threads cfg ->
  entry (fs (fst (run cfg sched2 (fst (run cfg sched1 w))))) x
  = entry (fs (fst (run cfg sched1 w))) x.
Proof.
  intros Pi Po Ne C _ T. pose proof (@plain_apart _ _ Pi Po Ne) as A.
  destruct (mkdir (fs w) (output_folder cfg)) as [fs1 | e] eqn:M.
  2: { assert (fst (run cfg sched1 w) = w) as ->
         by (unfold run; now rewrite M).
       unfold run. now rewrite M. }
  set (wA := fst (run cfg sched1 w)).
  destruct (run_next cfg sched1 w M) as [St Lk]. fold wA in St, Lk.
  assert (mkdir (fs wA) (output_folder cfg) = Ok (fs wA)) as MA.
  { apply mkdir_again. unfold wA. rewrite (run_folders cfg sched1 w M).
    eapply is_dir_mkdir; eassumption. }
  destruct (iterdir fs1 (input_folder cfg)) as [listing | e] eqn:I.
  - assert (iterdir (fs wA) (input_folder cfg) = Ok listing) as IA.
    { eapply iterdir_same; [apply Lk; exact A | exact I]. }
    assert (matching cfg (fs wA) listing = matching cfg fs1 listing) as Mt.
    { apply matching_same. intros p Hp.
      pose proof St as (_ & E & _). apply E.
      rewrite (@iterdir_folder _ _ _ _ I Hp). exact A. }
    rewrite (run_entries cfg sched2 wA x C A T MA IA), Mt.
    unfold entry_after.
    destruct (find (fun p => path_eqb (output_path_of cfg p) x)
                   (matching cfg fs1 listing)) as [p |] eqn:F;
      [| reflexivity].
    apply find_some in F. destruct F as [Hp F].
    apply path_eqb_eq in F. subst x.
    assert (listed cfg p) as L.
    { pose proof (@matching_listed rt cfg fs1 listing I) as Lf.
      rewrite Forall_forall in Lf. now apply Lf. }
    assert (settled cfg fs1 (fs wA) p) as S.
    { unfold settled, wA.
      rewrite (run_entries cfg sched1 w (output_path_of cfg p) C A T M I).
      unfold entry_after.
      destruct (find (fun p0 => path_eqb (output_path_of cfg p0)
                                         (output_path_of cfg p))
                     (matching cfg fs1 listing)) as [p' |] eqn:F'.
      - apply find_some in F'. destruct F' as [Hp' F'].
        apply path_eqb_eq in F'.
        assert (listed cfg p') as L'.
        { pose proof (@matching_listed rt cfg fs1 listing I) as Lf.
          rewrite Forall_forall in Lf. now apply Lf. }
        now rewrite (@listed_same_output rt cfg p p' L L' F').
      - pose proof (find_none _ _ F' p Hp) as N. simpl in N.
        assert (path_eqb (output_path_of cfg p) (output_path_of cfg p) = true)
          by now apply path_eqb_eq.
        congruence. }
    rewrite (@job_output_again rt cfg fs1 (fs wA) p C A St L S).
    symmetry. exact S.
  - assert (wA = with_fs fs1 w) as EA
        by (unfold wA, run; now rewrite M, I).
    assert (iterdir (fs wA) (input_folder cfg) = Raise e) as IA
        by (rewrite EA; exact I).
    unfold run at 1. rewrite MA, IA. reflexivity.
Qed.

Lemma X21_witness :
  entry (fs (fst (run three_lines [0; 0]%nat
                      (fst (run three_lines [] (new_extractor txt_and_jpg))))))
        {| folder := a2s "out"; name := a2s "extracted_a.txt" |}
  = Some (file_of_lines ["1"; "2"; "3"]%string).
Proof.
  rewrite (@X21_running_again_changes_no_file cpython three_lines [] [0; 0]%nat
             (new_extractor txt_and_jpg)
             {| folder := a2s "out"; name := a2s "extracted_a.txt" |}).
  - vm_compute. reflexivity.
  - vm_compute. reflexivity.
  - vm_compute. reflexivity.
  - vm_compute. discriminate.
  - reflexivity.
  - reflexivity.
  - simpl. lia.
Defined.
